(** * qgrep: the data-pack builder (build.cpp) and the watcher's pack scan and
    startup diff (watch.cpp), embedded as Rocq functions.

    Conventions of the embedding.
    - [size_t] quantities that count the elements of an in-memory vector or
      string are natural numbers: they are lengths of lists.
    - Fixed-width fields ([uint32_t], [uint64_t], [unsigned int], [int]) are
      integers in [Z], and every store into such a field writes the
      wrap-around out ([u32], [u64], [int32]).
    - [char] is [Byte.byte]; a [std::vector<char>] is a [list byte]; a
      [std::string] is a [string].
    - A loop of the source that is bounded by a container is a structural
      [Fixpoint]; the two [while] loops on [pendingSize] take fuel and return
      [None] when it runs out. *)

From Stdlib Require Import Strings.String Strings.Ascii Strings.Byte.
From Stdlib Require Import ZArith NArith List Sorted Lia Bool PeanoNat.
From Stdlib Require Import Floats Uint63.
From Stdlib Require Import Reals Lra.
Import ListNotations.

Set Warnings "-inexact-float".

(** ** Machine integers *)

Module Mach.

Definition u32 (z : Z) : Z := z mod 2 ^ 32.
Definition u64 (z : Z) : Z := z mod 2 ^ 64.

(** Conversion to a 32-bit [int] (two's complement). *)
Definition int32 (z : Z) : Z := (z + 2 ^ 31) mod 2 ^ 32 - 2 ^ 31.

(** Conversion of an [int] to [size_t] (64-bit). *)
Definition size_of_int (z : Z) : nat := Z.to_nat (u64 z).

Definition u32_of_size (n : nat) : Z := u32 (Z.of_nat n).

End Mach.
Import Mach.

(** ** Bytes *)

Definition newline : byte := x0a.

Definition is_newline (c : byte) : bool := Byte.eqb c newline.

Definition byte_of_Z (z : Z) : byte :=
  match Byte.of_N (Z.to_N (z mod 256)) with
  | Some b => b
  | None => x00
  end.

Definition Z_of_byte (b : byte) : Z := Z.of_N (Byte.to_N b).

(** Little-endian encoding of an integer on [n] bytes, and its decoding. *)
Fixpoint encode_le (n : nat) (z : Z) : list byte :=
  match n with
  | O => []
  | S n' => byte_of_Z z :: encode_le n' (z / 256)
  end.

Fixpoint decode_le (bs : list byte) : Z :=
  match bs with
  | [] => 0
  | b :: bs' => Z_of_byte b + 256 * decode_le bs'
  end%Z.

(** ** build.cpp: the builder's data *)

(** [struct Blob]: a window [offset, offset + count) on a shared vector. *)
Record Blob := mkBlob {
  offset : nat;
  count : nat;
  storage : list byte
}.

(** [Blob(std::vector<char> storage)] *)
Definition Blob_of_vector (v : list byte) : Blob :=
  {| offset := 0; count := length v; storage := v |}.

(** [Blob::data()], read on [Blob::size()] bytes. The source asserts
    [offset + count <= storage->size()], see [Blob_wf]. *)
Definition Blob_data (b : Blob) : list byte :=
  firstn (count b) (skipn (offset b) (storage b)).

Definition Blob_size (b : Blob) : nat := count b.

Definition Blob_wf (b : Blob) : Prop :=
  offset b + count b <= length (storage b).

(** [struct File] *)
Record File := mkFile {
  name : string;
  contents : Blob;
  startLine : Z;   (* uint32_t *)
  fileSize : Z;    (* uint64_t *)
  timeStamp : Z    (* uint64_t *)
}.

(** [struct Chunk] *)
Record Chunk := mkChunk {
  files : list File;
  totalSize : nat
}.

Definition Chunk_empty : Chunk := {| files := []; totalSize := 0 |}.

(** ** build.cpp: cutting on line boundaries *)

(** [skipByLines]. The result pair is built by [std::make_pair(0, 0)], a pair
    of [int]: both components are stored as [int] and converted to
    [size_t] and [unsigned int] on return. *)
Fixpoint skipByLines_loop (data : list byte) (i : nat) (result : Z * Z)
  : Z * Z :=
  match data with
  | [] => result
  | c :: rest =>
      skipByLines_loop rest (S i)
        (if is_newline c
         then (int32 (Z.of_nat (i + 1)), int32 (snd result + 1))
         else result)
  end.

Definition skipByLines (data : list byte) (dataSize : nat) : nat * Z :=
  let r := skipByLines_loop (firstn dataSize data) 0 (0%Z, 0%Z) in
  (size_of_int (fst r), u32 (snd r)).

(** [skipOneLine] *)
Fixpoint skipOneLine_loop (data : list byte) (i : nat) (dataSize : nat)
  : nat :=
  match data with
  | [] => dataSize
  | c :: rest => if is_newline c then i + 1 else skipOneLine_loop rest (S i) dataSize
  end.

Definition skipOneLine (data : list byte) (dataSize : nat) : nat :=
  skipOneLine_loop (firstn dataSize data) 0 dataSize.

(** [splitPrefix]: returns the prefix and the advanced file. The source
    asserts [size <= file.contents.size()]. *)
Definition splitPrefix (file : File) (size : nat) : File * File :=
  let c := contents file in
  ({| name := name file;
      contents := {| offset := offset c; count := size; storage := storage c |};
      startLine := startLine file;
      fileSize := fileSize file;
      timeStamp := timeStamp file |},
   {| name := name file;
      contents := {| offset := offset c + size;
                     count := count c - size;
                     storage := storage c |};
      startLine := startLine file;
      fileSize := fileSize file;
      timeStamp := timeStamp file |}).

(** [appendChunkFile] *)
Definition appendChunkFile (chunk : Chunk) (file : File) : Chunk :=
  {| files := files chunk ++ [file];
     totalSize := totalSize chunk + Blob_size (contents file) |}.

Definition File_addLines (file : File) (skipLines : Z) : File :=
  {| name := name file;
     contents := contents file;
     startLine := u32 (startLine file + skipLines);
     fileSize := fileSize file;
     timeStamp := timeStamp file |}.

(** [appendChunkFilePrefix]: returns the chunk and the file left over. The
    source asserts [remainingSize < dataSize]. *)
Definition appendChunkFilePrefix (chunk : Chunk) (file : File)
    (remainingSize : nat) : Chunk * File :=
  let data := Blob_data (contents file) in
  let dataSize := Blob_size (contents file) in
  let skip := skipByLines data remainingSize in
  if (0 <? fst skip) || (match files chunk with [] => true | _ => false end)
  then
    let skipSize := if 0 <? fst skip then fst skip else skipOneLine data dataSize in
    let skipLines := if 0 <? fst skip then snd skip else 1%Z in
    let (prefix, rest) := splitPrefix file skipSize in
    ({| files := files chunk ++ [prefix];
        totalSize := totalSize chunk + skipSize |},
     File_addLines rest skipLines)
  else (chunk, file).

(** The [while] loop of [flushChunk(size_t size)]: it pops one pending file
    per iteration, so it is structural in the pending list. *)
Fixpoint flushChunk_loop (size : nat) (chunk : Chunk) (pending : list File)
  : Chunk * list File :=
  match pending with
  | [] => (chunk, [])
  | file :: rest =>
      if totalSize chunk <? size then
        let remainingSize := size - totalSize chunk in
        if Blob_size (contents file) <=? remainingSize
        then flushChunk_loop size (appendChunkFile chunk file) rest
        else
          let (chunk', file') := appendChunkFilePrefix chunk file remainingSize in
          (chunk', file' :: rest)
      else (chunk, pending)
  end.

(** ** format.hpp: the pack's records *)

(** Modelled from the spec: format.hpp is not among the sources. The spec lists
    the fields of a file-table entry in this order; offsets, sizes and the
    line number are 32-bit like the chunk header's fields, [file_size] and
    [timestamp] are the 64-bit values of [struct File]. All integers are
    little-endian. *)
Record DataChunkFileHeader := mkFileHeader {
  h_nameOffset : Z;
  h_nameLength : Z;
  h_dataOffset : Z;
  h_dataSize : Z;
  h_startLine : Z;
  h_reserved : Z;
  h_fileSize : Z;
  h_timeStamp : Z
}.

Definition sizeof_DataChunkFileHeader : nat := 40.

Definition encode_DataChunkFileHeader (h : DataChunkFileHeader) : list byte :=
  encode_le 4 (h_nameOffset h) ++ encode_le 4 (h_nameLength h) ++
  encode_le 4 (h_dataOffset h) ++ encode_le 4 (h_dataSize h) ++
  encode_le 4 (h_startLine h) ++ encode_le 4 (h_reserved h) ++
  encode_le 8 (h_fileSize h) ++ encode_le 8 (h_timeStamp h).

(** Modelled from the spec: the chunk header of format.hpp, seven 32-bit
    fields in the spec's order. *)
Record DataChunkHeader := mkChunkHeader {
  fileCount : Z;
  uncompressedSize : Z;
  compressedSize : Z;
  indexSize : Z;
  indexHashIterations : Z;
  fileTableSize : Z;
  extraSize : Z
}.

Definition sizeof_DataChunkHeader : nat := 28.

Definition encode_DataChunkHeader (h : DataChunkHeader) : list byte :=
  encode_le 4 (fileCount h) ++ encode_le 4 (uncompressedSize h) ++
  encode_le 4 (compressedSize h) ++ encode_le 4 (indexSize h) ++
  encode_le 4 (indexHashIterations h) ++ encode_le 4 (fileTableSize h) ++
  encode_le 4 (extraSize h).

(** [DataChunkHeader header = {};] *)
Definition DataChunkHeader_zero : DataChunkHeader :=
  mkChunkHeader 0 0 0 0 0 0 0.

(** ** build.cpp: the chunk's payload *)

(** [std::copy(first, last, data.begin() + off)] into a buffer that is already
    sized; what would fall behind the buffer's end is dropped here (the
    source's offsets never lead there). *)
Definition copy_at (buf : list byte) (off : nat) (src : list byte) : list byte :=
  firstn off buf ++ firstn (length buf - off) src ++ skipn (off + length src) buf.

Definition list_sum_by {A} (f : A -> nat) (l : list A) : nat :=
  fold_left (fun acc x => acc + f x) l 0.

(** [getChunkNameTotalSize], [getChunkDataTotalSize] *)
Definition getChunkNameTotalSize (chunk : Chunk) : nat :=
  list_sum_by (fun f => String.length (name f)) (files chunk).

Definition getChunkDataTotalSize (chunk : Chunk) : nat :=
  list_sum_by (fun f => Blob_size (contents f)) (files chunk).

(** The entry stored for file [f] at the running offsets. *)
Definition fileHeader_of (f : File) (nameOffset dataOffset : nat)
  : DataChunkFileHeader :=
  {| h_nameOffset := u32_of_size nameOffset;
     h_nameLength := u32_of_size (String.length (name f));
     h_dataOffset := u32_of_size dataOffset;
     h_dataSize := u32_of_size (Blob_size (contents f));
     h_startLine := startLine f;
     h_reserved := 0;
     h_fileSize := fileSize f;
     h_timeStamp := timeStamp f |}.

(** The [for] loop of [prepareChunkData], on the files from index [i] on. *)
Fixpoint prepareChunkData_loop (fs : list File) (i nameOffset dataOffset : nat)
    (data : list byte) : list byte :=
  match fs with
  | [] => data
  | f :: rest =>
      let data := copy_at data nameOffset (list_byte_of_string (name f)) in
      let data := copy_at data dataOffset (Blob_data (contents f)) in
      let data := copy_at data (i * sizeof_DataChunkFileHeader)
                    (encode_DataChunkFileHeader (fileHeader_of f nameOffset dataOffset)) in
      prepareChunkData_loop rest (S i)
        (nameOffset + String.length (name f))
        (dataOffset + Blob_size (contents f)) data
  end.

Definition prepareChunkData (chunk : Chunk) : list byte :=
  let headerSize := sizeof_DataChunkFileHeader * length (files chunk) in
  let nameSize := getChunkNameTotalSize chunk in
  let dataSize := getChunkDataTotalSize chunk in
  let totalSize := headerSize + nameSize + dataSize in
  prepareChunkData_loop (files chunk) 0 headerSize (headerSize + nameSize)
    (repeat x00 totalSize).

(** ** build.cpp: the bloom index *)

(** [getChunkIndexSize] *)
Definition getChunkIndexSize (chunk : Chunk) : nat :=
  let dataSize := getChunkDataTotalSize chunk in
  let indexSize := dataSize / 50 in
  if indexSize <? 1024 then 0 else indexSize.

Definition double_of_u32 (z : Z) : float :=
  PrimFloat.of_uint63 (Uint63.of_Z z).

(** [static_cast<unsigned int>(k)] on a double: truncation toward zero. The
    conversion is undefined in C++ for a NaN, an infinity and a value outside
    the range of [unsigned int]; the callers' guards exclude those. *)
Definition uint_of_double (k : float) : Z :=
  match Prim2SF k with
  | S754_finite s m e =>
      let v := Z.shiftl (Z.pos m) e in u32 (if s then Z.opp v else v)
  | _ => 0%Z
  end.

(** The [double] that [getIndexHashIterations] computes for [n <> 0]. *)
Definition hash_k (m n : Z) : float :=
  (0.693147181 * double_of_u32 m / double_of_u32 n)%float.

(** [getIndexHashIterations], on binary64 numbers as the source computes. Both
    parameters are [unsigned int]: the arguments are converted at the call. *)
Definition getIndexHashIterations (indexSize itemCount : Z) : Z :=
  let m := u32 (u32 indexSize * 8) in
  let n := u32 itemCount in
  let k := if (n =? 0)%Z then 1%float else hash_k m n in
  if (k <? 1)%float then 1%Z
  else if (16 <? k)%float then 16%Z
  else uint_of_double k.

(** The ngrams of one file: every window of four bytes that holds no
    newline, for [j] from 3 up. *)
Section Ngrams.

Variable ngram : byte -> byte -> byte -> byte -> Z.

Fixpoint file_ngrams (data : list byte) : list Z :=
  match data with
  | a :: (b :: c :: d :: _) as rest =>
      (if negb (is_newline a) && negb (is_newline b) &&
          negb (is_newline c) && negb (is_newline d)
       then [ngram a b c d] else []) ++ file_ngrams rest
  | _ => []
  end.

(** [ngrams.insert(v)] on the [std::unordered_set<unsigned int>], kept as a
    list without repetition in the order of first insertion. *)
Definition ngrams_insert (set : list Z) (v : Z) : list Z :=
  if existsb (Z.eqb v) set then set else set ++ [v].

(** The set after the two nested loops of [prepareChunkIndex]. *)
Definition chunk_ngrams (chunk : Chunk) : list Z :=
  fold_left
    (fun set f => fold_left ngrams_insert (file_ngrams (Blob_data (contents f))) set)
    (files chunk) [].

End Ngrams.

(** ** build.cpp: [class Builder::BuilderImpl] *)

(** [struct Statistics] *)
Record Statistics := mkStatistics {
  stat_fileCount : nat;
  stat_fileSize : Z;      (* uint64_t *)
  stat_resultSize : Z     (* uint64_t *)
}.

(** What one call of [writeChunk] hands to [outData], in the order of its
    three writes. *)
Record WrittenChunk := mkWritten {
  w_header : DataChunkHeader;
  w_index : list byte;
  w_cdata : list byte
}.

Record BuilderImpl := mkBuilder {
  pendingFiles : list File;
  pendingSize : nat;
  outData : list WrittenChunk;
  statistics : Statistics
}.

(** [BuilderImpl()] followed by [start], which writes the file header. *)
Definition BuilderImpl_new : BuilderImpl :=
  {| pendingFiles := []; pendingSize := 0; outData := [];
     statistics := mkStatistics 0 0 0 |}.

(** Setting bit [p] of a buffer; a position behind the buffer is left out. *)
Definition set_bit (buf : list byte) (p : nat) : list byte :=
  match nth_error buf (p / 8) with
  | Some b =>
      firstn (p / 8) buf ++
      [byte_of_Z (Z.lor (Z_of_byte b) (2 ^ Z.of_nat (p mod 8)))] ++
      skipn (S (p / 8)) buf
  | None => buf
  end.

Section Builder.

(** constants.hpp: the target chunk size. *)
Variable kChunkSize : nat.

(** lz4hc.h: [LZ4_compressHC], as the block it returns. *)
Variable LZ4_compressHC : list byte -> list byte.

(** bloom.hpp: the key of a window of four bytes. *)
Variable ngram : byte -> byte -> byte -> byte -> Z.

(** Modelled from the spec: bloom.hpp is not among the sources. The spec says
    that [bloomFilterUpdate] derives [iterations] bit positions from the value
    and sets each bit; the positions are this parameter. *)
Variable bloomFilterBits : nat -> Z -> Z -> list nat.

Definition bloomFilterUpdate (data : list byte) (size : nat)
    (value iterations : Z) : list byte :=
  fold_left set_bit (bloomFilterBits size value iterations) data.

(** [compressData] *)
Definition compressData (data : list byte) : list byte := LZ4_compressHC data.

(** [prepareChunkIndex] *)
Definition prepareChunkIndex (chunk : Chunk) : list byte * Z :=
  let indexSize := getChunkIndexSize chunk in
  if indexSize =? 0 then ([], 0%Z)
  else
    let ngrams := chunk_ngrams ngram chunk in
    let iterations :=
      getIndexHashIterations (u32_of_size indexSize) (u32_of_size (length ngrams)) in
    let result :=
      fold_left (fun data n => bloomFilterUpdate data indexSize n iterations)
        ngrams (repeat x00 indexSize) in
    (result, iterations).

(** The header [writeChunk] fills in: five fields are assigned, the others
    keep the zero of [header = {}]. *)
Definition writeChunk_header (chunk : Chunk) (index : list byte * Z)
    (data cdata : list byte) : DataChunkHeader :=
  {| fileCount := u32_of_size (length (files chunk));
     uncompressedSize := u32_of_size (length data);
     compressedSize := u32_of_size (length cdata);
     indexSize := u32_of_size (length (fst index));
     indexHashIterations := snd index;
     fileTableSize := fileTableSize DataChunkHeader_zero;
     extraSize := extraSize DataChunkHeader_zero |}.

Definition count_startLine0 (fs : list File) : nat :=
  length (filter (fun f => (startLine f =? 0)%Z) fs).

(** [writeChunk] *)
Definition writeChunk (chunk : Chunk) (index : list byte * Z)
    (data : list byte) (b : BuilderImpl) : BuilderImpl :=
  let cdata := compressData data in
  let header := writeChunk_header chunk index data cdata in
  {| pendingFiles := pendingFiles b;
     pendingSize := pendingSize b;
     outData := outData b ++ [mkWritten header (fst index) cdata];
     statistics :=
       {| stat_fileCount :=
            stat_fileCount (statistics b) + count_startLine0 (files chunk);
          stat_fileSize := u64 (stat_fileSize (statistics b) + Z.of_nat (length data));
          stat_resultSize :=
            u64 (stat_resultSize (statistics b) + Z.of_nat (length cdata)) |} |}.

(** The record written for a chunk. *)
Definition emit (chunk : Chunk) : WrittenChunk :=
  let data := prepareChunkData chunk in
  let index := prepareChunkIndex chunk in
  mkWritten (writeChunk_header chunk index data (compressData data))
    (fst index) (compressData data).

(** [flushChunk(const Chunk&)] *)
Definition flushChunk_write (chunk : Chunk) (b : BuilderImpl) : BuilderImpl :=
  match files chunk with
  | [] => b
  | _ =>
      let data := prepareChunkData chunk in
      let index := prepareChunkIndex chunk in
      writeChunk chunk index data b
  end.

(** [flushChunk(size_t size)]. The source asserts
    [chunk.totalSize <= pendingSize] before the subtraction. *)
Definition flushChunk (size : nat) (b : BuilderImpl) : BuilderImpl :=
  let (chunk, pending) := flushChunk_loop size Chunk_empty (pendingFiles b) in
  flushChunk_write chunk
    {| pendingFiles := pending;
       pendingSize := pendingSize b - totalSize chunk;
       outData := outData b;
       statistics := statistics b |}.

(** [flushIfNeeded]: [while (pendingSize >= kChunkSize * 2)]. *)
Fixpoint flushIfNeeded (fuel : nat) (b : BuilderImpl) : option BuilderImpl :=
  if kChunkSize * 2 <=? pendingSize b then
    match fuel with
    | O => None
    | S fuel' => flushIfNeeded fuel' (flushChunk kChunkSize b)
    end
  else Some b.

(** [flush]: [while (pendingSize > 0)]. *)
Fixpoint flush (fuel : nat) (b : BuilderImpl) : option BuilderImpl :=
  if 0 <? pendingSize b then
    match fuel with
    | O => None
    | S fuel' => flush fuel' (flushChunk kChunkSize b)
    end
  else Some b.

(** [appendFilePart] *)
Definition appendFilePart (fuel : nat) (path : string) (startLine : Z)
    (data : list byte) (lastWriteTime fileSize : Z) (b : BuilderImpl)
  : option BuilderImpl :=
  let file :=
    {| name := path;
       contents := Blob_of_vector data;
       startLine := u32 startLine;
       fileSize := u64 fileSize;
       timeStamp := u64 lastWriteTime |} in
  flushIfNeeded fuel
    {| pendingFiles := pendingFiles b ++ [file];
       pendingSize := pendingSize b + length data;
       outData := outData b;
       statistics := statistics b |}.

(** [appendFile]. The file system and the conversion to UTF-8 are outside
    the sources: [readFileUTF8 path] gives the modification time, the size on
    disk and the converted contents, or [None] where the source returns
    [false]. *)
Variable readFileUTF8 : string -> option (Z * Z * list byte).

Definition appendFile (fuel : nat) (path : string) (b : BuilderImpl)
  : option (BuilderImpl * bool) :=
  match readFileUTF8 path with
  | None => Some (b, false)
  | Some (lastWriteTime, fileSize, contents) =>
      match appendFilePart fuel path 0 contents lastWriteTime fileSize b with
      | Some b' => Some (b', true)
      | None => None
      end
  end.

End Builder.

(** The bytes of the pack file: the header's magic, then for each chunk the
    header, the index and the compressed payload. *)
Definition encode_WrittenChunk (w : WrittenChunk) : list byte :=
  encode_DataChunkHeader (w_header w) ++ w_index w ++ w_cdata w.

Definition pack_bytes (magic : list byte) (b : BuilderImpl) : list byte :=
  magic ++ flat_map encode_WrittenChunk (outData b).

(** ** watch.cpp: scanning a pack *)

(** [struct FileInfo] (project.hpp), in the order [processChunk] fills it. *)
Record FileInfo := mkFileInfo {
  fi_path : string;
  fi_timeStamp : Z;
  fi_fileSize : Z
}.

(** Memory that a read may find undetermined: [None] is a byte that nothing
    has written. *)
Definition Memory := list (option byte).

Fixpoint all_some {A} (l : list (option A)) : option (list A) :=
  match l with
  | [] => Some []
  | Some x :: r =>
      match all_some r with Some xs => Some (x :: xs) | None => None end
  | None :: _ => None
  end.

(** Reading [n] bytes at [off]: [None] when one of them is behind the
    buffer's end or undetermined. *)
Definition read_bytes (mem : Memory) (off n : nat) : option (list byte) :=
  let cells := firstn n (skipn off mem) in
  if length cells =? n then all_some cells else None.

Definition read_int (mem : Memory) (off n : nat) : option Z :=
  option_map decode_le (read_bytes mem off n).

(** The entry [files[i]] of the table at the start of [data]. *)
Definition read_DataChunkFileHeader (data : Memory) (i : nat)
  : option DataChunkFileHeader :=
  let base := i * sizeof_DataChunkFileHeader in
  match read_int data base 4, read_int data (base + 4) 4,
        read_int data (base + 8) 4, read_int data (base + 12) 4,
        read_int data (base + 16) 4, read_int data (base + 20) 4,
        read_int data (base + 24) 8, read_int data (base + 32) 8 with
  | Some a, Some b, Some c, Some d, Some e, Some f, Some g, Some h =>
      Some (mkFileHeader a b c d e f g h)
  | _, _, _, _, _, _, _, _ => None
  end.

(** [processChunk], on the entries from index [i] on; [None] when it reads
    a byte that is not determined. *)
Fixpoint processChunk_loop (n i : nat) (data : Memory) (result : list FileInfo)
  : option (list FileInfo) :=
  match n with
  | O => Some result
  | S n' =>
      match read_DataChunkFileHeader data i with
      | None => None
      | Some file =>
          if (h_startLine file =? 0)%Z then
            match read_bytes data (Z.to_nat (h_nameOffset file))
                    (Z.to_nat (h_nameLength file)) with
            | None => None
            | Some nm =>
                processChunk_loop n' (S i) data
                  (result ++ [mkFileInfo (string_of_list_byte nm)
                                (h_timeStamp file) (h_fileSize file)])
            end
          else processChunk_loop n' (S i) data result
      end
  end.

Definition processChunk (result : list FileInfo) (data : Memory)
    (fileCount : nat) : option (list FileInfo) :=
  processChunk_loop fileCount 0 data result.

(** What [getDataFileList] comes to. *)
Inductive ScanResult :=
| Scan_ok (result : list FileInfo)     (* returns [true] *)
| Scan_error                           (* reports an error, returns [false] *)
| Scan_undetermined.                   (* has read bytes nothing determines *)

Definition decode_DataChunkHeader (bs : list byte) : DataChunkHeader :=
  let field i := decode_le (firstn 4 (skipn (4 * i) bs)) in
  mkChunkHeader (field 0) (field 1) (field 2) (field 3) (field 4) (field 5)
    (field 6).

Section Reader.

(** format.hpp: [kDataFileHeaderMagic], which is also what
    [BuilderImpl::start] writes. *)
Variable kDataFileHeaderMagic : list byte.

(** lz4.h: the decoder, as the payload a compressed block stands for. *)
Variable LZ4_decompress : list byte -> list byte.

(** Modelled from the spec: compression.hpp is not among the sources. The
    spec has [decompress_partial(out, out_cap, in, in_size, needed_prefix)]
    decompress only the first [needed_prefix] bytes of the payload; the rest
    of the destination stays as the allocation left it. *)
Definition decompressPartial (destSize : nat) (source : list byte)
    (targetSize : nat) : Memory :=
  let out := firstn (Nat.min targetSize destSize) (LZ4_decompress source) in
  map Some out ++ repeat None (destSize - length out).

(** The [while (read(in, chunk))] loop of [getDataFileList]; every round
    consumes a chunk header, so the length of the input bounds the rounds. *)
Fixpoint getDataFileList_loop (fuel : nat) (input : list byte)
    (result : list FileInfo) : ScanResult :=
  match fuel with
  | O => Scan_ok result
  | S fuel' =>
      if length input <? sizeof_DataChunkHeader then Scan_ok result
      else
        let chunk := decode_DataChunkHeader (firstn sizeof_DataChunkHeader input) in
        let input := skipn sizeof_DataChunkHeader input in
        let input := skipn (Z.to_nat (extraSize chunk)) input in
        let input := skipn (Z.to_nat (indexSize chunk)) input in
        let csize := Z.to_nat (compressedSize chunk) in
        if length input <? csize then Scan_error
        else
          let data := firstn csize input in
          let uncompressed :=
            decompressPartial (Z.to_nat (uncompressedSize chunk)) data
              (Z.to_nat (fileTableSize chunk)) in
          match processChunk result uncompressed (Z.to_nat (fileCount chunk)) with
          | None => Scan_undetermined
          | Some result' => getDataFileList_loop fuel' (skipn csize input) result'
          end
  end.

(** [getDataFileList], on the bytes of the file at [path]; [None] stands for
    a file that cannot be opened. *)
Definition getDataFileList (file : option (list byte)) : ScanResult :=
  match file with
  | None => Scan_error
  | Some input =>
      let n := length kDataFileHeaderMagic in
      if (length input <? n) then Scan_error
      else if negb (if list_eq_dec Byte.byte_eq_dec (firstn n input) kDataFileHeaderMagic
                    then true else false)
      then Scan_error
      else getDataFileList_loop (length input) (skipn n input) []
  end.

End Reader.

(** ** watch.cpp: the startup diff *)

(** The first [while] of [getChanges]'s loop body; [fuel] bounds the rounds,
    [length files] is enough since every round advances [fileIt]. *)
Fixpoint getChanges_skip (fuel : nat) (files : list FileInfo) (fileIt : nat)
    (pf : FileInfo) (result : list string) : nat * list string :=
  match fuel with
  | O => (fileIt, result)
  | S fuel' =>
      match nth_error files fileIt with
      | Some f =>
          if String.ltb (fi_path f) (fi_path pf)
          then getChanges_skip fuel' files (S fileIt) pf (result ++ [fi_path f])
          else (fileIt, result)
      | None => (fileIt, result)
      end
  end.

(** The [for] loop over [packFiles] and the closing [while]. [None]: the
    source has read [files[fileIt]] with [fileIt == files.size()]. *)
Fixpoint getChanges_loop (files packFiles : list FileInfo) (fileIt : nat)
    (result : list string) : option (list string) :=
  match packFiles with
  | [] => Some (result ++ map fi_path (skipn fileIt files))
  | pf :: rest =>
      let (fileIt, result) :=
        getChanges_skip (length files) files fileIt pf result in
      match nth_error files fileIt with
      | None => None
      | Some f =>
          if String.eqb (fi_path f) (fi_path pf) then
            let result :=
              if negb (fi_timeStamp f =? fi_timeStamp pf)%Z ||
                 negb (fi_fileSize f =? fi_fileSize pf)%Z
              then result ++ [fi_path f] else result in
            getChanges_loop files rest (S fileIt) result
          else getChanges_loop files rest fileIt result
      end
  end.

Definition getChanges (files packFiles : list FileInfo) : option (list string) :=
  getChanges_loop files packFiles 0 [].


(** ** The builder's public calls in sequence *)

Inductive BuilderOp :=
| Op_appendFile (path : string)
| Op_appendFilePart (path : string) (startLine : Z) (data : list byte)
    (lastWriteTime fileSize : Z)
| Op_flush.

Section Run.

Variable kChunkSize : nat.
Variable LZ4_compressHC : list byte -> list byte.
Variable ngram : byte -> byte -> byte -> byte -> Z.
Variable bloomFilterBits : nat -> Z -> Z -> list nat.
Variable readFileUTF8 : string -> option (Z * Z * list byte).

Definition run_op (fuel : nat) (op : BuilderOp) (b : BuilderImpl)
  : option BuilderImpl :=
  match op with
  | Op_appendFile path =>
      option_map fst
        (appendFile kChunkSize LZ4_compressHC ngram bloomFilterBits
           readFileUTF8 fuel path b)
  | Op_appendFilePart path startLine data lastWriteTime fileSize =>
      appendFilePart kChunkSize LZ4_compressHC ngram bloomFilterBits fuel
        path startLine data lastWriteTime fileSize b
  | Op_flush => flush kChunkSize LZ4_compressHC ngram bloomFilterBits fuel b
  end.

(** Each call gets [fuel] rounds for its loop. *)
Fixpoint run (fuel : nat) (ops : list BuilderOp) (b : BuilderImpl)
  : option BuilderImpl :=
  match ops with
  | [] => Some b
  | op :: rest =>
      match run_op fuel op b with
      | Some b' => run fuel rest b'
      | None => None
      end
  end.

End Run.

(** ** build.cpp: reading a file *)






(** ** build.cpp: [class Builder] *)

(** What [Builder] hands to its [Output]. *)
Inductive OutputLine :=
| Progress_line (percent fileCount mb_in mb_out : Z)
    (* print("\r[%3d%%] %d files, %d Mb in, %d Mb out\r", ...) *)
| Error_reading (path : string).
    (* error("Error reading file %s\n", path) *)

(** [class Builder]: the implementation, the lines sent to [output], the
    [unsigned int fileCount] and [lastResultSize]. build.hpp is not among the
    sources; [lastResultSize] is taken as a [uint64_t], like the statistic it
    is a copy of. *)
Record Builder := mkBuilderClass {
  builder_impl : BuilderImpl;
  builder_output : list OutputLine;
  builder_fileCount : Z;
  builder_lastResultSize : Z
}.

(** [Builder::printStatistics]. The percentage is computed on [size_t] and
    stored in an [int]; the arguments of [%d] are [int]s. *)
Definition Builder_printStatistics (b : Builder) : Builder :=
  let s := statistics (builder_impl b) in
  if (builder_fileCount b =? 0)%Z ||
     (builder_lastResultSize b =? stat_resultSize s)%Z
  then b
  else
    let percent :=
      int32 (u64 (Z.of_nat (stat_fileCount s) * 100) / builder_fileCount b) in
    {| builder_impl := builder_impl b;
       builder_output :=
         builder_output b ++
         [Progress_line percent (int32 (Z.of_nat (stat_fileCount s)))
            (int32 (stat_fileSize s / 1024 / 1024))
            (int32 (stat_resultSize s / 1024 / 1024))];
       builder_fileCount := builder_fileCount b;
       builder_lastResultSize := stat_resultSize s |}.

Section BuilderClass.

Variable kChunkSize : nat.
Variable LZ4_compressHC : list byte -> list byte.
Variable ngram : byte -> byte -> byte -> byte -> Z.
Variable bloomFilterBits : nat -> Z -> Z -> list nat.
Variable readFileUTF8 : string -> option (Z * Z * list byte).



(** [Builder::appendFilePart] *)
Definition Builder_appendFilePart (fuel : nat) (path : string) (startLine : Z)
    (data : list byte) (lastWriteTime fileSize : Z) (b : Builder)
  : option Builder :=
  match appendFilePart kChunkSize LZ4_compressHC ngram bloomFilterBits fuel
          path startLine data lastWriteTime fileSize (builder_impl b) with
  | None => None
  | Some impl =>
      Some (Builder_printStatistics
              {| builder_impl := impl;
                 builder_output := builder_output b;
                 builder_fileCount := builder_fileCount b;
                 builder_lastResultSize := builder_lastResultSize b |})
  end.




End BuilderClass.

(** ** watch.cpp: the status line *)

Module Watch.

(** [printStatistics] of watch.cpp, as the arguments of its
    [output->print("%d files changed; last: %-40s\r", ...)]. *)
Definition printStatistics (fileCount : nat) (last : string) : Z * string :=
  let last :=
    if 40 <? String.length last
    then
      (* last.replace(0, last.size() - 37, "...") *)
      let n := String.length last - 37 in
      String.append "..." (substring n (String.length last - n) last)
    else last in
  (int32 (Z.of_nat fileCount), last).

(** The bytes that the loop of [writeChanges] writes to the temporary file:
    every path followed by a newline. *)
Definition writeChanges_contents (files : list string) : list byte :=
  flat_map (fun f => list_byte_of_string f ++ [newline]) files.

End Watch.
(** * Specification vocabulary *)

(** ** Lines *)

Definition count_newlines (l : list byte) : nat :=
  length (filter is_newline l).

(** The length of the longest prefix that ends in a newline. *)
Fixpoint lineEnd (l : list byte) : nat :=
  match l with
  | [] => 0
  | c :: r =>
      match lineEnd r with
      | O => if is_newline c then 1 else 0
      | S k => S (S k)
      end
  end.


(** ** Chunks *)

Definition File_wf (f : File) : Prop := Blob_wf (contents f).

Definition sizes (fs : list File) : nat :=
  list_sum_by (fun f => Blob_size (contents f)) fs.

(** The length of the first line of a fragment, its newline included. *)
Definition firstLine (f : File) : nat :=
  skipOneLine (Blob_data (contents f)) (Blob_size (contents f)).

(** The chunk's byte total is the sum of its fragments' sizes. *)
Definition ChunkInv (c : Chunk) : Prop :=
  totalSize c = sizes (files c) /\ Forall File_wf (files c).

(** The budget: within [size], or one fragment whose first line is longer. *)
Definition BoundOK (size : nat) (c : Chunk) : Prop :=
  totalSize c <= size \/ exists f, files c = [f] /\ size < firstLine f.


(** ** Builder states *)

(** The class invariant of [BuilderImpl]: [pendingSize] is the byte count of
    the pending queue, and every pending blob lies within its storage. *)
Definition BuilderInv (b : BuilderImpl) : Prop :=
  pendingSize b = sizes (pendingFiles b) /\ Forall File_wf (pendingFiles b).

(** A chunk the cut may hand to [flushChunk(const Chunk&)]. *)
Definition ChunkOK (size : nat) (c : Chunk) : Prop :=
  files c <> [] /\ ChunkInv c /\ BoundOK size c.

(** What [flushChunk(const Chunk&)] appends to the output. *)
Definition written_for (LZ4_compressHC : list byte -> list byte)
    (ngram : byte -> byte -> byte -> byte -> Z)
    (bloomFilterBits : nat -> Z -> Z -> list nat) (c : Chunk)
  : list WrittenChunk :=
  match files c with
  | [] => []
  | _ => [emit LZ4_compressHC ngram bloomFilterBits c]
  end.

Section BuilderVocabulary.

Variable kChunkSize : nat.
Variable LZ4_compressHC : list byte -> list byte.
Variable ngram : byte -> byte -> byte -> byte -> Z.
Variable bloomFilterBits : nat -> Z -> Z -> list nat.

Local Abbreviation emit' := (emit LZ4_compressHC ngram bloomFilterBits).

(** From [b0] to [b] the builder has written the records of admissible
    chunks, and their bytes are those that left the pending queue. *)
Definition Emitted (b0 b : BuilderImpl) : Prop :=
  exists cs : list Chunk,
    outData b = outData b0 ++ map emit' cs /\
    Forall (ChunkOK kChunkSize) cs /\
    pendingSize b + list_sum (map getChunkDataTotalSize cs) = pendingSize b0.

(** Everything written so far is the record of an admissible chunk. *)
Definition OutOK (b : BuilderImpl) : Prop :=
  exists cs : list Chunk,
    outData b = map emit' cs /\ Forall (ChunkOK kChunkSize) cs.

End BuilderVocabulary.

(** The rounds a loop needs: every cut takes bytes or drops a pending file. *)
Definition rounds (b : BuilderImpl) : nat :=
  pendingSize b + length (pendingFiles b).

(** The state [appendFilePart] hands to [flushIfNeeded]. *)
Definition enqueue (path : string) (startLine : Z) (data : list byte)
    (lastWriteTime fileSize : Z) (b : BuilderImpl) : BuilderImpl :=
  {| pendingFiles :=
       pendingFiles b ++
       [{| name := path; contents := Blob_of_vector data;
           startLine := u32 startLine; fileSize := u64 fileSize;
           timeStamp := u64 lastWriteTime |}];
     pendingSize := pendingSize b + length data;
     outData := outData b;
     statistics := statistics b |}.


(** ** Binary64 *)

(** A number that is not a NaN and, unless it is a zero, has sign [s]. *)
Definition SF_signed (s : bool) (x : spec_float) : Prop :=
  match x with
  | S754_nan => False
  | S754_zero _ => True
  | S754_infinity s' => s' = s
  | S754_finite s' _ _ => s' = s
  end.

(** Truncation toward zero of a binary64 number, an infinity counting as a
    magnitude beyond every integer type. *)
Definition SF_trunc (x : spec_float) : Z :=
  match x with
  | S754_finite s m e =>
      let v := Z.shiftl (Z.pos m) e in if s then (- v)%Z else v
  | S754_infinity s => if s then (- 2 ^ 64)%Z else (2 ^ 64)%Z
  | _ => 0%Z
  end.


(** The hash count in the specification's words: round(ln 2 * m / n) with
    [m = index_size * 8], clamped to [1, 16], and 1 for [n = 0]. *)
Definition Rround (x : R) : Z := Int_part (x + / 2).

Definition spec_hash_count (indexSize itemCount : Z) : Z :=
  if (itemCount =? 0)%Z then 1%Z
  else Z.max 1 (Z.min 16
         (Rround (ln 2 * IZR (indexSize * 8) / IZR itemCount))).


(** ** Sample instances of what the sources leave open

    The codec, the ngram key, the bloom positions, the file system and the
    magic are parameters of the embedding; these instances make it run. *)

(** A codec that stores the payload as it is. *)
Definition LZ4_stored (data : list byte) : list byte := data.

(** The four bytes of a window concatenated, as the specification words it. *)
Definition ngram_concat (a b c d : byte) : Z := decode_le [d; c; b; a].

(** One position per value. *)
Definition bloom_bits_sample (size : nat) (value iterations : Z) : list nat :=
  [Z.to_nat (value mod Z.of_nat (8 * size))].

Definition no_files (path : string) : option (Z * Z * list byte) := None.

Definition magic_sample : list byte := list_byte_of_string "QGD0".

(** A builder with chunks of [k] bytes on the sample instances. *)
Definition run_sample (k fuel : nat) (ops : list BuilderOp)
  : option BuilderImpl :=
  run k LZ4_stored ngram_concat bloom_bits_sample no_files fuel ops
    BuilderImpl_new.

Definition emit_sample : Chunk -> WrittenChunk :=
  emit LZ4_stored ngram_concat bloom_bits_sample.

(** ** The claims in the specification's words *)

(** The prefix of a chunk's payload that holds the file table and the names. *)
Definition fileTable_prefix (c : Chunk) : nat :=
  sizeof_DataChunkFileHeader * length (files c) + getChunkNameTotalSize c.

(** A chunk's budget measured on the payload, as the specification words it. *)
Definition budget_as_stated (size : nat) (c : Chunk) : Prop :=
  length (prepareChunkData c) <= size \/
  exists f, files c = [f] /\ size < firstLine f.

(** The budget on the bodies: at least one entry, and the bytes of the bodies
    within [size] unless the chunk is one fragment whose first line is longer. *)
Definition WithinBudget (size : nat) (c : Chunk) : Prop :=
  files c <> [] /\
  (getChunkDataTotalSize c <= size \/
   exists f, files c = [f] /\ size < firstLine f).

(** Bloom sizing measured on the header's uncompressed size, as the
    specification words it (without its approximate equality). *)
Definition bloom_sizing_as_stated (w : WrittenChunk) : Prop :=
  let u := uncompressedSize (w_header w) in
  ((u / 50 < 1024)%Z -> indexSize (w_header w) = 0%Z) /\
  ((1024 <= u / 50)%Z ->
   (1 <= indexHashIterations (w_header w) <= 16)%Z).

(** The triples a scan of the pack must report, from the chunks' entries. *)
Definition FileInfo_of (f : File) : FileInfo :=
  mkFileInfo (name f) (timeStamp f) (fileSize f).

(** ** The startup diff, as a set difference *)

Definition path_lt (a b : string) : Prop := String.ltb a b = true.

Definition same_entry (f pf : FileInfo) : bool :=
  String.eqb (fi_path f) (fi_path pf) &&
  (fi_timeStamp f =? fi_timeStamp pf)%Z && (fi_fileSize f =? fi_fileSize pf)%Z.

Definition in_pack (pack : list FileInfo) (f : FileInfo) : bool :=
  existsb (same_entry f) pack.

(** The paths of the current files that the pack does not hold with the same
    time stamp and size, in the order of the current list. *)
Definition startup_diff (files packFiles : list FileInfo) : list string :=
  map fi_path (filter (fun f => negb (in_pack packFiles f)) files).

Definition sorted_by_path (l : list FileInfo) : Prop :=
  StronglySorted (fun a b => path_lt (fi_path a) (fi_path b)) l.

(** The files before path [p], and the others. *)
Fixpoint lower (p : string) (rest : list FileInfo) : list FileInfo :=
  match rest with
  | f :: r => if String.ltb (fi_path f) p then f :: lower p r else []
  | [] => []
  end.

Fixpoint upper (p : string) (rest : list FileInfo) : list FileInfo :=
  match rest with
  | f :: r => if String.ltb (fi_path f) p then upper p r else rest
  | [] => []
  end.

Open Scope string_scope.

(** ** Sample inputs *)

Definition bytes_of (s : string) : list byte := list_byte_of_string s.

(** One file [a.txt] holding [hello] and a newline, then [flush]. *)
Definition sample_ops : list BuilderOp :=
  [Op_appendFilePart "a.txt" 0 (bytes_of "hello" ++ [newline]) 7 6; Op_flush].

Definition sample_chunk : Chunk :=
  {| files :=
       [{| name := "a.txt";
           contents := Blob_of_vector (bytes_of "hello" ++ [newline]);
           startLine := 0; fileSize := 6; timeStamp := 7 |}];
     totalSize := 6 |}.

(** A file of 9 bytes without a newline, then a file of one line. *)
Definition fileA : File :=
  {| name := "A"; contents := Blob_of_vector (bytes_of "abcdefghi");
     startLine := 0; fileSize := 9; timeStamp := 1 |}.

Definition fileB : File :=
  {| name := "B"; contents := Blob_of_vector (bytes_of "x" ++ [newline]);
     startLine := 0; fileSize := 2; timeStamp := 2 |}.

Definition fileA_rest : File :=
  {| name := "A";
     contents := {| offset := 9; count := 0; storage := bytes_of "abcdefghi" |};
     startLine := 1; fileSize := 9; timeStamp := 1 |}.

Definition chunkA : Chunk := {| files := [fileA]; totalSize := 9 |}.

Definition chunkB : Chunk := {| files := [fileA_rest; fileB]; totalSize := 2 |}.

Definition sample_ops_AB : list BuilderOp :=
  [Op_appendFilePart "A" 0 (bytes_of "abcdefghi") 1 9;
   Op_appendFilePart "B" 0 (bytes_of "x" ++ [newline]) 2 2;
   Op_flush].

(** A pending queue that [flush] has to drain. *)
Definition sample_state : BuilderImpl :=
  {| pendingFiles := [fileA; fileB]; pendingSize := 11; outData := [];
     statistics := mkStatistics 0 0 0 |}.

(** A file of 16 lines of 64 bytes, for chunks of 1024 bytes. *)
Definition line64 : list byte := repeat x78 63 ++ [newline].

Definition body_1k : list byte := concat (repeat line64 16).

Definition sample_ops_1k : list BuilderOp :=
  [Op_appendFilePart "a.txt" 0 body_1k 7 1024; Op_flush].

Definition chunk_1k : Chunk :=
  {| files :=
       [{| name := "a.txt"; contents := Blob_of_vector body_1k;
           startLine := 0; fileSize := 1024; timeStamp := 7 |}];
     totalSize := 1024 |}.

Definition kChunkSize_64k : nat := Z.to_nat 65536.

(** A file of one line of 51199 bytes, for chunks of 65536 bytes. *)
Definition body_51199 : list byte := repeat x78 (Z.to_nat 51198) ++ [newline].

Definition sample_ops_51199 : list BuilderOp :=
  [Op_appendFilePart "a.txt" 0 body_51199 7 51199; Op_flush].

Definition chunk_51199 : Chunk :=
  {| files :=
       [{| name := "a.txt"; contents := Blob_of_vector body_51199;
           startLine := 0; fileSize := 51199%Z; timeStamp := 7 |}];
     totalSize := Z.to_nat 51199 |}.

(** A file of 51200 bytes with 3150 distinct ngrams: 3150 lines of four
    bytes that differ in the first two, then empty lines. *)
Definition line_of (i : nat) : list byte :=
  [byte_of_Z (32 + Z.of_nat (i / 200)); byte_of_Z (32 + Z.of_nat (i mod 200));
   x79; x7a; newline].

Definition body_3150 : list byte :=
  flat_map line_of (seq 0 3150) ++ repeat newline (Z.to_nat 35450).

Definition chunk_3150 : Chunk :=
  {| files :=
       [{| name := "a.txt"; contents := Blob_of_vector body_3150;
           startLine := 0; fileSize := 51200%Z; timeStamp := 7 |}];
     totalSize := Z.to_nat 51200 |}.

Definition sample_ops_3150 : list BuilderOp :=
  [Op_appendFilePart "a.txt" 0 body_3150 7 51200; Op_flush].

Close Scope string_scope.

(** ** The builder's input and output as streams *)

(** The position of the first newline of [l]. *)
Fixpoint first_newline (l : list byte) : option nat :=
  match l with
  | [] => None
  | c :: r => if is_newline c then Some 0 else option_map S (first_newline r)
  end.


(** The bytes of [data] with their line numbers (modulo 2^32), the first byte
    being on line [line]: a newline ends its line. *)
Fixpoint numbered (line : Z) (data : list byte) : list (Z * byte) :=
  match data with
  | [] => []
  | c :: rest =>
      (u32 line, c) :: numbered (if is_newline c then line + 1 else line)%Z rest
  end.

(** Every body byte of a list of fragments, in order, with the name, the time
    stamp and the size of the file its fragment belongs to, and with its line
    number as the fragment's start line gives it. *)
Definition tagged (fs : list File) : list (string * Z * Z * Z * byte) :=
  flat_map
    (fun f =>
       map (fun p => (name f, timeStamp f, fileSize f, fst p, snd p))
         (numbered (startLine f) (Blob_data (contents f))))
    fs.

(** The fields of a [File] are within their types. *)
Definition File_fields (f : File) : Prop :=
  (0 <= startLine f < 2 ^ 32)%Z /\ (0 <= fileSize f < 2 ^ 64)%Z /\
  (0 <= timeStamp f < 2 ^ 64)%Z.

(** The [File] that [appendFilePart] puts on the pending queue. *)
Definition File_of_part (path : string) (startLine : Z) (data : list byte)
    (lastWriteTime fileSize : Z) : File :=
  {| name := path; contents := Blob_of_vector data;
     startLine := u32 startLine; fileSize := u64 fileSize;
     timeStamp := u64 lastWriteTime |}.

(** The files a sequence of calls hands to the builder; a file that
    [appendFile] cannot read is none. *)
Definition appended (readFileUTF8 : string -> option (Z * Z * list byte))
    (ops : list BuilderOp) : list File :=
  flat_map
    (fun op =>
       match op with
       | Op_appendFile path =>
           match readFileUTF8 path with
           | Some (lastWriteTime, fileSize, data) =>
               [File_of_part path 0 data lastWriteTime fileSize]
           | None => []
           end
       | Op_appendFilePart path startLine data lastWriteTime fileSize =>
           [File_of_part path startLine data lastWriteTime fileSize]
       | Op_flush => []
       end)
    ops.

(** The statistics that the records of the chunks [cs] add up to. *)
Definition Statistics_of (LZ4_compressHC : list byte -> list byte)
    (cs : list Chunk) : Statistics :=
  {| stat_fileCount := count_startLine0 (flat_map files cs);
     stat_fileSize :=
       u64 (Z.of_nat (list_sum (map (fun c => length (prepareChunkData c)) cs)));
     stat_resultSize :=
       u64 (Z.of_nat
              (list_sum
                 (map (fun c => length (LZ4_compressHC (prepareChunkData c))) cs))) |}.

Section TraceVocabulary.

Variable LZ4_compressHC : list byte -> list byte.
Variable ngram : byte -> byte -> byte -> byte -> Z.
Variable bloomFilterBits : nat -> Z -> Z -> list nat.

(** The builder has written the records of the chunks [cs]; their fragments,
    followed by the pending ones, carry the bytes of the files [fs]; the
    statistics are those of [cs]; the fragments lie within their storage and
    their fields within their types. *)
Definition Trace (fs : list File) (cs : list Chunk) (b : BuilderImpl) : Prop :=
  outData b = map (emit LZ4_compressHC ngram bloomFilterBits) cs /\
  tagged (flat_map files cs) ++ tagged (pendingFiles b) = tagged fs /\
  statistics b = Statistics_of LZ4_compressHC cs /\
  Forall File_wf (flat_map files cs) /\
  Forall File_fields (flat_map files cs ++ pendingFiles b).

End TraceVocabulary.

(** Four bytes in a row somewhere in [data]. *)
Definition window (data : list byte) (a b c d : byte) : Prop :=
  exists pre post, data = pre ++ [a; b; c; d] ++ post.

Definition no_newline (a b c d : byte) : Prop :=
  is_newline a = false /\ is_newline b = false /\
  is_newline c = false /\ is_newline d = false.

(** [l1] is [l2] with some elements left out. *)
Inductive subseq {A : Type} : list A -> list A -> Prop :=
| subseq_nil : subseq [] []
| subseq_keep (x : A) (l1 l2 : list A) : subseq l1 l2 -> subseq (x :: l1) (x :: l2)
| subseq_drop (x : A) (l1 l2 : list A) : subseq l1 l2 -> subseq l1 (x :: l2).

(** ** The payload's layout *)

(** The file table [prepareChunkData] stores for the files [fs], the first
    name at [nameOffset] and the first body at [dataOffset]. *)
Fixpoint fileTable (fs : list File) (nameOffset dataOffset : nat)
  : list DataChunkFileHeader :=
  match fs with
  | [] => []
  | f :: rest =>
      fileHeader_of f nameOffset dataOffset ::
      fileTable rest (nameOffset + String.length (name f))
        (dataOffset + Blob_size (contents f))
  end.

Definition chunk_table (c : Chunk) : list DataChunkFileHeader :=
  let headerSize := sizeof_DataChunkFileHeader * length (files c) in
  fileTable (files c) headerSize (headerSize + getChunkNameTotalSize c).

Definition names_of (fs : list File) : list byte :=
  flat_map (fun f => list_byte_of_string (name f)) fs.

Definition bodies_of (fs : list File) : list byte :=
  flat_map (fun f => Blob_data (contents f)) fs.

(** The entries a scan reports for a chunk: those with start line 0. *)
Definition chunk_entries (c : Chunk) : list FileInfo :=
  map FileInfo_of (filter (fun f => (startLine f =? 0)%Z) (files c)).

(** ** Chunk records as the scan expects them *)






(** ** The builder's messages *)



(** A path without a newline. *)
Definition newline_free (path : string) : Prop :=
  Forall (fun c => is_newline c = false) (list_byte_of_string path).

(** ** Further sample inputs *)

Open Scope string_scope.

(** Three lines of three bytes. *)
Definition body_lines : list byte :=
  bytes_of "ab" ++ [newline] ++ bytes_of "cd" ++ [newline] ++
  bytes_of "ef" ++ [newline].

Definition fileL : File := File_of_part "L" 0 body_lines 3 9.

Definition sample_ops_lines : list BuilderOp :=
  [Op_appendFilePart "L" 0 body_lines 3 9; Op_flush].


Definition sample_files : list FileInfo :=
  [mkFileInfo "a" 1 10; mkFileInfo "b" 3 20; mkFileInfo "c" 4 5].

Definition sample_packFiles : list FileInfo :=
  [mkFileInfo "a" 1 10; mkFileInfo "b" 2 20].



Close Scope string_scope.
(** * Properties *)

(** ** Machine integers and sums *)

Lemma int32_small (z : Z) : (0 <= z < 2 ^ 31)%Z -> int32 z = z.
Proof.
  intros H. unfold int32.
  rewrite Z.mod_small; lia.
Qed.

Lemma u32_small (z : Z) : (0 <= z < 2 ^ 32)%Z -> u32 z = z.
Proof. intros H. unfold u32. apply Z.mod_small; lia. Qed.

Lemma u32_range (z : Z) : (0 <= u32 z < 2 ^ 32)%Z.
Proof. unfold u32. apply Z.mod_pos_bound. lia. Qed.

Lemma size_of_int_nat (n : nat) :
  (Z.of_nat n < 2 ^ 31)%Z -> size_of_int (Z.of_nat n) = n.
Proof.
  intros H. unfold size_of_int, u64.
  rewrite Z.mod_small by lia. apply Nat2Z.id.
Qed.

Lemma fold_sum_shift {A} (f : A -> nat) (l : list A) (a : nat) :
  fold_left (fun acc x => acc + f x) l a = a + list_sum_by f l.
Proof.
  unfold list_sum_by. revert a.
  induction l as [|x l IH]; intros a; simpl.
  - lia.
  - rewrite IH, (IH (f x)). lia.
Qed.

Lemma list_sum_by_nil {A} (f : A -> nat) : list_sum_by f [] = 0.
Proof. reflexivity. Qed.

Lemma list_sum_by_cons {A} (f : A -> nat) (x : A) (l : list A) :
  list_sum_by f (x :: l) = f x + list_sum_by f l.
Proof. unfold list_sum_by at 1. simpl. apply fold_sum_shift. Qed.

Lemma list_sum_by_app {A} (f : A -> nat) (l1 l2 : list A) :
  list_sum_by f (l1 ++ l2) = list_sum_by f l1 + list_sum_by f l2.
Proof.
  induction l1 as [|x l1 IH]; simpl.
  - reflexivity.
  - rewrite !list_sum_by_cons, IH. lia.
Qed.

(** ** Lines *)

Lemma lineEnd_le (l : list byte) : lineEnd l <= length l.
Proof.
  induction l as [|c r IH]; simpl.
  - lia.
  - destruct (lineEnd r); [destruct (is_newline c)|]; lia.
Qed.

Lemma lineEnd_zero (l : list byte) : lineEnd l = 0 <-> count_newlines l = 0.
Proof.
  unfold count_newlines.
  induction l as [|c r IH]; simpl.
  - tauto.
  - destruct (lineEnd r) eqn:E; destruct (is_newline c); simpl; split; intros H;
      try lia; try discriminate; tauto.
Qed.

Lemma lineEnd_last (l : list byte) :
  0 < lineEnd l -> nth_error l (lineEnd l - 1) = Some newline.
Proof.
  induction l as [|c r IH]; simpl.
  - lia.
  - destruct (lineEnd r) as [|k] eqn:E.
    + destruct (is_newline c) eqn:N; [|lia].
      intros _. simpl. f_equal. apply Byte.byte_dec_bl. exact N.
    + intros _.
      replace (S (S k) - 1) with (S k) by lia.
      specialize (IH ltac:(lia)).
      replace (S k - 1) with k in IH by lia.
      exact IH.
Qed.

Lemma count_newlines_app (l1 l2 : list byte) :
  count_newlines (l1 ++ l2) = count_newlines l1 + count_newlines l2.
Proof. unfold count_newlines. rewrite filter_app, length_app. reflexivity. Qed.

Lemma count_newlines_cons (c : byte) (l : list byte) :
  count_newlines (c :: l) = (if is_newline c then 1 else 0) + count_newlines l.
Proof. unfold count_newlines. simpl. destruct (is_newline c); reflexivity. Qed.

Lemma lineEnd_count (l : list byte) :
  count_newlines (firstn (lineEnd l) l) = count_newlines l.
Proof.
  induction l as [|c r IH].
  - reflexivity.
  - cbn [lineEnd].
    destruct (lineEnd r) as [|k] eqn:E.
    + apply lineEnd_zero in E.
      destruct (is_newline c) eqn:N.
      * rewrite firstn_cons, firstn_O, !count_newlines_cons, N, E.
        reflexivity.
      * rewrite firstn_O, count_newlines_cons, N, E. reflexivity.
    + rewrite firstn_cons, !count_newlines_cons, IH. reflexivity.
Qed.

Lemma skipByLines_loop_spec (data : list byte) :
  forall (i : nat) (a c : Z),
    (Z.of_nat (i + length data) < 2 ^ 31)%Z ->
    (0 <= c <= Z.of_nat i)%Z ->
    skipByLines_loop data i (a, c) =
    ((if lineEnd data =? 0 then a else Z.of_nat (i + lineEnd data)),
     (c + Z.of_nat (count_newlines data))%Z).
Proof.
  induction data as [|c0 r IH]; intros i a c Hi Hc; simpl.
  - f_equal. unfold count_newlines. simpl. lia.
  - simpl in Hi.
    destruct (is_newline c0) eqn:N.
    + rewrite !int32_small by lia.
      rewrite IH by lia.
      unfold count_newlines. simpl. rewrite N. simpl.
      destruct (lineEnd r) as [|k]; simpl; f_equal; lia.
    + rewrite IH by lia.
      unfold count_newlines. simpl. rewrite N.
      destruct (lineEnd r) as [|k]; simpl; f_equal; lia.
Qed.

(** Below [2^31] the [int] pair of [skipByLines] is exact. *)
Lemma skipByLines_spec (data : list byte) (dataSize : nat) :
  (Z.of_nat dataSize < 2 ^ 31)%Z ->
  skipByLines data dataSize =
  (lineEnd (firstn dataSize data),
   Z.of_nat (count_newlines (firstn dataSize data))).
Proof.
  intros H. unfold skipByLines.
  assert (L : length (firstn dataSize data) <= dataSize) by apply firstn_le_length.
  rewrite skipByLines_loop_spec by (simpl; lia).
  cbn [fst snd].
  pose proof (lineEnd_le (firstn dataSize data)) as Hl.
  assert (Hc : count_newlines (firstn dataSize data) <= dataSize).
  { unfold count_newlines.
    pose proof (filter_length_le is_newline (firstn dataSize data)). lia. }
  f_equal.
  - destruct (lineEnd (firstn dataSize data) =? 0) eqn:E.
    + apply Nat.eqb_eq in E. rewrite E. reflexivity.
    + apply size_of_int_nat. lia.
  - apply u32_small. lia.
Qed.

Lemma skipOneLine_loop_le (data : list byte) :
  forall i dataSize, i + length data <= dataSize ->
    skipOneLine_loop data i dataSize <= dataSize.
Proof.
  induction data as [|c r IH]; intros i n H; simpl in *.
  - lia.
  - destruct (is_newline c); [lia|]. apply IH. lia.
Qed.

Lemma skipOneLine_loop_pos (data : list byte) :
  forall i dataSize, 0 < dataSize -> 0 < skipOneLine_loop data i dataSize.
Proof.
  induction data as [|c r IH]; intros i n H; simpl.
  - lia.
  - destruct (is_newline c); [lia|]. apply IH. lia.
Qed.

Lemma skipOneLine_le (data : list byte) (dataSize : nat) :
  skipOneLine data dataSize <= dataSize.
Proof.
  unfold skipOneLine. apply skipOneLine_loop_le.
  pose proof (firstn_le_length dataSize data). simpl. lia.
Qed.

Lemma skipOneLine_pos (data : list byte) (dataSize : nat) :
  0 < dataSize -> 0 < skipOneLine data dataSize.
Proof. apply skipOneLine_loop_pos. Qed.

Lemma skipOneLine_loop_lower (data : list byte) :
  forall i dataSize, Nat.min (S i) dataSize <= skipOneLine_loop data i dataSize.
Proof.
  induction data as [|c r IH]; intros i n; cbn [skipOneLine_loop].
  - lia.
  - destruct (is_newline c); [lia|]. specialize (IH (S i) n). lia.
Qed.

(** [skipOneLine] passes every prefix that holds no newline. *)
Lemma skipOneLine_loop_gt (data : list byte) :
  forall i dataSize r,
    count_newlines (firstn r data) = 0 ->
    i + r < dataSize ->
    i + r < skipOneLine_loop data i dataSize.
Proof.
  induction data as [|c rest IH]; intros i n r Hc Hr.
  - simpl. lia.
  - destruct r as [|r'].
    + pose proof (skipOneLine_loop_lower (c :: rest) i n). lia.
    + rewrite firstn_cons, count_newlines_cons in Hc.
      simpl. destruct (is_newline c) eqn:N; [lia|].
      specialize (IH (S i) n r' ltac:(lia) ltac:(lia)). lia.
Qed.

Lemma skipOneLine_gt (data : list byte) (dataSize r : nat) :
  count_newlines (firstn r data) = 0 ->
  r < dataSize ->
  r < skipOneLine data dataSize.
Proof.
  intros Hc Hr. unfold skipOneLine.
  apply (skipOneLine_loop_gt (firstn dataSize data) 0 dataSize r); [|lia].
  rewrite firstn_firstn. rewrite Nat.min_l by lia. exact Hc.
Qed.

(** ** Cutting a chunk *)

Ltac split_and := repeat match goal with |- _ /\ _ => split end.

Lemma Blob_data_length (b : Blob) :
  Blob_wf b -> length (Blob_data b) = count b.
Proof.
  unfold Blob_wf, Blob_data. intros H.
  rewrite length_firstn, length_skipn. lia.
Qed.

Lemma sizes_app (l1 l2 : list File) : sizes (l1 ++ l2) = sizes l1 + sizes l2.
Proof. apply list_sum_by_app. Qed.

Lemma sizes_cons (f : File) (l : list File) :
  sizes (f :: l) = Blob_size (contents f) + sizes l.
Proof. unfold sizes. rewrite list_sum_by_cons. reflexivity. Qed.

Lemma splitPrefix_spec (file : File) (size : nat) :
  File_wf file -> size <= Blob_size (contents file) ->
  let (prefix, rest) := splitPrefix file size in
  File_wf prefix /\ File_wf rest /\
  Blob_size (contents prefix) = size /\
  Blob_size (contents prefix) + Blob_size (contents rest) =
    Blob_size (contents file) /\
  Blob_data (contents prefix) = firstn size (Blob_data (contents file)).
Proof.
  unfold File_wf, Blob_wf, Blob_size, splitPrefix, Blob_data.
  intros Hwf Hs. cbn [contents offset count storage].
  repeat split; try lia.
  rewrite firstn_firstn. rewrite Nat.min_l by lia. reflexivity.
Qed.

Lemma firstn_newline_free (l : list byte) (n m : nat) :
  n <= m -> count_newlines (firstn m l) = 0 -> count_newlines (firstn n l) = 0.
Proof.
  intros Hnm H.
  rewrite <- (firstn_skipn n (firstn m l)) in H.
  rewrite count_newlines_app in H.
  rewrite firstn_firstn in H. rewrite Nat.min_l in H by lia. lia.
Qed.

(** A prefix cut by [skipOneLine] is one line: [skipOneLine] takes it whole. *)
Lemma skipOneLine_loop_prefix (data : list byte) :
  forall i dataSize,
    i + length data = dataSize ->
    let s := skipOneLine_loop data i dataSize in
    skipOneLine_loop (firstn (s - i) data) i s = s.
Proof.
  induction data as [|c r IH]; intros i n H; cbn [skipOneLine_loop].
  - simpl. rewrite firstn_nil. reflexivity.
  - destruct (is_newline c) eqn:N.
    + replace (i + 1 - i) with 1 by lia. cbn. rewrite N. reflexivity.
    + simpl in H. specialize (IH (S i) n ltac:(lia)). cbn zeta in IH.
      pose proof (skipOneLine_loop_lower r (S i) n) as L.
      set (s := skipOneLine_loop r (S i) n) in *.
      assert (s - i = S (s - S i)) as -> by lia.
      rewrite firstn_cons. cbn [skipOneLine_loop]. rewrite N. exact IH.
Qed.

Lemma skipOneLine_prefix (data : list byte) :
  let s := skipOneLine data (length data) in
  skipOneLine (firstn s data) s = s.
Proof.
  cbn zeta. unfold skipOneLine.
  rewrite firstn_all.
  pose proof (skipOneLine_loop_prefix data 0 (length data) eq_refl) as H.
  cbn zeta in H. rewrite Nat.sub_0_r in H.
  rewrite firstn_firstn, Nat.min_id. exact H.
Qed.

Lemma appendChunkFilePrefix_spec (chunk : Chunk) (file : File) (r : nat) :
  ChunkInv chunk -> File_wf file ->
  r < Blob_size (contents file) -> (Z.of_nat r < 2 ^ 31)%Z ->
  let (chunk', file') := appendChunkFilePrefix chunk file r in
  ChunkInv chunk' /\ File_wf file' /\
  totalSize chunk' + Blob_size (contents file') =
    totalSize chunk + Blob_size (contents file) /\
  ((chunk' = chunk /\ file' = file /\ files chunk <> []) \/
   (exists prefix,
      files chunk' = files chunk ++ [prefix] /\
      totalSize chunk < totalSize chunk' /\
      (totalSize chunk' <= totalSize chunk + r \/
       (files chunk = [] /\ r < firstLine prefix)))).
Proof.
  intros [Htot Hwf] Hf Hr Hint.
  unfold appendChunkFilePrefix.
  rewrite skipByLines_spec by exact Hint.
  cbn [fst snd].
  set (data := Blob_data (contents file)).
  set (dataSize := Blob_size (contents file)).
  assert (Hlen : length data = dataSize) by (apply Blob_data_length; exact Hf).
  set (L := lineEnd (firstn r data)).
  assert (HL : L <= r).
  { unfold L. pose proof (lineEnd_le (firstn r data)).
    pose proof (firstn_le_length r data). lia. }
  destruct (0 <? L) eqn:EL.
  - (* a newline within the budget *)
    apply Nat.ltb_lt in EL. cbn [orb].
    pose proof (splitPrefix_spec file L Hf ltac:(unfold Blob_size in *; fold dataSize; lia)) as S.
    destruct (splitPrefix file L) as [prefix rest].
    destruct S as (Wp & Wr & Sp & Ssum & _).
    repeat split; cbn [files totalSize File_addLines contents].
    + rewrite sizes_app, sizes_cons. unfold sizes at 2.
      rewrite list_sum_by_nil. lia.
    + apply Forall_app. split; [exact Hwf|]. constructor; [exact Wp|constructor].
    + exact Wr.
    + fold dataSize in Ssum. lia.
    + right. exists prefix. repeat split; try lia.
  - apply Nat.ltb_ge in EL. assert (L0 : L = 0) by lia.
    cbn [orb].
    destruct (files chunk) as [|f0 fs] eqn:Efiles.
    + (* no newline within the budget, empty chunk: one whole line *)
      set (s := skipOneLine data dataSize).
      assert (Hs : s <= dataSize) by apply skipOneLine_le.
      assert (Hrs : r < s).
      { apply skipOneLine_gt; [|exact Hr]. apply lineEnd_zero. exact L0. }
      pose proof (splitPrefix_spec file s Hf Hs) as S.
      destruct (splitPrefix file s) as [prefix rest].
      destruct S as (Wp & Wr & Sp & Ssum & Dp).
      repeat split; cbn [files totalSize File_addLines contents].
      * cbn [app]. rewrite sizes_cons. unfold sizes.
        rewrite list_sum_by_nil.
        unfold sizes in Htot. rewrite list_sum_by_nil in Htot. lia.
      * constructor; [exact Wp|constructor].
      * exact Wr.
      * fold dataSize in Ssum. lia.
      * right. exists prefix. repeat split; try lia.
        right. split; [reflexivity|].
        unfold firstLine. rewrite Dp, Sp. fold data.
        pose proof (skipOneLine_prefix data) as Hp. cbn zeta in Hp.
        rewrite Hlen in Hp. fold s in Hp. rewrite Hp. exact Hrs.
    + (* no newline within the budget, chunk not empty: nothing is taken *)
      repeat split; try assumption; try lia;
        try (rewrite Efiles; assumption).
      left. repeat split. discriminate.
Qed.

Lemma flushChunk_loop_spec (size : nat) :
  (Z.of_nat size < 2 ^ 31)%Z ->
  forall (pending : list File) (chunk : Chunk),
    ChunkInv chunk -> Forall File_wf pending -> totalSize chunk <= size ->
    let (chunk', pending') := flushChunk_loop size chunk pending in
    ChunkInv chunk' /\ Forall File_wf pending' /\
    sizes pending' + totalSize chunk' = sizes pending + totalSize chunk /\
    BoundOK size chunk' /\
    length pending' <= length pending /\
    totalSize chunk <= totalSize chunk' /\
    (exists more, files chunk' = files chunk ++ more) /\
    (files chunk' <> files chunk ->
     totalSize chunk < totalSize chunk' \/ length pending' < length pending) /\
    (files chunk = [] -> pending <> [] -> totalSize chunk < size ->
     files chunk' <> []).
Proof.
  intros Hint.
  induction pending as [|file rest IH]; intros chunk Hc Hp Hb;
    cbn [flushChunk_loop].
  - split_and; try assumption; try lia; try (left; exact Hb).
    + exists []. rewrite app_nil_r. reflexivity.
    + congruence.
    + congruence.
  - inversion Hp as [|? ? Wf Wrest]; subst.
    destruct (totalSize chunk <? size) eqn:Elt.
    + apply Nat.ltb_lt in Elt.
      destruct (Blob_size (contents file) <=? size - totalSize chunk) eqn:Efit.
      * (* the file fits whole *)
        apply Nat.leb_le in Efit.
        assert (Hc' : ChunkInv (appendChunkFile chunk file)).
        { destruct Hc as [Ht Hw]. split; cbn [appendChunkFile files totalSize].
          - rewrite sizes_app, sizes_cons. unfold sizes at 2.
            rewrite list_sum_by_nil. lia.
          - apply Forall_app. split; [exact Hw|]. constructor; [exact Wf|constructor]. }
        specialize (IH (appendChunkFile chunk file) Hc' Wrest
                      ltac:(cbn [appendChunkFile totalSize]; lia)).
        destruct (flushChunk_loop size (appendChunkFile chunk file) rest)
          as [chunk' pending'].
        destruct IH as (I1 & I2 & I3 & I4 & I5 & I6 & (more & I7) & I8 & I9).
        cbn [appendChunkFile files totalSize] in *.
        split_and; try assumption.
        -- rewrite sizes_cons. lia.
        -- cbn [length]. lia.
        -- lia.
        -- exists (file :: more). rewrite I7, <- app_assoc. reflexivity.
        -- intros _. right. cbn [length]. lia.
        -- intros _ _ _ E. rewrite I7 in E. destruct (files chunk); discriminate.
      * (* the file is cut, or left for the next chunk *)
        apply Nat.leb_gt in Efit.
        pose proof (appendChunkFilePrefix_spec chunk file (size - totalSize chunk)
                      Hc Wf Efit ltac:(lia)) as S.
        destruct (appendChunkFilePrefix chunk file (size - totalSize chunk))
          as [chunk' file'].
        destruct S as (S1 & S2 & S3 & S4).
        split_and.
        -- exact S1.
        -- constructor; assumption.
        -- rewrite !sizes_cons. lia.
        -- destruct S4 as [(-> & _ & _)|(prefix & E & _ & [Hle|[E0 Hfl]])].
           ++ left. exact Hb.
           ++ left. lia.
           ++ right. exists prefix. rewrite E, E0. split; [reflexivity|].
              destruct Hc as [Ht _]. rewrite E0 in Ht. unfold sizes in Ht.
              rewrite list_sum_by_nil in Ht. lia.
        -- cbn [length]. lia.
        -- destruct S4 as [(-> & _ & _)|(prefix & _ & Hlt & _)]; lia.
        -- destruct S4 as [(-> & _ & _)|(prefix & E & _ & _)].
           ++ exists []. rewrite app_nil_r. reflexivity.
           ++ exists [prefix]. exact E.
        -- intros Hne. destruct S4 as [(-> & _ & _)|(prefix & _ & Hlt & _)].
           ++ congruence.
           ++ left. exact Hlt.
        -- intros E0 _ _. destruct S4 as [(_ & _ & Hne)|(prefix & E & _ & _)].
           ++ contradiction.
           ++ rewrite E, E0. discriminate.
    + apply Nat.ltb_ge in Elt.
      split_and; try assumption; try lia; try (left; exact Hb).
      * exists []. rewrite app_nil_r. reflexivity.
      * congruence.
Qed.

(** ** The builder's loops *)

Section BuilderProps.

Variable kChunkSize : nat.
Variable LZ4_compressHC : list byte -> list byte.
Variable ngram : byte -> byte -> byte -> byte -> Z.
Variable bloomFilterBits : nat -> Z -> Z -> list nat.
Variable readFileUTF8 : string -> option (Z * Z * list byte).

Hypothesis kChunkSize_pos : 0 < kChunkSize.
Hypothesis kChunkSize_int : (Z.of_nat kChunkSize < 2 ^ 31)%Z.

Local Abbreviation flushChunk' := (flushChunk LZ4_compressHC ngram bloomFilterBits).
Local Abbreviation flush' := (flush kChunkSize LZ4_compressHC ngram bloomFilterBits).
Local Abbreviation flushIfNeeded' :=
  (flushIfNeeded kChunkSize LZ4_compressHC ngram bloomFilterBits).
Local Abbreviation emit' := (emit LZ4_compressHC ngram bloomFilterBits).
Local Abbreviation written_for' := (written_for LZ4_compressHC ngram bloomFilterBits).
Local Abbreviation Emitted' :=
  (Emitted kChunkSize LZ4_compressHC ngram bloomFilterBits).
Local Abbreviation OutOK' := (OutOK kChunkSize LZ4_compressHC ngram bloomFilterBits).

Lemma ChunkInv_empty : ChunkInv Chunk_empty.
Proof. split; [reflexivity|constructor]. Qed.

Lemma sizes_pos_nonempty (fs : list File) : 0 < sizes fs -> fs <> [].
Proof. intros H E. subst. unfold sizes in H. rewrite list_sum_by_nil in H. lia. Qed.

Lemma flushChunk_write_outData (c : Chunk) (b : BuilderImpl) :
  let b' := flushChunk_write LZ4_compressHC ngram bloomFilterBits c b in
  outData b' = outData b ++ written_for' c /\
  pendingFiles b' = pendingFiles b /\ pendingSize b' = pendingSize b.
Proof.
  unfold flushChunk_write, written_for.
  destruct (files c) eqn:E.
  - cbn zeta. rewrite app_nil_r. auto.
  - cbn zeta. unfold writeChunk, emit. cbn [outData pendingFiles pendingSize].
    auto.
Qed.

(** One cut. *)
Lemma flushChunk_spec (b : BuilderImpl) :
  BuilderInv b ->
  let b' := flushChunk' kChunkSize b in
  BuilderInv b' /\
  exists c : Chunk,
    ChunkInv c /\ BoundOK kChunkSize c /\
    outData b' = outData b ++ written_for' c /\
    pendingSize b' + getChunkDataTotalSize c = pendingSize b /\
    length (pendingFiles b') <= length (pendingFiles b) /\
    (0 < pendingSize b ->
     files c <> [] /\
     (0 < getChunkDataTotalSize c \/
      length (pendingFiles b') < length (pendingFiles b))).
Proof.
  intros [Hsize Hwf]. cbn zeta. unfold flushChunk.
  pose proof (flushChunk_loop_spec kChunkSize kChunkSize_int (pendingFiles b)
                Chunk_empty ChunkInv_empty Hwf ltac:(cbn; lia)) as S.
  destruct (flushChunk_loop kChunkSize Chunk_empty (pendingFiles b))
    as [c pending'].
  destruct S as (S1 & S2 & S3 & S4 & S5 & S6 & _ & S8 & S9).
  cbn [Chunk_empty files totalSize] in *.
  match goal with
  | |- context [flushChunk_write _ _ _ c ?b0] =>
      pose proof (flushChunk_write_outData c b0) as W
  end.
  cbn zeta in W. destruct W as (W1 & W2 & W3).
  cbn [outData pendingFiles pendingSize] in W1, W2, W3.
  assert (Hdata : getChunkDataTotalSize c = totalSize c).
  { destruct S1 as [S1 _]. rewrite S1. reflexivity. }
  split.
  - split; [rewrite W2, W3; lia|rewrite W2; exact S2].
  - exists c. rewrite W1, W2, W3, Hdata.
    split_and; try assumption; try reflexivity; try lia.
    intros Hpos.
    assert (Hne : pendingFiles b <> []) by (apply sizes_pos_nonempty; lia).
    assert (Hc : files c <> []) by (apply S9; [reflexivity|exact Hne|lia]).
    split; [exact Hc|]. destruct (S8 Hc); [left; lia|right; assumption].
Qed.

Lemma Emitted_refl (b : BuilderImpl) : Emitted' b b.
Proof. exists []. cbn. rewrite app_nil_r. split_and; auto. Qed.

Lemma Emitted_step (b0 b : BuilderImpl) :
  BuilderInv b -> Emitted' b0 b -> Emitted' b0 (flushChunk' kChunkSize b).
Proof.
  intros Hb (cs & E1 & E2 & E3).
  destruct (flushChunk_spec b Hb) as (_ & c & C1 & C2 & C3 & C4 & _ & _).
  unfold written_for in C3.
  destruct (files c) eqn:Ef.
  - exists cs. rewrite C3, app_nil_r.
    assert (getChunkDataTotalSize c = 0).
    { unfold getChunkDataTotalSize. rewrite Ef. reflexivity. }
    split_and; auto. lia.
  - exists (cs ++ [c]). rewrite C3, E1, map_app, <- app_assoc. cbn [map].
    split_and; auto.
    + apply Forall_app. split; [exact E2|]. constructor; [|constructor].
      unfold ChunkOK. split_and; auto. rewrite Ef. discriminate.
    + rewrite map_app, list_sum_app. cbn. lia.
Qed.

Lemma flush_sound (fuel : nat) :
  forall b0 b b', BuilderInv b -> Emitted' b0 b -> flush' fuel b = Some b' ->
    BuilderInv b' /\ Emitted' b0 b' /\ pendingSize b' = 0.
Proof.
  induction fuel as [|fuel IH]; intros b0 b b' Hb He; cbn [flush];
    destruct (0 <? pendingSize b) eqn:E; try discriminate.
  - intros [= <-]. apply Nat.ltb_ge in E. split_and; auto. lia.
  - intros H. apply (IH b0 _ _ (proj1 (flushChunk_spec b Hb))
                       (Emitted_step b0 b Hb He) H).
  - intros [= <-]. apply Nat.ltb_ge in E. split_and; auto. lia.
Qed.

Lemma flushIfNeeded_sound (fuel : nat) :
  forall b0 b b', BuilderInv b -> Emitted' b0 b -> flushIfNeeded' fuel b = Some b' ->
    BuilderInv b' /\ Emitted' b0 b' /\ pendingSize b' < kChunkSize * 2.
Proof.
  induction fuel as [|fuel IH]; intros b0 b b' Hb He; cbn [flushIfNeeded];
    destruct (kChunkSize * 2 <=? pendingSize b) eqn:E; try discriminate.
  - intros [= <-]. apply Nat.leb_gt in E. split_and; auto.
  - intros H. apply (IH b0 _ _ (proj1 (flushChunk_spec b Hb))
                       (Emitted_step b0 b Hb He) H).
  - intros [= <-]. apply Nat.leb_gt in E. split_and; auto.
Qed.

Lemma rounds_decrease (b : BuilderImpl) :
  BuilderInv b -> 0 < pendingSize b ->
  rounds (flushChunk' kChunkSize b) < rounds b.
Proof.
  intros Hb Hpos. unfold rounds.
  destruct (flushChunk_spec b Hb) as (_ & c & _ & _ & _ & C4 & C5 & C6).
  destruct (C6 Hpos) as [_ [H|H]]; lia.
Qed.

Lemma flush_terminates (fuel : nat) :
  forall b, BuilderInv b -> rounds b <= fuel ->
    exists b', flush' fuel b = Some b'.
Proof.
  induction fuel as [|fuel IH]; intros b Hb Hr; cbn [flush];
    destruct (0 <? pendingSize b) eqn:E; try (eexists; reflexivity).
  - apply Nat.ltb_lt in E. unfold rounds in Hr. lia.
  - apply Nat.ltb_lt in E. apply IH.
    + apply (flushChunk_spec b Hb).
    + pose proof (rounds_decrease b Hb E). lia.
Qed.

Lemma flushIfNeeded_terminates (fuel : nat) :
  forall b, BuilderInv b -> rounds b <= fuel ->
    exists b', flushIfNeeded' fuel b = Some b'.
Proof.
  induction fuel as [|fuel IH]; intros b Hb Hr; cbn [flushIfNeeded];
    destruct (kChunkSize * 2 <=? pendingSize b) eqn:E; try (eexists; reflexivity).
  - apply Nat.leb_le in E. unfold rounds in Hr. lia.
  - apply Nat.leb_le in E. apply IH.
    + apply (flushChunk_spec b Hb).
    + pose proof (rounds_decrease b Hb ltac:(lia)). lia.
Qed.

Lemma flush_fuel_mono (fuel : nat) :
  forall fuel' b b', fuel <= fuel' -> flush' fuel b = Some b' ->
    flush' fuel' b = Some b'.
Proof.
  induction fuel as [|fuel IH]; intros fuel' b b' Hle; cbn [flush].
  - destruct fuel'; cbn [flush]; destruct (0 <? pendingSize b);
      congruence.
  - destruct fuel' as [|fuel']; [lia|]. cbn [flush].
    destruct (0 <? pendingSize b); [|congruence].
    apply IH. lia.
Qed.

Lemma flushIfNeeded_fuel_mono (fuel : nat) :
  forall fuel' b b', fuel <= fuel' -> flushIfNeeded' fuel b = Some b' ->
    flushIfNeeded' fuel' b = Some b'.
Proof.
  induction fuel as [|fuel IH]; intros fuel' b b' Hle; cbn [flushIfNeeded].
  - destruct fuel'; cbn [flushIfNeeded];
      destruct (kChunkSize * 2 <=? pendingSize b); congruence.
  - destruct fuel' as [|fuel']; [lia|]. cbn [flushIfNeeded].
    destruct (kChunkSize * 2 <=? pendingSize b); [|congruence].
    apply IH. lia.
Qed.

Lemma OutOK_Emitted (b0 b : BuilderImpl) : OutOK' b0 -> Emitted' b0 b -> OutOK' b.
Proof.
  intros (cs0 & E0 & F0) (cs & E & F & _).
  exists (cs0 ++ cs). rewrite E, E0, map_app. split; [reflexivity|].
  apply Forall_app. split; assumption.
Qed.

Lemma enqueue_inv path startLine data lastWriteTime fileSize (b : BuilderImpl) :
  BuilderInv b -> BuilderInv (enqueue path startLine data lastWriteTime fileSize b).
Proof.
  intros [Hs Hw]. split; cbn [enqueue pendingSize pendingFiles].
  - rewrite sizes_app, sizes_cons. unfold sizes at 2. rewrite list_sum_by_nil.
    cbn. lia.
  - apply Forall_app. split; [exact Hw|]. constructor; [|constructor].
    unfold File_wf, Blob_wf. cbn. lia.
Qed.

Local Abbreviation run_op' :=
  (run_op kChunkSize LZ4_compressHC ngram bloomFilterBits readFileUTF8).
Local Abbreviation run' :=
  (run kChunkSize LZ4_compressHC ngram bloomFilterBits readFileUTF8).

Lemma run_op_sound (fuel : nat) (op : BuilderOp) (b b' : BuilderImpl) :
  BuilderInv b -> OutOK' b -> run_op' fuel op b = Some b' ->
  BuilderInv b' /\ OutOK' b'.
Proof.
  intros Hb Ho. destruct op as [path|path sl data t fs|]; cbn [run_op].
  - unfold appendFile.
    destruct (readFileUTF8 path) as [[[t fs] data]|].
    + unfold appendFilePart. fold (enqueue path 0 data t fs b).
      destruct (flushIfNeeded' fuel (enqueue path 0 data t fs b)) as [b1|] eqn:E;
        [|discriminate].
      intros [= <-].
      destruct (flushIfNeeded_sound fuel _ _ _ (enqueue_inv _ _ _ _ _ b Hb)
                  (Emitted_refl _) E) as (I & Em & _).
      split; [exact I|]. apply (OutOK_Emitted (enqueue path 0 data t fs b)); auto.
    + intros [= <-]. auto.
  - unfold appendFilePart. fold (enqueue path sl data t fs b). intros E.
    destruct (flushIfNeeded_sound fuel _ _ _ (enqueue_inv _ _ _ _ _ b Hb)
                (Emitted_refl _) E) as (I & Em & _).
    split; [exact I|]. apply (OutOK_Emitted (enqueue path sl data t fs b)); auto.
  - intros E.
    destruct (flush_sound fuel _ _ _ Hb (Emitted_refl _) E) as (I & Em & _).
    split; [exact I|]. apply (OutOK_Emitted b); auto.
Qed.

Lemma run_sound (fuel : nat) (ops : list BuilderOp) :
  forall b b', BuilderInv b -> OutOK' b -> run' fuel ops b = Some b' ->
    BuilderInv b' /\ OutOK' b'.
Proof.
  induction ops as [|op ops IH]; intros b b' Hb Ho; cbn [run].
  - intros [= <-]. auto.
  - destruct (run_op' fuel op b) as [b1|] eqn:E; [|discriminate].
    destruct (run_op_sound fuel op b b1 Hb Ho E) as [Hb1 Ho1].
    apply IH; assumption.
Qed.

Lemma run_op_fuel_mono (fuel fuel' : nat) (op : BuilderOp) (b b' : BuilderImpl) :
  fuel <= fuel' -> run_op' fuel op b = Some b' -> run_op' fuel' op b = Some b'.
Proof.
  intros Hle. destruct op as [path|path sl data t fs|]; cbn [run_op].
  - unfold appendFile. destruct (readFileUTF8 path) as [[[t fs] data]|]; [|auto].
    unfold appendFilePart.
    match goal with
    | |- context [flushIfNeeded' fuel ?x] =>
        destruct (flushIfNeeded' fuel x) as [b1|] eqn:E; [|discriminate];
        rewrite (flushIfNeeded_fuel_mono fuel fuel' x b1 Hle E)
    end.
    auto.
  - unfold appendFilePart. apply flushIfNeeded_fuel_mono. exact Hle.
  - apply flush_fuel_mono. exact Hle.
Qed.

Lemma run_fuel_mono (fuel fuel' : nat) (ops : list BuilderOp) :
  fuel <= fuel' ->
  forall b b', run' fuel ops b = Some b' -> run' fuel' ops b = Some b'.
Proof.
  intros Hle. induction ops as [|op ops IH]; intros b b'; cbn [run]; [auto|].
  destruct (run_op' fuel op b) as [b1|] eqn:E; [|discriminate].
  rewrite (run_op_fuel_mono fuel fuel' op b b1 Hle E). apply IH.
Qed.

Lemma run_op_terminates (op : BuilderOp) (b : BuilderImpl) :
  BuilderInv b -> exists fuel b', run_op' fuel op b = Some b'.
Proof.
  intros Hb. destruct op as [path|path sl data t fs|]; cbn [run_op].
  - unfold appendFile. destruct (readFileUTF8 path) as [[[t fs] data]|].
    + unfold appendFilePart. fold (enqueue path 0 data t fs b).
      destruct (flushIfNeeded_terminates (rounds (enqueue path 0 data t fs b)) _
                  (enqueue_inv _ _ _ _ _ b Hb) (le_n _)) as [b' E].
      exists (rounds (enqueue path 0 data t fs b)), b'. rewrite E. reflexivity.
    + exists 0, b. reflexivity.
  - unfold appendFilePart. fold (enqueue path sl data t fs b).
    destruct (flushIfNeeded_terminates (rounds (enqueue path sl data t fs b)) _
                (enqueue_inv _ _ _ _ _ b Hb) (le_n _)) as [b' E].
    eauto.
  - destruct (flush_terminates (rounds b) b Hb (le_n _)) as [b' E]. eauto.
Qed.

Lemma run_terminates (ops : list BuilderOp) :
  forall b, BuilderInv b -> OutOK' b -> exists fuel b', run' fuel ops b = Some b'.
Proof.
  induction ops as [|op ops IH]; intros b Hb Ho; cbn [run].
  - exists 0, b. reflexivity.
  - destruct (run_op_terminates op b Hb) as (f1 & b1 & E1).
    destruct (run_op_sound f1 op b b1 Hb Ho E1) as [Hb1 Ho1].
    destruct (IH b1 Hb1 Ho1) as (f2 & b2 & E2).
    exists (Nat.max f1 f2), b2.
    rewrite (run_op_fuel_mono f1 (Nat.max f1 f2) op b b1 (Nat.le_max_l _ _) E1).
    apply (run_fuel_mono f2); [apply Nat.le_max_r|exact E2].
Qed.

Lemma BuilderImpl_new_inv : BuilderInv BuilderImpl_new /\ OutOK' BuilderImpl_new.
Proof.
  split.
  - split; [reflexivity|constructor].
  - exists []. split; [reflexivity|constructor].
Qed.

Lemma ChunkOK_WithinBudget (c : Chunk) :
  ChunkOK kChunkSize c -> WithinBudget kChunkSize c.
Proof.
  intros (Hne & [Ht _] & Hb). split; [exact Hne|].
  unfold getChunkDataTotalSize. fold (sizes (files c)). rewrite <- Ht.
  exact Hb.
Qed.

(** C10. For every builder state whose [pendingSize] is the byte count of its
    pending queue (and whose blobs lie within their storage), [flush] returns
    when given enough rounds, with [pendingSize = 0]; what it has written are
    the records of admissible chunks whose bodies hold as many bytes as were
    pending. *)
Theorem flush_drains (b : BuilderImpl) :
  BuilderInv b ->
  exists fuel b',
    flush kChunkSize LZ4_compressHC ngram bloomFilterBits fuel b = Some b' /\
    pendingSize b' = 0 /\
    Emitted kChunkSize LZ4_compressHC ngram bloomFilterBits b b'.
Proof.
  intros Hb.
  destruct (flush_terminates (rounds b) b Hb (le_n _)) as [b' E].
  exists (rounds b), b'.
  destruct (flush_sound _ b b b' Hb (Emitted_refl b) E) as (_ & Em & Hz).
  auto.
Qed.

(** C6 (as amended). For a chunk size below 2^31, every sequence of calls
    runs to its end, and every chunk it has written holds at least one file
    entry and has at most [kChunkSize] bytes of file bodies, unless it is a
    single fragment whose first line is longer than [kChunkSize]. *)
Theorem chunks_within_budget (ops : list BuilderOp) :
  (exists fuel b,
     run kChunkSize LZ4_compressHC ngram bloomFilterBits readFileUTF8 fuel ops
       BuilderImpl_new = Some b) /\
  (forall fuel b,
     run kChunkSize LZ4_compressHC ngram bloomFilterBits readFileUTF8 fuel ops
       BuilderImpl_new = Some b ->
     exists cs : list Chunk,
       outData b = map (emit LZ4_compressHC ngram bloomFilterBits) cs /\
       Forall (WithinBudget kChunkSize) cs).
Proof.
  destruct BuilderImpl_new_inv as [Hi Ho]. split.
  - apply run_terminates; assumption.
  - intros fuel b E.
    destruct (run_sound fuel ops _ b Hi Ho E) as (_ & cs & Eo & Hcs).
    exists cs. split; [exact Eo|].
    apply (Forall_impl _ ChunkOK_WithinBudget Hcs).
Qed.

End BuilderProps.

(** ** Binary64 *)

Section Binary64.

Local Open Scope Z_scope.

Lemma shr_1_nonneg (mrs : shr_record) :
  0 <= shr_m mrs -> 0 <= shr_m (shr_1 mrs).
Proof.
  destruct mrs as [m r s]. cbn [shr_m].
  destruct m as [|p|p]; [| |lia]; intros _.
  - cbn. lia.
  - destruct p; cbn; lia.
Qed.

Lemma iter_pos_shr_1_nonneg (p : positive) :
  forall mrs, 0 <= shr_m mrs -> 0 <= shr_m (SpecFloat.iter_pos shr_1 p mrs).
Proof.
  induction p as [p IH|p IH|]; intros mrs H; cbn [SpecFloat.iter_pos].
  - apply IH, IH, shr_1_nonneg, H.
  - apply IH, IH, H.
  - apply shr_1_nonneg, H.
Qed.

Lemma shr_fexp_nonneg (m e : Z) (l : location) :
  0 <= m -> 0 <= shr_m (fst (shr_fexp prec emax m e l)).
Proof.
  intros H. unfold shr_fexp, shr.
  assert (R : 0 <= shr_m (shr_record_of_loc m l)).
  { destruct l as [|[ | | ]]; cbn; exact H. }
  destruct (fexp prec emax (Zdigits2 m + e) - e); cbn [fst]; auto.
  apply iter_pos_shr_1_nonneg, R.
Qed.

Lemma round_nearest_even_nonneg (m : Z) (l : location) :
  0 <= m -> 0 <= round_nearest_even m l.
Proof.
  intros H. destruct l as [|[ | | ]]; cbn; try lia.
  destruct (Z.even m); lia.
Qed.

Lemma binary_round_aux_signed (sx : bool) (mx ex : Z) (lx : location) :
  0 <= mx -> SF_signed sx (binary_round_aux prec emax sx mx ex lx).
Proof.
  intros H. unfold binary_round_aux.
  pose proof (shr_fexp_nonneg mx ex lx H) as H1.
  destruct (shr_fexp prec emax mx ex lx) as [mrs' e']. cbn [fst] in H1.
  pose proof (shr_fexp_nonneg _ e' loc_Exact
                (round_nearest_even_nonneg _ (loc_of_shr_record mrs') H1)) as H2.
  destruct (shr_fexp prec emax
              (round_nearest_even (shr_m mrs') (loc_of_shr_record mrs')) e' loc_Exact)
    as [mrs'' e''].
  cbn [fst] in H2.
  destruct (shr_m mrs'') as [|p|p]; [exact I| |lia].
  destruct (e'' <=? emax - prec); reflexivity.
Qed.

Lemma binary_normalize_signed (m : Z) :
  0 <= m -> SF_signed false (binary_normalize prec emax m 0 false).
Proof.
  intros H. destruct m as [|p|p]; [exact I| |lia].
  cbn [binary_normalize]. unfold binary_round.
  destruct (shl_align p 0 (fexp prec emax (Z.pos (digits2_pos p) + 0))) as [mz ez].
  apply binary_round_aux_signed. lia.
Qed.

Lemma SFmul_signed (x y : spec_float) :
  SF_signed false x -> SF_signed false y ->
  (forall s, x <> S754_infinity s) \/ (forall s, y <> S754_zero s) ->
  (forall s, y <> S754_infinity s) \/ (forall s, x <> S754_zero s) ->
  SF_signed false (SFmul prec emax x y).
Proof.
  destruct x as [sx|sx| |sx mx ex]; destruct y as [sy|sy| |sy my ey];
    cbn [SF_signed SFmul]; intros Hx Hy H1 H2; subst; try exact I;
    try reflexivity; try contradiction.
  - destruct H2 as [H2|H2]; [exact (H2 _ eq_refl)|exact (H2 _ eq_refl)].
  - destruct H1 as [H1|H1]; [exact (H1 _ eq_refl)|exact (H1 _ eq_refl)].
  - apply binary_round_aux_signed. lia.
Qed.

Lemma digits2_pos_iter_xO (d p : positive) :
  digits2_pos (Pos.iter xO p d) = (digits2_pos p + d)%positive.
Proof.
  revert p. induction d as [|d IH] using Pos.peano_ind; intros p.
  - cbn. lia.
  - rewrite Pos.iter_succ. cbn [digits2_pos]. rewrite IH. lia.
Qed.

Lemma digits2_pos_lower (p : positive) :
  2 ^ (Z.pos (digits2_pos p) - 1) <= Z.pos p.
Proof.
  induction p as [p IH|p IH|]; cbn [digits2_pos].
  - rewrite Pos2Z.inj_succ.
    replace (Z.succ (Z.pos (digits2_pos p)) - 1) with (Z.succ (Z.pos (digits2_pos p) - 1)) by lia.
    rewrite Z.pow_succ_r by lia. lia.
  - rewrite Pos2Z.inj_succ.
    replace (Z.succ (Z.pos (digits2_pos p)) - 1) with (Z.succ (Z.pos (digits2_pos p) - 1)) by lia.
    rewrite Z.pow_succ_r by lia. lia.
  - cbn. lia.
Qed.

Lemma digits2_pos_upper (p : positive) :
  Z.pos p < 2 ^ Z.pos (digits2_pos p).
Proof.
  induction p as [p IH|p IH|]; cbn [digits2_pos].
  - rewrite Pos2Z.inj_succ, Z.pow_succ_r by lia. lia.
  - rewrite Pos2Z.inj_succ, Z.pow_succ_r by lia. lia.
  - cbn. lia.
Qed.

Lemma digits2_pos_le (p : positive) (n : Z) :
  0 <= n -> Z.pos p < 2 ^ n -> Z.pos (digits2_pos p) <= n.
Proof.
  intros Hn H. pose proof (digits2_pos_lower p) as L.
  destruct (Z_le_gt_dec (Z.pos (digits2_pos p)) n) as [|G]; [assumption|].
  assert (2 ^ n <= 2 ^ (Z.pos (digits2_pos p) - 1)) by (apply Z.pow_le_mono_r; lia).
  lia.
Qed.

(** The double of a positive integer below [2^53] is finite and positive. *)
Lemma binary_normalize_finite (p : positive) :
  Z.pos p < 2 ^ 53 ->
  exists m e, binary_normalize prec emax (Z.pos p) 0 false = S754_finite false m e.
Proof.
  intros Hp.
  pose proof (digits2_pos_le p 53 ltac:(lia) Hp) as Hd.
  set (d := Z.pos (digits2_pos p)) in *.
  assert (Hd1 : 1 <= d) by (unfold d; lia).
  cbn [binary_normalize]. unfold binary_round.
  assert (Ef : fexp prec emax (d + 0) = d - 53).
  { unfold SpecFloat.fexp, SpecFloat.emin, prec, emax. lia. }
  fold d. rewrite Ef.
  assert (Hfin : forall mz ez,
             Z.pos (digits2_pos mz) = 53 -> -52 <= ez <= 0 ->
             binary_round_aux prec emax false (Z.pos mz) ez loc_Exact =
             S754_finite false mz ez).
  { intros mz ez Hm He. unfold binary_round_aux, shr_fexp.
    cbn [Zdigits2]. rewrite Hm.
    assert (E0 : fexp prec emax (53 + ez) - ez = 0).
    { unfold SpecFloat.fexp, SpecFloat.emin, prec, emax. lia. }
    rewrite E0. cbn [shr_record_of_loc shr shr_m loc_of_shr_record round_nearest_even Zdigits2].
    rewrite Hm, E0. cbn [shr shr_m].
    destruct (ez <=? emax - prec) eqn:E; [reflexivity|].
    apply Z.leb_gt in E. unfold emax, prec in E. lia. }
  unfold shl_align.
  destruct (d - 53 - 0) as [|q|q] eqn:Eq.
  - exists p, 0. apply Hfin; [fold d; lia|lia].
  - lia.
  - exists (Pos.iter xO p q), (d - 53). apply Hfin; [|lia].
    rewrite digits2_pos_iter_xO. fold d. lia.
Qed.

Lemma double_of_u32_spec (z : Z) :
  0 <= z < 2 ^ 32 ->
  Prim2SF (double_of_u32 z) = binary_normalize prec emax z 0 false.
Proof.
  intros H. unfold double_of_u32. rewrite of_uint63_spec.
  rewrite Uint63.of_Z_spec. rewrite Z.mod_small; [reflexivity|].
  unfold wB, size. change (2 ^ Z.of_nat 63) with 9223372036854775808. lia.
Qed.

Lemma SFdiv_signed (x y : spec_float) :
  SF_signed false x -> (exists m e, y = S754_finite false m e) ->
  SF_signed false (SFdiv prec emax x y).
Proof.
  intros Hx (my & ey & ->).
  destruct x as [sx|sx| |sx mx ex]; cbn [SF_signed SFdiv] in *; subst;
    try exact I; try reflexivity; try contradiction.
  unfold SFdiv_core_binary.
  set (m' := match _ - _ - _ with Z0 => Z.pos mx | Z.pos _ => _ | Z.neg _ => 0 end).
  assert (Hm : 0 <= m').
  { unfold m'. destruct (_ - _ - _); try lia. apply Z.shiftl_nonneg. lia. }
  pose proof (Z_div_mod m' (Z.pos my) ltac:(lia)) as D.
  destruct (Z.div_eucl m' (Z.pos my)) as [q r].
  apply binary_round_aux_signed. nia.
Qed.

Lemma valid_binary_mantissa (s : bool) (m : positive) (e : Z) :
  valid_binary (S754_finite s m e) = true ->
  Z.pos m < 2 ^ 53 /\ (-1074 < e -> 2 ^ 52 <= Z.pos m).
Proof.
  unfold valid_binary, bounded, canonical_mantissa.
  intros H. apply andb_true_iff in H. destruct H as [H _].
  apply Z.eqb_eq in H.
  unfold SpecFloat.fexp, SpecFloat.emin, prec, emax in H.
  pose proof (digits2_pos_lower m) as L.
  pose proof (digits2_pos_upper m) as U.
  set (d := Z.pos (digits2_pos m)) in *.
  split.
  - assert (d <= 53) by lia.
    assert (2 ^ d <= 2 ^ 53) by (apply Z.pow_le_mono_r; lia). lia.
  - intros He. assert (d = 53) by lia.
    replace (d - 1) with 52 in L by lia. exact L.
Qed.

Lemma compare_cont_Eq (a b : positive) :
  PosDef.Pos.compare_cont Eq a b = Pos.compare a b.
Proof. reflexivity. Qed.

Lemma pos_lt_Z (a b : positive) : (a < b)%positive -> Z.pos a < Z.pos b.
Proof. intros H. exact H. Qed.

Lemma Prim2SF_one : Prim2SF 1 = S754_finite false 4503599627370496 (-52).
Proof. reflexivity. Qed.

Lemma Prim2SF_sixteen : Prim2SF 16 = S754_finite false 4503599627370496 (-48).
Proof. reflexivity. Qed.

(** The guards and the cast of [getIndexHashIterations] are a truncation
    clamped to [1, 16]. *)
Lemma clamp_of_double (k : float) :
  SF_signed false (Prim2SF k) ->
  (if (k <? 1)%float then 1
   else if (16 <? k)%float then 16 else uint_of_double k) =
  Z.max 1 (Z.min 16 (SF_trunc (Prim2SF k))).
Proof.
  intros Hs. rewrite !FloatAxioms.ltb_spec, Prim2SF_one, Prim2SF_sixteen.
  unfold uint_of_double.
  pose proof (Prim2SF_valid k) as Hv.
  destruct (Prim2SF k) as [s|s| |s m e]; cbn [SF_signed] in Hs.
  - destruct s; reflexivity.
  - subst s. reflexivity.
  - contradiction.
  - subst s.
    destruct (valid_binary_mantissa false m e Hv) as [Hlt Hge].
    unfold SFltb, SFcompare. cbn [SF_trunc].
    rewrite (compare_cont_Eq m 4503599627370496),
      (compare_cont_Eq 4503599627370496 m).
    set (v := Z.shiftl (Z.pos m) e).
    assert (Hlow : e <= -53 \/ (e = -52 /\ Z.pos m < 2 ^ 52) -> v = 0).
    { intros H. unfold v. rewrite Z.shiftl_div_pow2 by lia.
      apply Z.div_small. split; [lia|].
      destruct H as [H|[-> H]]; [|exact H].
      assert (2 ^ 53 <= 2 ^ (- e)) by (apply Z.pow_le_mono_r; lia). lia. }
    assert (Hhigh : -48 <= e -> 2 ^ 52 <= Z.pos m -> 16 <= v).
    { intros He Hm. unfold v.
      destruct (Z_le_gt_dec 0 e) as [Hpos|Hneg].
      - rewrite Z.shiftl_mul_pow2 by lia.
        assert (1 <= 2 ^ e) by (apply (Z.pow_le_mono_r 2 0 e); lia). nia.
      - rewrite Z.shiftl_div_pow2 by lia.
        apply Z.div_le_lower_bound; [apply Z.pow_pos_nonneg; lia|].
        assert (2 ^ (- e) <= 2 ^ 48) by (apply Z.pow_le_mono_r; lia). lia. }
    assert (Hmid : -52 <= e <= -48 -> 2 ^ 52 <= Z.pos m ->
                   (e = -48 -> Z.pos m <= 2 ^ 52) -> 1 <= v <= 16).
    { intros He Hm H48. unfold v. rewrite Z.shiftl_div_pow2 by lia.
      assert (e = -52 \/ e = -51 \/ e = -50 \/ e = -49 \/ e = -48) as Hc by lia.
      destruct Hc as [->|[->|[->|[->| ->]]]]; cbn [Z.opp];
        (split; [apply Z.div_le_lower_bound|apply Z.div_le_upper_bound]);
        try specialize (H48 eq_refl); lia. }
    clearbody v. clear Hv.
    assert (Hu : 1 <= v <= 16 -> u32 v = v) by (intros; apply u32_small; lia).
    destruct (Z.compare_spec e (-52)) as [E1|E1|E1];
      destruct (Z.compare_spec (-48) e) as [E2|E2|E2];
      (destruct (Pos.compare_spec m 4503599627370496) as [P1|P1|P1];
       [apply (f_equal Z.pos) in P1|apply pos_lt_Z in P1..]);
      (destruct (Pos.compare_spec 4503599627370496 m) as [P2|P2|P2];
       [apply (f_equal Z.pos) in P2|apply pos_lt_Z in P2..]);
      cbv beta iota;
      match goal with
      | |- u32 v = _ => rewrite Hu; lia
      | |- _ => lia
      end.
Qed.

Lemma hash_k_signed (m n : Z) :
  0 <= m < 2 ^ 32 -> 0 < n < 2 ^ 32 -> SF_signed false (Prim2SF (hash_k m n)).
Proof.
  intros Hm Hn. unfold hash_k.
  rewrite FloatAxioms.div_spec, FloatAxioms.mul_spec, !double_of_u32_spec by lia.
  apply SFdiv_signed.
  - apply SFmul_signed.
    + reflexivity.
    + apply binary_normalize_signed. lia.
    + left. intros s. discriminate.
    + right. intros s. discriminate.
  - destruct n as [|p|p]; try lia.
    apply binary_normalize_finite. lia.
Qed.

(** [getIndexHashIterations] truncates and clamps. *)
Lemma getIndexHashIterations_clamp (indexSize itemCount : Z) :
  getIndexHashIterations indexSize itemCount =
  if u32 itemCount =? 0 then 1
  else Z.max 1 (Z.min 16
         (SF_trunc (Prim2SF (hash_k (u32 (u32 indexSize * 8)) (u32 itemCount))))).
Proof.
  unfold getIndexHashIterations.
  destruct (u32 itemCount =? 0) eqn:E.
  - reflexivity.
  - apply Z.eqb_neq in E. apply clamp_of_double, hash_k_signed.
    + apply u32_range.
    + pose proof (u32_range itemCount). lia.
Qed.

Lemma getIndexHashIterations_range (indexSize itemCount : Z) :
  1 <= getIndexHashIterations indexSize itemCount <= 16.
Proof.
  rewrite getIndexHashIterations_clamp.
  destruct (u32 itemCount =? 0); lia.
Qed.

End Binary64.

(** ** The specification's hash count *)

Section Ln2.
Local Open Scope R_scope.

Lemma exp_double (x : R) : exp (x + x) = exp x * exp x.
Proof. apply exp_plus. Qed.

Lemma square_le (a c : R) : 0 <= c -> c <= a -> c * c <= a * a.
Proof. intros H0 H. apply Rmult_le_compat; assumption. Qed.

Lemma exp_8_lower (x c : R) :
  0 <= c -> c <= exp x -> ((c * c) * (c * c)) * ((c * c) * (c * c)) <= exp (8 * x).
Proof.
  intros H0 H.
  replace (8 * x) with (((x + x) + (x + x)) + ((x + x) + (x + x))) by ring.
  rewrite !exp_double.
  assert (H2 : c * c <= exp x * exp x) by (apply square_le; assumption).
  assert (H02 : 0 <= c * c) by (apply Rmult_le_pos; assumption).
  assert (H4 : (c * c) * (c * c) <= (exp x * exp x) * (exp x * exp x))
    by (apply square_le; assumption).
  assert (H04 : 0 <= (c * c) * (c * c)) by (apply Rmult_le_pos; assumption).
  apply square_le; assumption.
Qed.

Lemma ln_2_upper : ln 2 < 3 / 4.
Proof.
  rewrite <- (ln_exp (3 / 4)).
  apply ln_increasing; [lra|].
  pose proof (exp_8_lower (3 / 32) (35 / 32) ltac:(lra)) as H.
  replace (8 * (3 / 32)) with (3 / 4) in H by field.
  pose proof (exp_ineq1_le (3 / 32)) as H1.
  specialize (H ltac:(lra)). lra.
Qed.

Lemma ln_2_lower : 3 / 5 < ln 2.
Proof.
  rewrite <- (ln_exp (3 / 5)).
  apply ln_increasing; [apply exp_pos|].
  pose proof (exp_8_lower (- (3 / 40)) (37 / 40) ltac:(lra)) as H.
  replace (8 * - (3 / 40)) with (- (3 / 5)) in H by field.
  pose proof (exp_ineq1_le (- (3 / 40))) as H1.
  specialize (H ltac:(lra)).
  pose proof (exp_plus (3 / 5) (- (3 / 5))) as P.
  replace (3 / 5 + - (3 / 5)) with 0 in P by ring.
  rewrite exp_0 in P.
  pose proof (exp_pos (3 / 5)) as Q.
  assert (Hh : / 2 < exp (- (3 / 5))) by lra.
  nra.
Qed.

End Ln2.

Lemma spec_hash_count_1024_3150 : spec_hash_count 1024 3150 = 2%Z.
Proof.
  unfold spec_hash_count, Rround.
  change (3150 =? 0)%Z with false. cbv iota.
  change (1024 * 8)%Z with 8192%Z.
  assert (E : Int_part (ln 2 * IZR 8192 / IZR 3150 + / 2) = 2%Z).
  { symmetry. apply Int_part_spec.
    pose proof ln_2_upper. pose proof ln_2_lower.
    split; lra. }
  rewrite E. reflexivity.
Qed.


(** ** The written record *)




Lemma set_bit_length (buf : list byte) (p : nat) :
  length (set_bit buf p) = length buf.
Proof.
  unfold set_bit. destruct (nth_error buf (p / 8)) as [b|] eqn:E; [|reflexivity].
  assert (p / 8 < length buf) by (apply nth_error_Some; congruence).
  rewrite !length_app, length_firstn, length_skipn. cbn [length]. lia.
Qed.

Lemma fold_set_bit_length (ps : list nat) :
  forall buf, length (fold_left set_bit ps buf) = length buf.
Proof.
  induction ps as [|p ps IH]; intros buf; cbn [fold_left].
  - reflexivity.
  - rewrite IH. apply set_bit_length.
Qed.

Section Written.

Variable LZ4_compressHC : list byte -> list byte.
Variable ngram : byte -> byte -> byte -> byte -> Z.
Variable bloomFilterBits : nat -> Z -> Z -> list nat.

Lemma bloomFilter_fold_length (size : nat) (iterations : Z) (vs : list Z) :
  forall buf,
    length (fold_left
              (fun data n => bloomFilterUpdate bloomFilterBits data size n iterations)
              vs buf) = length buf.
Proof.
  induction vs as [|v vs IH]; intros buf; cbn [fold_left].
  - reflexivity.
  - rewrite IH. unfold bloomFilterUpdate. apply fold_set_bit_length.
Qed.

Lemma prepareChunkIndex_spec (c : Chunk) :
  let index := prepareChunkIndex ngram bloomFilterBits c in
  length (fst index) = getChunkIndexSize c /\
  snd index =
    if getChunkIndexSize c =? 0 then 0%Z
    else getIndexHashIterations (u32_of_size (getChunkIndexSize c))
           (u32_of_size (length (chunk_ngrams ngram c))).
Proof.
  cbn zeta. unfold prepareChunkIndex.
  destruct (getChunkIndexSize c =? 0) eqn:E.
  - apply Nat.eqb_eq in E. rewrite E. split; reflexivity.
  - cbn [fst snd]. split; [|reflexivity].
    rewrite bloomFilter_fold_length. apply repeat_length.
Qed.

Lemma getChunkIndexSize_cases (c : Chunk) :
  (getChunkDataTotalSize c / 50 < 1024 /\ getChunkIndexSize c = 0) \/
  (1024 <= getChunkDataTotalSize c / 50 /\
   getChunkIndexSize c = getChunkDataTotalSize c / 50).
Proof.
  unfold getChunkIndexSize.
  destruct (getChunkDataTotalSize c / 50 <? 1024) eqn:E.
  - left. apply Nat.ltb_lt in E. auto.
  - right. apply Nat.ltb_ge in E. auto.
Qed.

(** C9 (as amended). For every chunk, the record the builder writes for it
    has no index, and a hash count of 0, when the bytes of the chunk's bodies
    divided by 50 are below 1024; otherwise the index holds exactly that many
    bytes, the header's [index_size] is that number as a 32-bit value, and the
    hash count lies between 1 and 16. *)
Theorem bloom_sizing (c : Chunk) :
  let w := emit LZ4_compressHC ngram bloomFilterBits c in
  let body := getChunkDataTotalSize c in
  (body / 50 < 1024 ->
   indexSize (w_header w) = 0%Z /\ indexHashIterations (w_header w) = 0%Z /\
   w_index w = []) /\
  (1024 <= body / 50 ->
   length (w_index w) = body / 50 /\
   indexSize (w_header w) = u32_of_size (body / 50) /\
   (1 <= indexHashIterations (w_header w) <= 16)%Z).
Proof.
  cbn zeta. unfold emit. cbn [w_header w_index writeChunk_header indexSize
                               indexHashIterations].
  destruct (prepareChunkIndex_spec c) as [Hl Hi]. cbn zeta in Hl, Hi.
  destruct (getChunkIndexSize_cases c) as [[Hlt E]|[Hge E]]; split; intros H;
    try lia; rewrite E in *.
  - rewrite Hl, Hi. cbn. split_and; try reflexivity.
    destruct (fst (prepareChunkIndex ngram bloomFilterBits c)); [reflexivity|].
    discriminate.
  - rewrite Hl, Hi.
    destruct (getChunkDataTotalSize c / 50 =? 0) eqn:E0;
      [apply Nat.eqb_eq in E0; lia|].
    pose proof (getIndexHashIterations_range
                  (u32_of_size (getChunkDataTotalSize c / 50))
                  (u32_of_size (length (chunk_ngrams ngram c)))).
    split_and; try reflexivity; lia.
Qed.

Lemma u32_idem (z : Z) : u32 (u32 z) = u32 z.
Proof. unfold u32. apply Z.mod_mod. lia. Qed.

(** C8 (as amended). For every chunk, the hash count in the written header is
    0 when the index is omitted and otherwise, with [m] the index bits as a
    32-bit value and [n] the number of distinct ngrams: 1 when [n = 0], else
    the binary64 number [0.693147181 * m / n] truncated toward zero (not
    rounded) and clamped to [1, 16]. *)
Theorem hash_count_truncated (c : Chunk) :
  let w := emit LZ4_compressHC ngram bloomFilterBits c in
  let size := getChunkIndexSize c in
  let m := u32 (u32_of_size size * 8) in
  let n := u32_of_size (length (chunk_ngrams ngram c)) in
  indexHashIterations (w_header w) =
  if size =? 0 then 0%Z
  else if (n =? 0)%Z then 1%Z
       else Z.max 1 (Z.min 16 (SF_trunc (Prim2SF (hash_k m n)))).
Proof.
  cbn zeta. unfold emit. cbn [w_header writeChunk_header indexHashIterations].
  destruct (prepareChunkIndex_spec c) as [_ Hi]. cbn zeta in Hi. rewrite Hi.
  destruct (getChunkIndexSize c =? 0); [reflexivity|].
  rewrite getIndexHashIterations_clamp.
  unfold u32_of_size. rewrite !u32_idem. reflexivity.
Qed.

End Written.


(** ** The startup diff of [getChanges] *)

Lemma ascii_compare_refl (a : ascii) : Ascii.compare a a = Eq.
Proof. unfold Ascii.compare. apply N.compare_refl. Qed.

Lemma string_compare_refl (a : string) : String.compare a a = Eq.
Proof.
  induction a as [|x a IH]; cbn [String.compare]; [reflexivity|].
  rewrite ascii_compare_refl. exact IH.
Qed.

Lemma ascii_compare_trans (a b c : ascii) :
  Ascii.compare a b = Lt -> Ascii.compare b c = Lt -> Ascii.compare a c = Lt.
Proof.
  unfold Ascii.compare. rewrite !N.compare_lt_iff. apply N.lt_trans.
Qed.

Lemma string_compare_trans (a : string) :
  forall b c, String.compare a b = Lt -> String.compare b c = Lt ->
    String.compare a c = Lt.
Proof.
  induction a as [|x a IH]; intros [|y b] [|z c]; cbn [String.compare];
    try discriminate; try reflexivity.
  destruct (Ascii.compare x y) eqn:Exy; try discriminate;
    destruct (Ascii.compare y z) eqn:Eyz; try discriminate; intros H1 H2.
  - apply Ascii.compare_eq_iff in Exy, Eyz. subst.
    rewrite ascii_compare_refl.
    eapply IH; eassumption.
  - apply Ascii.compare_eq_iff in Exy. subst. rewrite Eyz. reflexivity.
  - apply Ascii.compare_eq_iff in Eyz. subst. rewrite Exy. reflexivity.
  - rewrite (ascii_compare_trans x y z Exy Eyz). reflexivity.
Qed.

Lemma path_lt_trans (a b c : string) : path_lt a b -> path_lt b c -> path_lt a c.
Proof.
  unfold path_lt, String.ltb. intros H1 H2.
  destruct (String.compare a b) eqn:E1; try discriminate.
  destruct (String.compare b c) eqn:E2; try discriminate.
  rewrite (string_compare_trans a b c E1 E2). reflexivity.
Qed.

Lemma path_lt_irrefl (a : string) : ~ path_lt a a.
Proof. unfold path_lt, String.ltb. rewrite string_compare_refl. discriminate. Qed.

Lemma path_lt_neq (a b : string) : path_lt a b -> String.eqb a b = false.
Proof.
  intros H. apply String.eqb_neq. intros ->. exact (path_lt_irrefl b H).
Qed.

Lemma path_lt_asym (a b : string) : path_lt a b -> String.ltb b a = false.
Proof.
  intros H. destruct (String.ltb b a) eqn:E; [|reflexivity].
  exfalso. exact (path_lt_irrefl a (path_lt_trans a b a H E)).
Qed.

Lemma path_total (a b : string) :
  String.ltb a b = false -> String.eqb a b = false -> path_lt b a.
Proof.
  unfold path_lt, String.ltb. intros H1 H2.
  rewrite String.compare_antisym.
  destruct (String.compare a b) eqn:E; try discriminate; try reflexivity.
  apply String.compare_eq_iff in E. subst. rewrite String.eqb_refl in H2.
  discriminate.
Qed.

Lemma lower_upper (p : string) (rest : list FileInfo) :
  lower p rest ++ upper p rest = rest.
Proof.
  induction rest as [|f r IH]; cbn; [reflexivity|].
  destruct (String.ltb (fi_path f) p); cbn; [rewrite IH|]; reflexivity.
Qed.

Lemma lower_lt (p : string) (rest : list FileInfo) :
  Forall (fun f => path_lt (fi_path f) p) (lower p rest).
Proof.
  induction rest as [|f r IH]; cbn; [constructor|].
  destruct (String.ltb (fi_path f) p) eqn:E; constructor; assumption.
Qed.

Lemma upper_head (p : string) (rest : list FileInfo) (h : FileInfo)
    (t : list FileInfo) :
  upper p rest = h :: t -> String.ltb (fi_path h) p = false.
Proof.
  induction rest as [|f r IH]; cbn; [discriminate|].
  destruct (String.ltb (fi_path f) p) eqn:E; [exact IH|].
  intros [= -> _]. exact E.
Qed.

Lemma sorted_app_r (l1 l2 : list FileInfo) :
  sorted_by_path (l1 ++ l2) -> sorted_by_path l2.
Proof.
  induction l1 as [|x l1 IH]; cbn; [auto|].
  intros H. inversion H; subst. auto.
Qed.

Lemma hd_error_skipn (files : list FileInfo) :
  forall i, nth_error files i = hd_error (skipn i files).
Proof.
  induction files as [|f r IH]; intros [|i]; cbn; auto.
Qed.

Lemma skipn_S_tl (files : list FileInfo) :
  forall i, skipn (S i) files = tl (skipn i files).
Proof.
  induction files as [|f r IH]; intros [|i]; cbn [skipn tl]; auto.
  rewrite <- IH. reflexivity.
Qed.

Lemma getChanges_skip_spec (files : list FileInfo) (pf : FileInfo) :
  forall fuel fileIt result,
    length (skipn fileIt files) <= fuel ->
    getChanges_skip fuel files fileIt pf result =
    (fileIt + length (lower (fi_path pf) (skipn fileIt files)),
     result ++ map fi_path (lower (fi_path pf) (skipn fileIt files))).
Proof.
  induction fuel as [|fuel IH]; intros fileIt result Hf; cbn [getChanges_skip].
  - destruct (skipn fileIt files); [|cbn in Hf; lia].
    cbn. rewrite Nat.add_0_r, app_nil_r. reflexivity.
  - rewrite hd_error_skipn.
    pose proof (skipn_S_tl files fileIt) as Htl.
    destruct (skipn fileIt files) as [|f r] eqn:E; cbn [hd_error lower].
    + cbn. rewrite Nat.add_0_r, app_nil_r. reflexivity.
    + cbn [tl] in Htl.
      destruct (String.ltb (fi_path f) (fi_path pf)) eqn:L.
      * rewrite IH by (rewrite Htl; cbn in Hf; lia).
        rewrite Htl. cbn [length map]. rewrite <- app_assoc. cbn [app].
        f_equal. lia.
      * cbn. rewrite Nat.add_0_r, app_nil_r. reflexivity.
Qed.

Lemma not_in_pack_above (pack : list FileInfo) (f : FileInfo) :
  Forall (fun pf => path_lt (fi_path f) (fi_path pf)) pack ->
  in_pack pack f = false.
Proof.
  induction 1 as [|pf pack H _ IH]; cbn; [reflexivity|].
  unfold same_entry. rewrite (path_lt_neq _ _ H). cbn. exact IH.
Qed.

Lemma in_pack_skip (pf : FileInfo) (pack : list FileInfo) (f : FileInfo) :
  String.eqb (fi_path f) (fi_path pf) = false ->
  in_pack (pf :: pack) f = in_pack pack f.
Proof. intros H. cbn. unfold same_entry. rewrite H. reflexivity. Qed.

Lemma getChanges_loop_spec (files : list FileInfo) :
  forall pack fileIt result,
    sorted_by_path (skipn fileIt files) -> sorted_by_path pack ->
    Forall (fun pf => exists f, In f (skipn fileIt files) /\
                               String.ltb (fi_path f) (fi_path pf) = false) pack ->
    getChanges_loop files pack fileIt result =
    Some (result ++ startup_diff (skipn fileIt files) pack).
Proof.
  induction pack as [|pf pack IH]; intros fileIt result Hs Hp Hb;
    cbn [getChanges_loop].
  - unfold startup_diff. f_equal. f_equal. f_equal.
    symmetry. apply forallb_filter_id. apply forallb_forall. reflexivity.
  - inversion Hp as [|? ? Hp' Hlt]; subst.
    inversion Hb as [|? ? (w & Hw & Hwlt) Hb']; subst.
    assert (Hfuel : length (skipn fileIt files) <= length files)
      by (rewrite length_skipn; lia).
    rewrite (getChanges_skip_spec files pf _ fileIt result Hfuel).
    set (rest := skipn fileIt files) in *.
    set (p := fi_path pf).
    pose proof (lower_upper p rest) as Hlu.
    pose proof (lower_lt p rest) as Hlo.
    set (lo := lower p rest) in *. set (hi := upper p rest) in *.
    assert (Hskip : skipn (fileIt + length lo) files = hi).
    { rewrite Nat.add_comm, <- skipn_skipn. fold rest. rewrite <- Hlu.
      rewrite skipn_app, skipn_all, Nat.sub_diag. reflexivity. }
    assert (Hlo_diff : filter (fun f => negb (in_pack (pf :: pack) f)) lo = lo).
    { apply forallb_filter_id. apply forallb_forall. intros f Hf.
      rewrite Forall_forall in Hlo. specialize (Hlo f Hf).
      rewrite not_in_pack_above; [reflexivity|].
      constructor; [exact Hlo|].
      rewrite Forall_forall in Hlt |- *. intros q Hq.
      exact (path_lt_trans _ _ _ Hlo (Hlt q Hq)). }
    assert (Hw_hi : forall q f, path_lt p (fi_path q) \/ q = pf ->
                      In f rest -> String.ltb (fi_path f) (fi_path q) = false ->
                      In f hi).
    { intros q f Hq Hf Hfq. rewrite <- Hlu in Hf. apply in_app_or in Hf.
      destruct Hf as [Hf|Hf]; [|exact Hf]. exfalso.
      rewrite Forall_forall in Hlo. specialize (Hlo f Hf).
      destruct Hq as [Hq| ->].
      - pose proof (path_lt_trans _ _ _ Hlo Hq) as C. unfold path_lt in C.
        congruence.
      - unfold path_lt in Hlo. fold p in Hfq. congruence. }
    assert (Hhi_sorted : sorted_by_path hi).
    { apply (sorted_app_r lo). rewrite Hlu. exact Hs. }
    destruct hi as [|h t] eqn:Ehi.
    { exfalso. exact (Hw_hi pf w (or_intror eq_refl) Hw Hwlt). }
    rewrite hd_error_skipn, Hskip. cbn [hd_error].
    pose proof (upper_head p rest h t Ehi) as Hh.
    inversion Hhi_sorted as [|? ? Ht_sorted Hht]; subst.
    unfold startup_diff. rewrite <- Hlu, filter_app, map_app, Hlo_diff.
    destruct (String.eqb (fi_path h) p) eqn:Eeq.
    + (* the same path: compared, then passed *)
      apply String.eqb_eq in Eeq.
      rewrite IH; cycle 1.
      * rewrite skipn_S_tl, Hskip. exact Ht_sorted.
      * exact Hp'.
      * rewrite skipn_S_tl, Hskip. cbn [tl].
        rewrite Forall_forall in Hb', Hlt |- *. intros q Hq.
        destruct (Hb' q Hq) as (f & Hf & Hfq). exists f. split; [|exact Hfq].
        pose proof (Hw_hi q f (or_introl (Hlt q Hq)) Hf Hfq) as [<-|Hin];
          [|exact Hin].
        exfalso. rewrite Eeq in Hfq. pose proof (Hlt q Hq) as C.
        unfold path_lt in C. fold p in C. congruence.
      * rewrite skipn_S_tl, Hskip. cbn [tl]. f_equal.
        assert (Ht_diff : filter (fun f => negb (in_pack (pf :: pack) f)) t =
                          filter (fun f => negb (in_pack pack f)) t).
        { apply filter_ext_in. intros f Hf. rewrite in_pack_skip; [reflexivity|].
          rewrite Forall_forall in Hht. specialize (Hht f Hf).
          rewrite Eeq in Hht. rewrite String.eqb_sym. apply path_lt_neq, Hht. }
        assert (Hh_pack : in_pack pack h = false).
        { apply not_in_pack_above. rewrite Eeq. exact Hlt. }
        assert (Hh_in : in_pack (pf :: pack) h =
                        (fi_timeStamp h =? fi_timeStamp pf)%Z &&
                        (fi_fileSize h =? fi_fileSize pf)%Z).
        { unfold in_pack. cbn [existsb]. fold (in_pack pack h).
          rewrite Hh_pack, orb_false_r. unfold same_entry. fold p.
          rewrite Eeq, String.eqb_refl. reflexivity. }
        cbn [filter]. rewrite Ht_diff, Hh_in. unfold startup_diff.
        destruct (fi_timeStamp h =? fi_timeStamp pf)%Z;
          destruct (fi_fileSize h =? fi_fileSize pf)%Z; cbn;
          rewrite <- ?app_assoc; reflexivity.
    + (* a later path: the pack entry has no current file *)
      assert (Hph : path_lt p (fi_path h)) by (apply path_total; assumption).
      fold p in Hlt.
      rewrite IH; cycle 1.
      * rewrite Hskip. exact Hhi_sorted.
      * exact Hp'.
      * rewrite Hskip. rewrite Forall_forall in Hb', Hlt |- *. intros q Hq.
        destruct (Hb' q Hq) as (f & Hf & Hfq). exists f. split; [|exact Hfq].
        exact (Hw_hi q f (or_introl (Hlt q Hq)) Hf Hfq).
      * rewrite Hskip. f_equal. rewrite <- app_assoc. f_equal.
        unfold startup_diff. f_equal. f_equal. apply filter_ext_in. intros f Hf.
        rewrite in_pack_skip; [reflexivity|].
        rewrite String.eqb_sym. apply path_lt_neq.
        destruct Hf as [<-|Hf]; [exact Hph|].
        rewrite Forall_forall in Hht.
        exact (path_lt_trans _ _ _ Hph (Hht f Hf)).
Qed.

(** X1. When no pack path lies behind every current path, [getChanges] returns the
    startup diff of two lists sorted by path. *)
Theorem getChanges_diff (files packFiles : list FileInfo) :
  sorted_by_path files -> sorted_by_path packFiles ->
  Forall (fun pf => exists f, In f files /\
                             String.ltb (fi_path f) (fi_path pf) = false)
    packFiles ->
  getChanges files packFiles = Some (startup_diff files packFiles).
Proof.
  intros Hs Hp Hb. unfold getChanges.
  rewrite (getChanges_loop_spec files packFiles 0 []); auto.
Qed.

Lemma lower_all (p : string) (rest : list FileInfo) :
  Forall (fun f => path_lt (fi_path f) p) rest -> upper p rest = [].
Proof.
  induction 1 as [|f r H _ IH]; cbn; [reflexivity|].
  unfold path_lt in H. rewrite H. exact IH.
Qed.

Lemma In_skipn_le (files : list FileInfo) (i j : nat) (f : FileInfo) :
  i <= j -> In f (skipn j files) -> In f (skipn i files).
Proof.
  intros Hij Hf. replace j with ((j - i) + i) in Hf by lia.
  rewrite <- skipn_skipn in Hf.
  rewrite <- (firstn_skipn (j - i) (skipn i files)).
  apply in_or_app. right. exact Hf.
Qed.

Lemma getChanges_loop_past_the_end (files : list FileInfo) :
  forall pack fileIt result,
    (exists pf, In pf pack /\
       Forall (fun f => path_lt (fi_path f) (fi_path pf)) (skipn fileIt files)) ->
    getChanges_loop files pack fileIt result = None.
Proof.
  induction pack as [|q pack IH]; intros fileIt result (pf & Hin & Hall);
    [destruct Hin|].
  cbn [getChanges_loop].
  assert (Hfuel : length (skipn fileIt files) <= length files)
    by (rewrite length_skipn; lia).
  rewrite (getChanges_skip_spec files q _ fileIt result Hfuel).
  set (rest := skipn fileIt files) in *.
  pose proof (lower_upper (fi_path q) rest) as Hlu.
  pose proof (lower_all (fi_path q) rest) as Hall_q.
  set (lo := lower (fi_path q) rest) in *.
  set (hi := upper (fi_path q) rest) in *.
  assert (Hskip : skipn (fileIt + length lo) files = hi).
  { rewrite Nat.add_comm, <- skipn_skipn. fold rest. rewrite <- Hlu.
    rewrite skipn_app, skipn_all, Nat.sub_diag. reflexivity. }
  rewrite hd_error_skipn, Hskip.
  destruct Hin as [->|Hin].
  - rewrite (Hall_q Hall). reflexivity.
  - destruct hi as [|h t] eqn:Eu; [reflexivity|].
    cbn [hd_error].
    assert (Hnext : forall j, fileIt <= j ->
              Forall (fun f => path_lt (fi_path f) (fi_path pf)) (skipn j files)).
    { intros j Hj. rewrite Forall_forall in Hall |- *. intros f Hf.
      apply Hall. exact (In_skipn_le files fileIt j f Hj Hf). }
    destruct (String.eqb (fi_path h) (fi_path q)); apply IH; exists pf;
      (split; [exact Hin|apply Hnext; lia]).
Qed.

(** X2. As soon as one pack path lies behind every current path, [getChanges]
    reads past the end of the current list. *)
Theorem getChanges_past_the_end (files packFiles : list FileInfo)
    (pf : FileInfo) :
  In pf packFiles ->
  Forall (fun f => path_lt (fi_path f) (fi_path pf)) files ->
  getChanges files packFiles = None.
Proof.
  intros Hin Hall. apply getChanges_loop_past_the_end. exists pf. auto.
Qed.

(** ** The builder as a stream transformer *)

Lemma tagged_app (l1 l2 : list File) : tagged (l1 ++ l2) = tagged l1 ++ tagged l2.
Proof. unfold tagged. apply flat_map_app. Qed.

Lemma length_numbered (data : list byte) :
  forall line, length (numbered line data) = length data.
Proof.
  induction data as [|c r IH]; intros line; cbn; [reflexivity|].
  rewrite IH. reflexivity.
Qed.

Lemma u32_succ_eq (a b : Z) : u32 a = u32 b -> u32 (a + 1) = u32 (b + 1).
Proof.
  unfold u32. intros H.
  rewrite <- (Z.add_mod_idemp_l a), <- (Z.add_mod_idemp_l b), H by lia.
  reflexivity.
Qed.

Lemma numbered_u32_eq (data : list byte) :
  forall a b, u32 a = u32 b -> numbered a data = numbered b data.
Proof.
  induction data as [|c r IH]; intros a b H; cbn [numbered]; [reflexivity|].
  rewrite H. f_equal. apply IH.
  destruct (is_newline c); [apply u32_succ_eq|]; exact H.
Qed.

Lemma numbered_app (l1 l2 : list byte) :
  forall line,
    numbered line (l1 ++ l2) =
    numbered line l1 ++ numbered (line + Z.of_nat (count_newlines l1)) l2.
Proof.
  induction l1 as [|c l1 IH]; intros line; cbn [app numbered].
  - cbn. rewrite Z.add_0_r. reflexivity.
  - rewrite IH, count_newlines_cons. f_equal. f_equal. f_equal.
    destruct (is_newline c); lia.
Qed.

Lemma tagged_one (f : File) :
  tagged [f] =
  map (fun p => (name f, timeStamp f, fileSize f, fst p, snd p))
    (numbered (startLine f) (Blob_data (contents f))).
Proof. unfold tagged. cbn [flat_map]. apply app_nil_r. Qed.

Lemma tagged_length (fs : list File) :
  Forall File_wf fs -> length (tagged fs) = sizes fs.
Proof.
  induction 1 as [|f fs Hf _ IH].
  - reflexivity.
  - change (f :: fs) with ([f] ++ fs).
    rewrite tagged_app, length_app, tagged_one, length_map, length_numbered.
    rewrite IH, sizes_app, (Blob_data_length _ Hf). f_equal.
Qed.

Lemma splitPrefix_data (file : File) (size : nat) :
  size <= Blob_size (contents file) ->
  Blob_data (contents (fst (splitPrefix file size))) ++
  Blob_data (contents (snd (splitPrefix file size))) =
  Blob_data (contents file).
Proof.
  unfold Blob_size, splitPrefix, Blob_data. cbn [fst snd contents offset count storage].
  intros Hs.
  rewrite <- (firstn_skipn size (firstn (count (contents file)) _)).
  f_equal.
  - rewrite firstn_firstn, Nat.min_l by exact Hs. reflexivity.
  - rewrite skipn_firstn_comm, skipn_skipn. f_equal. f_equal. lia.
Qed.

(** A cut keeps the line numbers when the rest starts as many lines further
    as the prefix has newlines, or when the rest is empty. *)
Lemma splitPrefix_tagged (file : File) (size : nat) (lines : Z) :
  size <= Blob_size (contents file) ->
  Blob_data (contents (snd (splitPrefix file size))) = [] \/
  lines =
    Z.of_nat (count_newlines (Blob_data (contents (fst (splitPrefix file size))))) ->
  tagged [fst (splitPrefix file size)] ++
  tagged [File_addLines (snd (splitPrefix file size)) lines] =
  tagged [file].
Proof.
  intros Hs Hl. rewrite !tagged_one.
  rewrite <- (splitPrefix_data file size Hs), numbered_app, map_app.
  f_equal. cbn [File_addLines name timeStamp fileSize contents startLine].
  change (name (snd (splitPrefix file size))) with (name file).
  change (timeStamp (snd (splitPrefix file size))) with (timeStamp file).
  change (fileSize (snd (splitPrefix file size))) with (fileSize file).
  change (startLine (snd (splitPrefix file size))) with (startLine file).
  f_equal. destruct Hl as [-> | ->]; [reflexivity|].
  apply numbered_u32_eq. unfold u32. apply Z.mod_mod. lia.
Qed.

Lemma skipOneLine_loop_first (data : list byte) :
  forall i dataSize,
    skipOneLine_loop data i dataSize =
    match first_newline data with
    | Some k => i + k + 1
    | None => dataSize
    end.
Proof.
  induction data as [|c r IH]; intros i n; cbn [skipOneLine_loop first_newline].
  - reflexivity.
  - destruct (is_newline c); [lia|].
    rewrite IH. destruct (first_newline r); cbn [option_map]; lia.
Qed.

Lemma first_newline_count (data : list byte) (k : nat) :
  first_newline data = Some k -> count_newlines (firstn (k + 1) data) = 1.
Proof.
  revert k. induction data as [|c r IH]; intros k; cbn [first_newline];
    [discriminate|].
  destruct (is_newline c) eqn:N.
  - intros [= <-]. cbn [Nat.add firstn]. rewrite count_newlines_cons, N.
    reflexivity.
  - destruct (first_newline r) as [j|]; [|discriminate]. cbn [option_map].
    intros [= <-]. cbn [Nat.add firstn]. rewrite count_newlines_cons, N.
    replace (S j) with (j + 1) by lia. rewrite (IH j eq_refl). reflexivity.
Qed.

Lemma appendChunkFilePrefix_tagged (chunk : Chunk) (file : File) (r : nat) :
  File_wf file -> r < Blob_size (contents file) -> (Z.of_nat r < 2 ^ 31)%Z ->
  tagged (files (fst (appendChunkFilePrefix chunk file r))) ++
  tagged [snd (appendChunkFilePrefix chunk file r)] =
  tagged (files chunk) ++ tagged [file].
Proof.
  intros Hf Hr Hint. unfold appendChunkFilePrefix.
  rewrite skipByLines_spec by exact Hint. cbn [fst snd].
  set (data := Blob_data (contents file)).
  set (dataSize := Blob_size (contents file)) in *.
  assert (Hlen : length data = dataSize) by (apply Blob_data_length; exact Hf).
  set (L := lineEnd (firstn r data)).
  assert (HL : L <= r).
  { unfold L. pose proof (lineEnd_le (firstn r data)).
    pose proof (firstn_le_length r data). lia. }
  pose proof (skipOneLine_le data dataSize) as Hone.
  match goal with
  | |- context [if ?c then _ else _] => destruct c eqn:E
  end; [|reflexivity].
  set (s := if 0 <? L then L else skipOneLine data dataSize).
  set (lines := if 0 <? L then Z.of_nat (count_newlines (firstn r data))
                else 1%Z).
  assert (Hs : s <= dataSize) by (unfold s; destruct (0 <? L); lia).
  pose proof (splitPrefix_spec file s Hf Hs) as S.
  pose proof (splitPrefix_tagged file s lines Hs) as T.
  destruct (splitPrefix file s) as [prefix rest] eqn:Esp.
  cbn [fst snd files] in *. destruct S as (_ & Wr & Sp & Ssum & Dp).
  fold data in Dp. fold dataSize in Ssum.
  assert (Hrest : length (Blob_data (contents rest)) = dataSize - s).
  { rewrite (Blob_data_length _ Wr). unfold dataSize, Blob_size in *. lia. }
  rewrite tagged_app, <- app_assoc. f_equal. apply T. rewrite Dp.
  clear T Esp. revert Hrest.
  unfold s, lines. destruct (0 <? L) eqn:EL; intros Hrest.
  - right.
    pose proof (lineEnd_count (firstn r data)) as C. fold L in C.
    rewrite firstn_firstn, Nat.min_l in C by exact HL. rewrite C. reflexivity.
  - unfold skipOneLine. rewrite skipOneLine_loop_first.
    rewrite <- Hlen, firstn_all.
    destruct (first_newline data) as [k|] eqn:Ek.
    + right. cbn [Nat.add]. rewrite (first_newline_count data k Ek).
      reflexivity.
    + left. apply length_zero_iff_nil. rewrite Hrest.
      unfold skipOneLine. rewrite skipOneLine_loop_first.
      replace (firstn dataSize data) with data
        by (rewrite <- Hlen; symmetry; apply firstn_all).
      rewrite Ek. lia.
Qed.

Lemma flushChunk_loop_tagged (size : nat) :
  (Z.of_nat size < 2 ^ 31)%Z ->
  forall (pending : list File) (chunk : Chunk),
    Forall File_wf pending ->
    tagged (files (fst (flushChunk_loop size chunk pending))) ++
    tagged (snd (flushChunk_loop size chunk pending)) =
    tagged (files chunk) ++ tagged pending.
Proof.
  intros Hint.
  induction pending as [|file rest IH]; intros chunk Hp; cbn [flushChunk_loop].
  - reflexivity.
  - inversion Hp as [|? ? Wf Wrest]; subst.
    destruct (totalSize chunk <? size) eqn:Elt; [|reflexivity].
    apply Nat.ltb_lt in Elt.
    destruct (Blob_size (contents file) <=? size - totalSize chunk) eqn:Efit.
    + rewrite (IH (appendChunkFile chunk file) Wrest).
      cbn [appendChunkFile files]. rewrite tagged_app, <- app_assoc.
      change (file :: rest) with ([file] ++ rest). rewrite (tagged_app [file]).
      reflexivity.
    + apply Nat.leb_gt in Efit.
      pose proof (appendChunkFilePrefix_tagged chunk file (size - totalSize chunk)
                    Wf Efit ltac:(lia)) as T.
      destruct (appendChunkFilePrefix chunk file (size - totalSize chunk))
        as [chunk' file'].
      cbn [fst snd] in *.
      change (file' :: rest) with ([file'] ++ rest).
      change (file :: rest) with ([file] ++ rest).
      rewrite !tagged_app, !app_assoc. f_equal. exact T.
Qed.

Lemma File_of_part_fields path sl data t s :
  File_fields (File_of_part path sl data t s).
Proof.
  unfold File_fields, File_of_part. cbn [startLine fileSize timeStamp].
  unfold u32, u64. split; [|split]; apply Z.mod_pos_bound; lia.
Qed.

Lemma appendChunkFilePrefix_fields (chunk : Chunk) (file : File) (r : nat) :
  Forall File_fields (files chunk) -> File_fields file ->
  Forall File_fields (files (fst (appendChunkFilePrefix chunk file r))) /\
  File_fields (snd (appendChunkFilePrefix chunk file r)).
Proof.
  intros Hc Hf. unfold appendChunkFilePrefix.
  match goal with
  | |- context [if ?c then _ else _] => destruct c
  end; [|cbn [fst snd]; auto].
  match goal with
  | |- context [splitPrefix file ?s] => generalize s
  end.
  intros s. unfold splitPrefix. cbn [fst snd files].
  destruct Hf as (F1 & F2 & F3). split.
  - apply Forall_app. split; [exact Hc|]. constructor; [|constructor].
    unfold File_fields. cbn. auto.
  - unfold File_fields, File_addLines. cbn [startLine fileSize timeStamp].
    split; [|split]; [unfold u32; apply Z.mod_pos_bound; lia|exact F2|exact F3].
Qed.

Lemma flushChunk_loop_fields (size : nat) :
  forall (pending : list File) (chunk : Chunk),
    Forall File_fields (files chunk) -> Forall File_fields pending ->
    Forall File_fields (files (fst (flushChunk_loop size chunk pending))) /\
    Forall File_fields (snd (flushChunk_loop size chunk pending)).
Proof.
  induction pending as [|file rest IH]; intros chunk Hc Hp;
    cbn [flushChunk_loop].
  - auto.
  - inversion Hp as [|? ? Ff Frest]; subst.
    destruct (totalSize chunk <? size); [|auto].
    destruct (Blob_size (contents file) <=? size - totalSize chunk).
    + apply IH; [|exact Frest]. cbn [appendChunkFile files].
      apply Forall_app. split; [exact Hc|]. constructor; [exact Ff|constructor].
    + pose proof (appendChunkFilePrefix_fields chunk file (size - totalSize chunk)
                    Hc Ff) as [A B].
      destruct (appendChunkFilePrefix chunk file (size - totalSize chunk))
        as [chunk' file'].
      cbn [fst snd] in *. split; [exact A|]. constructor; assumption.
Qed.

Section BuilderTrace.

Variable kChunkSize : nat.
Variable LZ4_compressHC : list byte -> list byte.
Variable ngram : byte -> byte -> byte -> byte -> Z.
Variable bloomFilterBits : nat -> Z -> Z -> list nat.
Variable readFileUTF8 : string -> option (Z * Z * list byte).

Hypothesis kChunkSize_pos : 0 < kChunkSize.
Hypothesis kChunkSize_int : (Z.of_nat kChunkSize < 2 ^ 31)%Z.

Local Abbreviation flushChunk_t := (flushChunk LZ4_compressHC ngram bloomFilterBits).
Local Abbreviation flush_t := (flush kChunkSize LZ4_compressHC ngram bloomFilterBits).
Local Abbreviation flushIfNeeded_t :=
  (flushIfNeeded kChunkSize LZ4_compressHC ngram bloomFilterBits).
Local Abbreviation emit_t := (emit LZ4_compressHC ngram bloomFilterBits).
Local Abbreviation Trace_t := (Trace LZ4_compressHC ngram bloomFilterBits).
Local Abbreviation run_op_t :=
  (run_op kChunkSize LZ4_compressHC ngram bloomFilterBits readFileUTF8).
Local Abbreviation run_t :=
  (run kChunkSize LZ4_compressHC ngram bloomFilterBits readFileUTF8).

Lemma count_startLine0_app (l1 l2 : list File) :
  count_startLine0 (l1 ++ l2) = count_startLine0 l1 + count_startLine0 l2.
Proof. unfold count_startLine0. rewrite filter_app, length_app. reflexivity. Qed.

Lemma u64_add_l (a b : Z) : u64 (u64 a + b) = u64 (a + b).
Proof. unfold u64. apply Z.add_mod_idemp_l. lia. Qed.

Lemma Statistics_of_snoc (cs : list Chunk) (c : Chunk) :
  Statistics_of LZ4_compressHC (cs ++ [c]) =
  let s := Statistics_of LZ4_compressHC cs in
  let data := prepareChunkData c in
  {| stat_fileCount := stat_fileCount s + count_startLine0 (files c);
     stat_fileSize := u64 (stat_fileSize s + Z.of_nat (length data));
     stat_resultSize :=
       u64 (stat_resultSize s + Z.of_nat (length (LZ4_compressHC data))) |}.
Proof.
  cbn zeta. unfold Statistics_of.
  cbn [stat_fileCount stat_fileSize stat_resultSize].
  rewrite flat_map_app, count_startLine0_app, !map_app, !list_sum_app.
  cbn [flat_map map]. rewrite app_nil_r, !u64_add_l.
  f_equal; f_equal; cbn [list_sum fold_right]; lia.
Qed.

(** One cut keeps the trace. *)
Lemma flushChunk_trace (fs : list File) (cs : list Chunk) (b : BuilderImpl) :
  BuilderInv b -> Trace_t fs cs b ->
  exists cs', Trace_t fs cs' (flushChunk_t kChunkSize b).
Proof.
  intros [_ Hwf] (To & Tt & Ts & Tw & Tf). unfold flushChunk.
  apply Forall_app in Tf. destruct Tf as [Tfc Tfp].
  pose proof (flushChunk_loop_tagged kChunkSize kChunkSize_int (pendingFiles b)
                Chunk_empty Hwf) as T.
  pose proof (flushChunk_loop_fields kChunkSize (pendingFiles b) Chunk_empty
                (Forall_nil _) Tfp) as [Fc Fp].
  pose proof (flushChunk_loop_spec kChunkSize kChunkSize_int (pendingFiles b)
                Chunk_empty ChunkInv_empty Hwf ltac:(cbn; lia)) as S.
  destruct (flushChunk_loop kChunkSize Chunk_empty (pendingFiles b))
    as [c pending'].
  destruct S as ([_ Wc] & _).
  cbn [fst snd] in T, Fc, Fp.
  change (tagged (files c) ++ tagged pending' = tagged (pendingFiles b)) in T.
  unfold flushChunk_write.
  destruct (files c) as [|f0 fs0] eqn:Ef.
  - exists cs. unfold Trace. cbn [outData pendingFiles statistics].
    split_and; auto.
    + rewrite <- Tt, <- T. reflexivity.
    + apply Forall_app. split; assumption.
  - exists (cs ++ [c]). unfold Trace, writeChunk.
    cbn [outData pendingFiles statistics].
    rewrite flat_map_app. cbn [flat_map]. rewrite app_nil_r.
    split_and.
    + rewrite To, map_app. reflexivity.
    + rewrite tagged_app, <- app_assoc, Ef, T. exact Tt.
    + rewrite Statistics_of_snoc, <- Ts, Ef. reflexivity.
    + apply Forall_app. split; [exact Tw|]. rewrite Ef. exact Wc.
    + rewrite Ef. repeat (apply Forall_app; split); assumption.
Qed.

Lemma flush_trace (fuel : nat) (fs : list File) :
  forall cs b b', BuilderInv b -> Trace_t fs cs b -> flush_t fuel b = Some b' ->
    BuilderInv b' /\ pendingSize b' = 0 /\ exists cs', Trace_t fs cs' b'.
Proof.
  induction fuel as [|fuel IH]; intros cs b b' Hb Ht; cbn [flush];
    destruct (0 <? pendingSize b) eqn:E; try discriminate.
  - intros [= <-]. apply Nat.ltb_ge in E. split_and; eauto. lia.
  - intros H. destruct (flushChunk_trace fs cs b Hb Ht) as [cs1 Ht1].
    apply (IH cs1 _ _
             (proj1 (flushChunk_spec kChunkSize LZ4_compressHC ngram
                       bloomFilterBits kChunkSize_pos kChunkSize_int b Hb)) Ht1 H).
  - intros [= <-]. apply Nat.ltb_ge in E. split_and; eauto. lia.
Qed.

Lemma flushIfNeeded_trace (fuel : nat) (fs : list File) :
  forall cs b b', BuilderInv b -> Trace_t fs cs b ->
    flushIfNeeded_t fuel b = Some b' ->
    BuilderInv b' /\ pendingSize b' < kChunkSize * 2 /\
    exists cs', Trace_t fs cs' b'.
Proof.
  induction fuel as [|fuel IH]; intros cs b b' Hb Ht; cbn [flushIfNeeded];
    destruct (kChunkSize * 2 <=? pendingSize b) eqn:E; try discriminate.
  - intros [= <-]. apply Nat.leb_gt in E. split_and; eauto.
  - intros H. destruct (flushChunk_trace fs cs b Hb Ht) as [cs1 Ht1].
    apply (IH cs1 _ _
             (proj1 (flushChunk_spec kChunkSize LZ4_compressHC ngram
                       bloomFilterBits kChunkSize_pos kChunkSize_int b Hb)) Ht1 H).
  - intros [= <-]. apply Nat.leb_gt in E. split_and; eauto.
Qed.

Lemma enqueue_trace path sl data t s (fs : list File) (cs : list Chunk)
    (b : BuilderImpl) :
  Trace_t fs cs b ->
  Trace_t (fs ++ [File_of_part path sl data t s]) cs (enqueue path sl data t s b).
Proof.
  intros (To & Tt & Ts & Tw & Tf). unfold Trace, enqueue.
  cbn [outData pendingFiles statistics]. split_and; auto.
  - rewrite !tagged_app, app_assoc, Tt. reflexivity.
  - rewrite app_assoc. apply Forall_app. split; [exact Tf|].
    constructor; [apply File_of_part_fields|constructor].
Qed.

Lemma run_op_trace (fuel : nat) (op : BuilderOp) (fs : list File)
    (cs : list Chunk) (b b' : BuilderImpl) :
  BuilderInv b -> Trace_t fs cs b -> run_op_t fuel op b = Some b' ->
  BuilderInv b' /\
  exists cs', Trace_t (fs ++ appended readFileUTF8 [op]) cs' b'.
Proof.
  intros Hb Ht. unfold appended. cbn [flat_map]. rewrite app_nil_r.
  destruct op as [path|path sl data t s|]; cbn [run_op].
  - unfold appendFile.
    destruct (readFileUTF8 path) as [[[t s] data]|].
    + unfold appendFilePart. fold (enqueue path 0 data t s b).
      destruct (flushIfNeeded_t fuel (enqueue path 0 data t s b)) as [b1|] eqn:E;
        [|discriminate].
      intros [= <-].
      destruct (flushIfNeeded_trace fuel _ cs _ _
                  (enqueue_inv kChunkSize kChunkSize_pos _ _ _ _ _ b Hb)
                  (enqueue_trace path 0 data t s fs cs b Ht) E) as (I & _ & T).
      auto.
    + intros [= <-]. rewrite app_nil_r. eauto.
  - unfold appendFilePart. fold (enqueue path sl data t s b). intros E.
    destruct (flushIfNeeded_trace fuel _ cs _ _
                (enqueue_inv kChunkSize kChunkSize_pos _ _ _ _ _ b Hb)
                (enqueue_trace path sl data t s fs cs b Ht) E) as (I & _ & T).
    auto.
  - intros E. rewrite app_nil_r.
    destruct (flush_trace fuel fs cs _ _ Hb Ht E) as (I & _ & T). auto.
Qed.

Lemma appended_app (ops1 ops2 : list BuilderOp) :
  appended readFileUTF8 (ops1 ++ ops2) =
  appended readFileUTF8 ops1 ++ appended readFileUTF8 ops2.
Proof. unfold appended. apply flat_map_app. Qed.

Lemma run_trace (fuel : nat) (ops : list BuilderOp) :
  forall fs cs b b', BuilderInv b -> Trace_t fs cs b ->
    run_t fuel ops b = Some b' ->
    BuilderInv b' /\ exists cs', Trace_t (fs ++ appended readFileUTF8 ops) cs' b'.
Proof.
  induction ops as [|op ops IH]; intros fs cs b b' Hb Ht; cbn [run].
  - intros [= <-]. cbn. rewrite app_nil_r. eauto.
  - destruct (run_op_t fuel op b) as [b1|] eqn:E; [|discriminate].
    destruct (run_op_trace fuel op fs cs b b1 Hb Ht E) as (Hb1 & cs1 & Ht1).
    intros Hr. destruct (IH _ cs1 b1 b' Hb1 Ht1 Hr) as (Hb' & cs' & Ht').
    split; [exact Hb'|]. exists cs'.
    change (op :: ops) with ([op] ++ ops). rewrite appended_app, app_assoc.
    exact Ht'.
Qed.

Lemma BuilderImpl_new_trace : Trace_t [] [] BuilderImpl_new.
Proof. unfold Trace. split_and; try reflexivity; constructor. Qed.

(** X5. Every sequence of calls runs to its end, and every byte handed to the
    builder stays with the name, the time stamp and the size of its file and
    with its line number, and is written once, in the order of the calls: the
    fragments of the chunks written, followed by the pending fragments, carry
    the bytes of the appended files. The count of pending bytes is the length
    of what is pending. *)
Theorem builder_keeps_bytes (ops : list BuilderOp) :
  (exists fuel b,
     run kChunkSize LZ4_compressHC ngram bloomFilterBits readFileUTF8 fuel ops
       BuilderImpl_new = Some b) /\
  (forall fuel b,
     run kChunkSize LZ4_compressHC ngram bloomFilterBits readFileUTF8 fuel ops
       BuilderImpl_new = Some b ->
     pendingSize b = length (tagged (pendingFiles b)) /\
     exists cs : list Chunk,
       outData b = map (emit LZ4_compressHC ngram bloomFilterBits) cs /\
       tagged (flat_map files cs) ++ tagged (pendingFiles b) =
       tagged (appended readFileUTF8 ops)).
Proof.
  destruct (BuilderImpl_new_inv kChunkSize LZ4_compressHC ngram bloomFilterBits)
    as [Hi Ho].
  split.
  - exact (run_terminates kChunkSize LZ4_compressHC ngram bloomFilterBits
             readFileUTF8 kChunkSize_pos kChunkSize_int ops _ Hi Ho).
  - intros fuel b E.
    destruct (run_trace fuel ops [] [] _ b Hi BuilderImpl_new_trace E)
      as ([Hs Hw] & cs & To & Tt & _ & _ & _).
    split.
    + rewrite (tagged_length _ Hw). exact Hs.
    + exists cs. split; [exact To|exact Tt].
Qed.

(** X6. Every sequence of calls runs to its end, and the statistics are then
    those of the chunks written: the entries with start line 0, the payload
    bytes and the compressed bytes, the last two modulo 2^64. *)
Theorem statistics_of_written (ops : list BuilderOp) :
  (exists fuel b,
     run kChunkSize LZ4_compressHC ngram bloomFilterBits readFileUTF8 fuel ops
       BuilderImpl_new = Some b) /\
  (forall fuel b,
     run kChunkSize LZ4_compressHC ngram bloomFilterBits readFileUTF8 fuel ops
       BuilderImpl_new = Some b ->
     exists cs : list Chunk,
       outData b = map (emit LZ4_compressHC ngram bloomFilterBits) cs /\
       stat_fileCount (statistics b) = count_startLine0 (flat_map files cs) /\
       stat_fileSize (statistics b) =
         u64 (Z.of_nat
                (list_sum (map (fun c => length (prepareChunkData c)) cs))) /\
       stat_resultSize (statistics b) =
         u64 (Z.of_nat
                (list_sum (map (fun w => length (w_cdata w)) (outData b))))).
Proof.
  destruct (BuilderImpl_new_inv kChunkSize LZ4_compressHC ngram bloomFilterBits)
    as [Hi Ho].
  split.
  - exact (run_terminates kChunkSize LZ4_compressHC ngram bloomFilterBits
             readFileUTF8 kChunkSize_pos kChunkSize_int ops _ Hi Ho).
  - intros fuel b E.
    destruct (run_trace fuel ops [] [] _ b Hi BuilderImpl_new_trace E)
      as (_ & cs & To & _ & Ts & _ & _).
    exists cs. rewrite Ts, To. unfold Statistics_of.
    cbn [stat_fileCount stat_fileSize stat_resultSize].
    split_and; try reflexivity.
    rewrite map_map. reflexivity.
Qed.

(** X7. [appendFilePart] returns on every state of the class invariant, keeps
    the invariant, and leaves fewer than two chunk sizes of bytes pending. *)
Theorem appendFilePart_bounds_pending (path : string) (startLine : Z)
    (data : list byte) (lastWriteTime fileSize : Z) (b : BuilderImpl) :
  BuilderInv b ->
  exists fuel b',
    appendFilePart kChunkSize LZ4_compressHC ngram bloomFilterBits fuel path
      startLine data lastWriteTime fileSize b = Some b' /\
    BuilderInv b' /\ pendingSize b' < kChunkSize * 2.
Proof.
  intros Hb. unfold appendFilePart.
  fold (enqueue path startLine data lastWriteTime fileSize b).
  set (b0 := enqueue path startLine data lastWriteTime fileSize b).
  assert (Hb0 : BuilderInv b0) by (apply (enqueue_inv kChunkSize kChunkSize_pos); exact Hb).
  destruct (flushIfNeeded_terminates kChunkSize LZ4_compressHC ngram
              bloomFilterBits kChunkSize_pos kChunkSize_int (rounds b0) b0 Hb0
              (le_n _)) as [b' E].
  exists (rounds b0), b'. split; [exact E|].
  destruct (flushIfNeeded_sound kChunkSize LZ4_compressHC ngram bloomFilterBits
              kChunkSize_pos kChunkSize_int (rounds b0) b0 b0 b' Hb0
              (Emitted_refl kChunkSize LZ4_compressHC ngram bloomFilterBits b0) E)
    as (I & _ & Hlt).
  auto.
Qed.

End BuilderTrace.

(** ** Cuts on line boundaries *)

Lemma splitPrefix_rest_data (file : File) (size : nat) :
  File_wf file -> size <= Blob_size (contents file) ->
  Blob_data (contents (snd (splitPrefix file size))) =
  skipn size (Blob_data (contents file)).
Proof.
  intros Hf Hs.
  pose proof (splitPrefix_data file size Hs) as D.
  pose proof (splitPrefix_spec file size Hf Hs) as S.
  destruct (splitPrefix file size) as [prefix rest]. cbn [fst snd] in *.
  destruct S as (Wp & _ & Sp & _ & Dp).
  pose proof (Blob_data_length _ Wp) as Lp. unfold Blob_size in Sp.
  rewrite <- D, skipn_app, Lp, Sp, Nat.sub_diag, skipn_all2 by lia.
  reflexivity.
Qed.

(** ** The ngrams of a chunk *)

Section NgramProps.

Variable ngram : byte -> byte -> byte -> byte -> Z.

Lemma file_ngrams_cons (a b c d : byte) (rest : list byte) :
  file_ngrams ngram (a :: b :: c :: d :: rest) =
  (if negb (is_newline a) && negb (is_newline b) &&
      negb (is_newline c) && negb (is_newline d)
   then [ngram a b c d] else []) ++ file_ngrams ngram (b :: c :: d :: rest).
Proof. reflexivity. Qed.

Lemma file_ngrams_short (data : list byte) :
  length data < 4 -> file_ngrams ngram data = [].
Proof.
  destruct data as [|a [|b [|c [|d r]]]]; cbn [length]; try reflexivity. lia.
Qed.

Lemma window_cons (x : byte) (data : list byte) (a b c d : byte) :
  window (x :: data) a b c d <->
  (exists post, x :: data = [a; b; c; d] ++ post) \/ window data a b c d.
Proof.
  unfold window. split.
  - intros ([|y pre] & post & E).
    + left. exists post. exact E.
    + right. exists pre, post. cbn in E. injection E as _ E. exact E.
  - intros [(post & E)|(pre & post & E)].
    + exists [], post. exact E.
    + exists (x :: pre), post. rewrite E. reflexivity.
Qed.

Lemma window_short (data : list byte) (a b c d : byte) :
  length data < 4 -> ~ window data a b c d.
Proof.
  intros H (pre & post & E). rewrite E in H.
  rewrite length_app in H. cbn in H. lia.
Qed.

Lemma file_ngrams_In (data : list byte) (v : Z) :
  In v (file_ngrams ngram data) <->
  exists a b c d,
    window data a b c d /\ no_newline a b c d /\ v = ngram a b c d.
Proof.
  induction data as [|x data IH].
  - split; [intros []|]. intros (a & b & c & d & W & _).
    exfalso. apply (window_short [] a b c d); [cbn; lia|exact W].
  - destruct data as [|y [|z [|w rest]]].
    1-3: split; [intros []|]; intros (a & b & c & d & W & _);
      exfalso; apply (window_short _ a b c d) in W; [exact W|cbn; lia].
    rewrite file_ngrams_cons, in_app_iff, IH. split.
    + intros [H|(a & b & c & d & W & N & E)].
      * destruct (is_newline x) eqn:Nx, (is_newline y) eqn:Ny,
                 (is_newline z) eqn:Nz, (is_newline w) eqn:Nw;
          cbn in H; try contradiction.
        destruct H as [<-|[]].
        exists x, y, z, w. split_and; auto.
        -- exists [], rest. reflexivity.
        -- unfold no_newline. auto.
      * exists a, b, c, d. split_and; auto.
        apply window_cons. right. exact W.
    + intros (a & b & c & d & W & N & E).
      apply window_cons in W. destruct W as [(post & W)|W].
      * left. injection W as -> -> -> -> _.
        destruct N as (-> & -> & -> & ->). cbn. left. symmetry. exact E.
      * right. exists a, b, c, d. auto.
Qed.

Lemma ngrams_insert_In (set : list Z) (v x : Z) :
  In x (ngrams_insert set v) <-> In x set \/ x = v.
Proof.
  unfold ngrams_insert. destruct (existsb (Z.eqb v) set) eqn:E.
  - split; [auto|]. intros [H| ->]; [exact H|].
    apply existsb_exists in E. destruct E as (y & Hy & Ey).
    apply Z.eqb_eq in Ey. subst. exact Hy.
  - rewrite in_app_iff. cbn. intuition.
Qed.

Lemma ngrams_insert_NoDup (set : list Z) (v : Z) :
  NoDup set -> NoDup (ngrams_insert set v).
Proof.
  intros H. unfold ngrams_insert. destruct (existsb (Z.eqb v) set) eqn:E.
  - exact H.
  - apply NoDup_app; [exact H|repeat constructor; intros []|].
    intros x Hx [->|[]].
    assert (existsb (Z.eqb x) set = true)
      by (apply existsb_exists; exists x; split; [exact Hx|apply Z.eqb_refl]).
    congruence.
Qed.

Lemma fold_ngrams_insert (l : list Z) :
  forall set x,
    (In x (fold_left ngrams_insert l set) <-> In x set \/ In x l) /\
    (NoDup set -> NoDup (fold_left ngrams_insert l set)).
Proof.
  induction l as [|v l IH]; intros set x; cbn [fold_left].
  - split; [cbn; tauto|auto].
  - destruct (IH (ngrams_insert set v) x) as [I N]. split.
    + rewrite I, ngrams_insert_In. cbn. intuition.
    + intros H. apply N. apply ngrams_insert_NoDup. exact H.
Qed.

Lemma fold_files_ngrams (fs : list File) :
  forall set x,
    (In x (fold_left
             (fun set f =>
                fold_left ngrams_insert
                  (file_ngrams ngram (Blob_data (contents f))) set) fs set) <->
     In x set \/
     exists f, In f fs /\ In x (file_ngrams ngram (Blob_data (contents f)))) /\
    (NoDup set ->
     NoDup (fold_left
              (fun set f =>
                 fold_left ngrams_insert
                   (file_ngrams ngram (Blob_data (contents f))) set) fs set)).
Proof.
  induction fs as [|f fs IH]; intros set x; cbn [fold_left].
  - split; [|auto]. split; [auto|]. intros [H|(f & [] & _)]. exact H.
  - destruct (IH (fold_left ngrams_insert
                    (file_ngrams ngram (Blob_data (contents f))) set) x)
      as [I N].
    destruct (fold_ngrams_insert (file_ngrams ngram (Blob_data (contents f)))
                set x) as [I1 N1].
    split.
    + rewrite I, I1. split.
      * intros [[H|H]|(g & Hg & H)]; auto.
        -- right. exists f. split; [left; reflexivity|exact H].
        -- right. exists g. split; [right; exact Hg|exact H].
      * intros [H|(g & [<-|Hg] & H)]; auto.
        right. exists g. auto.
    + intros H. apply N.
      apply (fold_ngrams_insert (file_ngrams ngram (Blob_data (contents f)))
               set x). exact H.
Qed.

End NgramProps.

(** ** The startup diff on arbitrary lists *)

Lemma subseq_refl {A} (l : list A) : subseq l l.
Proof. induction l; constructor; assumption. Qed.

Lemma subseq_app {A} (l1 m1 l2 m2 : list A) :
  subseq l1 m1 -> subseq l2 m2 -> subseq (l1 ++ l2) (m1 ++ m2).
Proof. induction 1; intros H2; cbn; try constructor; auto. Qed.

Lemma getChanges_loop_subseq (files : list FileInfo) :
  forall pack fileIt result r,
    getChanges_loop files pack fileIt result = Some r ->
    exists r', r = result ++ r' /\
               subseq r' (map fi_path (skipn fileIt files)).
Proof.
  induction pack as [|pf pack IH]; intros fileIt result r;
    cbn [getChanges_loop].
  - intros [= <-]. eexists. split; [reflexivity|apply subseq_refl].
  - assert (Hfuel : length (skipn fileIt files) <= length files)
      by (rewrite length_skipn; lia).
    rewrite (getChanges_skip_spec files pf _ fileIt result Hfuel).
    set (rest := skipn fileIt files) in *.
    pose proof (lower_upper (fi_path pf) rest) as Hlu.
    set (lo := lower (fi_path pf) rest) in *.
    set (hi := upper (fi_path pf) rest) in *.
    assert (Hskip : skipn (fileIt + length lo) files = hi).
    { rewrite Nat.add_comm, <- skipn_skipn. fold rest. rewrite <- Hlu.
      rewrite skipn_app, skipn_all, Nat.sub_diag. reflexivity. }
    rewrite <- List.hd_error_skipn, Hskip.
    assert (Hnext : skipn (S (fileIt + length lo)) files = tl hi)
      by (rewrite skipn_S_tl, Hskip; reflexivity).
    destruct hi as [|h t] eqn:Ehi; [discriminate|]. cbn [hd_error tl] in *.
    rewrite <- Hlu, map_app.
    destruct (String.eqb (fi_path h) (fi_path pf)).
    + intros E. apply IH in E. destruct E as (r' & -> & S).
      rewrite Hnext in S.
      destruct (negb (fi_timeStamp h =? fi_timeStamp pf)%Z ||
                negb (fi_fileSize h =? fi_fileSize pf)%Z).
      * exists (map fi_path lo ++ fi_path h :: r').
        rewrite <- !app_assoc. split; [reflexivity|].
        apply subseq_app; [apply subseq_refl|]. cbn [map].
        constructor. exact S.
      * exists (map fi_path lo ++ r'). rewrite <- app_assoc.
        split; [reflexivity|].
        apply subseq_app; [apply subseq_refl|]. cbn [map].
        apply subseq_drop. exact S.
    + intros E. apply IH in E. destruct E as (r' & -> & S).
      rewrite Hskip in S.
      exists (map fi_path lo ++ r'). rewrite <- app_assoc.
      split; [reflexivity|].
      apply subseq_app; [apply subseq_refl|exact S].
Qed.

Lemma in_pack_self (files : list FileInfo) (f : FileInfo) :
  In f files -> in_pack files f = true.
Proof.
  intros H. apply existsb_exists. exists f. split; [exact H|].
  unfold same_entry. rewrite String.eqb_refl, !Z.eqb_refl. reflexivity.
Qed.

Lemma startup_diff_self (files : list FileInfo) : startup_diff files files = [].
Proof.
  unfold startup_diff.
  assert (H : forall l, incl l files ->
                filter (fun f => negb (in_pack files f)) l = []).
  { induction l as [|f l IH]; intros Hi; cbn [filter]; [reflexivity|].
    rewrite (in_pack_self files f) by (apply Hi; left; reflexivity).
    cbn [negb]. apply IH. intros x Hx. apply Hi. right. exact Hx. }
  rewrite (H files (incl_refl files)). reflexivity.
Qed.

(** ** Little-endian fields *)

Lemma Z_of_byte_of_Z (z : Z) : Z_of_byte (byte_of_Z z) = (z mod 256)%Z.
Proof.
  unfold Z_of_byte, byte_of_Z.
  assert (R : (0 <= z mod 256 < 256)%Z) by (apply Z.mod_pos_bound; lia).
  destruct (Byte.of_N (Z.to_N (z mod 256))) as [b|] eqn:E.
  - apply Byte.to_of_N in E. rewrite E. rewrite Z2N.id; lia.
  - apply Byte.of_N_None_iff in E. lia.
Qed.

Lemma length_encode_le (n : nat) : forall z, length (encode_le n z) = n.
Proof. induction n as [|n IH]; intros z; cbn; [reflexivity|]. rewrite IH. reflexivity. Qed.

Lemma decode_encode_le (n : nat) :
  forall z, decode_le (encode_le n z) = (z mod 256 ^ Z.of_nat n)%Z.
Proof.
  induction n as [|n IH]; intros z; cbn [encode_le decode_le].
  - cbn. rewrite Z.mod_1_r. reflexivity.
  - rewrite IH, Z_of_byte_of_Z, Nat2Z.inj_succ, Z.pow_succ_r by lia.
    rewrite (Z.mul_comm 256), Z.rem_mul_r by lia. lia.
Qed.

Lemma decode_encode_4 (z : Z) :
  (0 <= z < 2 ^ 32)%Z -> decode_le (encode_le 4 z) = z.
Proof. intros H. rewrite decode_encode_le. apply Z.mod_small. exact H. Qed.

Lemma decode_encode_8 (z : Z) :
  (0 <= z < 2 ^ 64)%Z -> decode_le (encode_le 8 z) = z.
Proof. intros H. rewrite decode_encode_le. apply Z.mod_small. exact H. Qed.

Lemma length_list_byte_of_string (s : string) :
  length (list_byte_of_string s) = String.length s.
Proof.
  induction s as [|a s IH]; [reflexivity|].
  change (list_byte_of_string (String a s))
    with (byte_of_ascii a :: list_byte_of_string s).
  cbn [length String.length]. rewrite IH. reflexivity.
Qed.

Lemma length_encode_DataChunkFileHeader (h : DataChunkFileHeader) :
  length (encode_DataChunkFileHeader h) = sizeof_DataChunkFileHeader.
Proof.
  unfold encode_DataChunkFileHeader.
  rewrite !length_app, !length_encode_le. reflexivity.
Qed.

(** ** Reading memory *)

Lemma all_some_map {A} (l : list A) : all_some (map Some l) = Some l.
Proof. induction l as [|x l IH]; cbn; [reflexivity|]. rewrite IH. reflexivity. Qed.

Lemma read_bytes_at (pre s : list byte) (rest : Memory) :
  read_bytes (map Some pre ++ map Some s ++ rest) (length pre) (length s) =
  Some s.
Proof.
  unfold read_bytes.
  rewrite skipn_app, length_map, Nat.sub_diag, skipn_all2 by (rewrite length_map; lia).
  cbn [skipn app].
  rewrite firstn_app, length_map, Nat.sub_diag, firstn_all2 by (rewrite length_map; lia).
  cbn [firstn]. rewrite app_nil_r, length_map, Nat.eqb_refl.
  apply all_some_map.
Qed.

Lemma read_int_at (pre : list byte) (n : nat) (z : Z) (rest : Memory) (off : nat) :
  off = length pre ->
  read_int (map Some pre ++ map Some (encode_le n z) ++ rest) off n =
  Some (z mod 256 ^ Z.of_nat n)%Z.
Proof.
  intros ->. unfold read_int.
  pose proof (read_bytes_at pre (encode_le n z) rest) as R.
  rewrite length_encode_le in R. rewrite R. cbn [option_map].
  rewrite decode_encode_le. reflexivity.
Qed.

(** ** The layout of a chunk's payload *)


Lemma firstn_app_exact {A} (n : nat) (l1 l2 : list A) :
  n = length l1 -> firstn n (l1 ++ l2) = l1.
Proof.
  intros ->. rewrite firstn_app, Nat.sub_diag, firstn_all2 by lia.
  apply app_nil_r.
Qed.

Lemma copy_at_fill (A s B : list byte) (x : byte) (m off : nat) :
  off = length A ->
  copy_at (A ++ repeat x (length s + m) ++ B) off s = A ++ s ++ repeat x m ++ B.
Proof.
  intros ->. unfold copy_at.
  rewrite firstn_app, Nat.sub_diag, firstn_all. cbn [firstn]. rewrite app_nil_r.
  f_equal.
  rewrite !length_app, repeat_length.
  rewrite firstn_all2 by lia. f_equal.
  rewrite skipn_app, skipn_all2 by lia.
  cbn [app]. replace (length A + length s - length A) with (length s) by lia.
  rewrite repeat_app, <- app_assoc, skipn_app, repeat_length, Nat.sub_diag.
  rewrite skipn_all2 by (rewrite repeat_length; lia). reflexivity.
Qed.

Lemma names_of_app (l1 l2 : list File) :
  names_of (l1 ++ l2) = names_of l1 ++ names_of l2.
Proof. apply flat_map_app. Qed.

Lemma bodies_of_app (l1 l2 : list File) :
  bodies_of (l1 ++ l2) = bodies_of l1 ++ bodies_of l2.
Proof. apply flat_map_app. Qed.

Lemma length_names_of (fs : list File) :
  length (names_of fs) = list_sum_by (fun f => String.length (name f)) fs.
Proof.
  induction fs as [|f fs IH]; [reflexivity|].
  unfold names_of in *. cbn [flat_map].
  rewrite length_app, IH, list_sum_by_cons, length_list_byte_of_string.
  reflexivity.
Qed.

Lemma length_bodies_of (fs : list File) :
  Forall File_wf fs -> length (bodies_of fs) = sizes fs.
Proof.
  induction 1 as [|f fs Hf _ IH]; [reflexivity|].
  unfold bodies_of in *. cbn [flat_map].
  rewrite length_app, IH, sizes_cons, (Blob_data_length _ Hf). reflexivity.
Qed.

Lemma length_table (hs : list DataChunkFileHeader) :
  length (flat_map encode_DataChunkFileHeader hs) =
  sizeof_DataChunkFileHeader * length hs.
Proof.
  induction hs as [|h hs IH]; [reflexivity|].
  cbn [flat_map length]. rewrite length_app, IH, length_encode_DataChunkFileHeader.
  lia.
Qed.

Lemma length_fileTable (fs : list File) :
  forall n d, length (fileTable fs n d) = length fs.
Proof. induction fs as [|f fs IH]; intros n d; cbn; [reflexivity|]. rewrite IH. reflexivity. Qed.

Lemma fileTable_app (l1 l2 : list File) :
  forall n d,
    fileTable (l1 ++ l2) n d =
    fileTable l1 n d ++
    fileTable l2 (n + list_sum_by (fun f => String.length (name f)) l1)
      (d + sizes l1).
Proof.
  induction l1 as [|f l1 IH]; intros n d; cbn [app fileTable].
  - unfold sizes. rewrite !list_sum_by_nil, !Nat.add_0_r. reflexivity.
  - rewrite IH, sizes_cons, list_sum_by_cons. f_equal. f_equal; f_equal; lia.
Qed.

(** The loop of [prepareChunkData] fills the three zones from the left. *)
Lemma prepareChunkData_loop_layout (fs : list File) :
  forall (i nameOffset dataOffset : nat) (H N D : list byte),
    Forall File_wf fs ->
    length H = i * sizeof_DataChunkFileHeader ->
    nameOffset = length H + sizeof_DataChunkFileHeader * length fs + length N ->
    dataOffset =
      nameOffset + list_sum_by (fun f => String.length (name f)) fs + length D ->
    prepareChunkData_loop fs i nameOffset dataOffset
      (H ++ repeat x00 (sizeof_DataChunkFileHeader * length fs) ++
       N ++ repeat x00 (list_sum_by (fun f => String.length (name f)) fs) ++
       D ++ repeat x00 (sizes fs)) =
    H ++ flat_map encode_DataChunkFileHeader (fileTable fs nameOffset dataOffset) ++
    N ++ names_of fs ++ D ++ bodies_of fs.
Proof.
  induction fs as [|f fs IH]; intros i no do H N D Hwf HH Hno Hdo.
  - cbn. rewrite !app_nil_r. reflexivity.
  - inversion Hwf as [|? ? Wf Wfs]; subst no do.
    cbn [prepareChunkData_loop fileTable flat_map].
    rewrite list_sum_by_cons, sizes_cons.
    set (nm := list_byte_of_string (name f)).
    set (bd := Blob_data (contents f)).
    set (ns := list_sum_by (fun f => String.length (name f)) fs).
    assert (Lnm : length nm = String.length (name f))
      by apply length_list_byte_of_string.
    assert (Lbd : length bd = Blob_size (contents f))
      by (apply Blob_data_length; exact Wf).
    set (hz := sizeof_DataChunkFileHeader * length (f :: fs)).
    set (no := length H + hz + length N).
    set (do := no + (String.length (name f) + ns) + length D).
    set (e := encode_DataChunkFileHeader (fileHeader_of f no do)).
    assert (Le : length e = sizeof_DataChunkFileHeader)
      by apply length_encode_DataChunkFileHeader.
    rewrite <- Lnm, <- Lbd.
    (* the name *)
    replace (H ++ repeat x00 hz ++ N ++ repeat x00 (length nm + ns) ++
             D ++ repeat x00 (length bd + sizes fs))
      with ((H ++ repeat x00 hz ++ N) ++ repeat x00 (length nm + ns) ++
            D ++ repeat x00 (length bd + sizes fs))
      by (rewrite <- !app_assoc; reflexivity).
    rewrite copy_at_fill
      by (rewrite !length_app, repeat_length; unfold no; lia).
    (* the body *)
    replace ((H ++ repeat x00 hz ++ N) ++ nm ++ repeat x00 ns ++
             D ++ repeat x00 (length bd + sizes fs))
      with (((H ++ repeat x00 hz ++ N) ++ nm ++ repeat x00 ns ++ D) ++
            repeat x00 (length bd + sizes fs) ++ [])
      by (rewrite <- !app_assoc, app_nil_r; reflexivity).
    rewrite copy_at_fill
      by (rewrite !length_app, !repeat_length; unfold do, no; lia).
    (* the entry *)
    replace (((H ++ repeat x00 hz ++ N) ++ nm ++ repeat x00 ns ++ D) ++
             bd ++ repeat x00 (sizes fs) ++ [])
      with (H ++ repeat x00 (length e + sizeof_DataChunkFileHeader * length fs) ++
            (N ++ nm) ++ repeat x00 ns ++ (D ++ bd) ++ repeat x00 (sizes fs)).
    2:{ rewrite <- !app_assoc, app_nil_r.
        replace (length e + sizeof_DataChunkFileHeader * length fs) with hz;
          [reflexivity|].
        unfold hz. cbn [length]. rewrite Le.
        unfold sizeof_DataChunkFileHeader. lia. }
    rewrite copy_at_fill by (rewrite HH; reflexivity).
    replace (H ++ e ++ repeat x00 (sizeof_DataChunkFileHeader * length fs) ++
             (N ++ nm) ++ repeat x00 ns ++ (D ++ bd) ++ repeat x00 (sizes fs))
      with ((H ++ e) ++ repeat x00 (sizeof_DataChunkFileHeader * length fs) ++
            (N ++ nm) ++ repeat x00 ns ++ (D ++ bd) ++ repeat x00 (sizes fs))
      by (rewrite <- !app_assoc; reflexivity).
    rewrite (IH (S i)); try assumption.
    + unfold names_of, bodies_of. cbn [flat_map]. fold nm. fold bd.
      rewrite <- !app_assoc. reflexivity.
    + rewrite length_app, HH, Le. unfold sizeof_DataChunkFileHeader. lia.
    + rewrite !length_app, Le. unfold no, hz. cbn [length].
      unfold sizeof_DataChunkFileHeader. lia.
    + rewrite !length_app. unfold do, no, hz. cbn [length].
      fold ns. rewrite Lnm. lia.
Qed.

Lemma length_table_names (c : Chunk) :
  length (flat_map encode_DataChunkFileHeader (chunk_table c) ++
          names_of (files c)) = fileTable_prefix c.
Proof.
  rewrite length_app, length_table, length_names_of. unfold chunk_table.
  cbn zeta. rewrite length_fileTable. reflexivity.
Qed.

(** The first bytes of the payload are the table and the names. *)
Lemma prepareChunkData_prefix (c : Chunk) :
  Forall File_wf (files c) ->
  firstn (fileTable_prefix c) (prepareChunkData c) =
  flat_map encode_DataChunkFileHeader (chunk_table c) ++ names_of (files c).
Proof.
  intros Hwf. unfold prepareChunkData, chunk_table. cbn zeta.
  unfold getChunkNameTotalSize, getChunkDataTotalSize. fold (sizes (files c)).
  rewrite !repeat_app.
  pose proof (prepareChunkData_loop_layout (files c) 0
                (sizeof_DataChunkFileHeader * length (files c))
                (sizeof_DataChunkFileHeader * length (files c) +
                 list_sum_by (fun f => String.length (name f)) (files c))
                [] [] [] Hwf eq_refl) as L.
  cbn [app length] in L. rewrite <- app_assoc, L by lia.
  rewrite app_assoc.
  apply firstn_app_exact. symmetry. apply length_table_names.
Qed.

(** ** Scanning a payload *)

Lemma read_bytes_in (L : list byte) (rest : Memory) (off n : nat) :
  off + n <= length L ->
  read_bytes (map Some L ++ rest) off n = Some (firstn n (skipn off L)).
Proof.
  intros H.
  rewrite <- (firstn_skipn off L) at 1.
  rewrite <- (firstn_skipn n (skipn off L)) at 1.
  rewrite !map_app, <- !app_assoc.
  pose proof (read_bytes_at (firstn off L) (firstn n (skipn off L))
                (map Some (skipn n (skipn off L)) ++ rest)) as R.
  rewrite length_firstn, Nat.min_l in R by lia.
  rewrite length_firstn, length_skipn, Nat.min_l in R by lia.
  exact R.
Qed.

Lemma read_int_in (H enc T : list byte) (rest : Memory) (o n off : nat) :
  off = length H + o -> o + n <= length enc ->
  read_int (map Some (H ++ enc ++ T) ++ rest) off n =
  Some (decode_le (firstn n (skipn o enc))).
Proof.
  intros -> Hn. unfold read_int.
  rewrite read_bytes_in by (rewrite !length_app; lia).
  cbn [option_map]. f_equal. f_equal.
  rewrite skipn_app, skipn_all2 by lia.
  replace (length H + o - length H) with o by lia. cbn [app].
  rewrite skipn_app, firstn_app, length_skipn.
  replace (n - (length enc - o)) with 0 by lia.
  cbn [firstn]. apply app_nil_r.
Qed.

Lemma encode_DataChunkFileHeader_fields (h : DataChunkFileHeader) :
  let enc := encode_DataChunkFileHeader h in
  firstn 4 (skipn 0 enc) = encode_le 4 (h_nameOffset h) /\
  firstn 4 (skipn 4 enc) = encode_le 4 (h_nameLength h) /\
  firstn 4 (skipn 8 enc) = encode_le 4 (h_dataOffset h) /\
  firstn 4 (skipn 12 enc) = encode_le 4 (h_dataSize h) /\
  firstn 4 (skipn 16 enc) = encode_le 4 (h_startLine h) /\
  firstn 4 (skipn 20 enc) = encode_le 4 (h_reserved h) /\
  firstn 8 (skipn 24 enc) = encode_le 8 (h_fileSize h) /\
  firstn 8 (skipn 32 enc) = encode_le 8 (h_timeStamp h).
Proof. cbn zeta. split_and; reflexivity. Qed.

(** Reading back the entry that [prepareChunkData] has stored. *)
Lemma read_fileHeader_of (H T : list byte) (rest : Memory) (i : nat)
    (f : File) (no do : nat) :
  length H = i * sizeof_DataChunkFileHeader ->
  File_fields f ->
  read_DataChunkFileHeader
    (map Some (H ++ encode_DataChunkFileHeader (fileHeader_of f no do) ++ T)
       ++ rest) i =
  Some (fileHeader_of f no do).
Proof.
  intros HH (Fl & Fs & Ft). unfold read_DataChunkFileHeader. cbn zeta.
  pose proof (length_encode_DataChunkFileHeader (fileHeader_of f no do)) as Le.
  unfold sizeof_DataChunkFileHeader in Le.
  destruct (encode_DataChunkFileHeader_fields (fileHeader_of f no do))
    as (E1 & E2 & E3 & E4 & E5 & E6 & E7 & E8).
  rewrite <- HH.
  rewrite (read_int_in H _ T rest 0 4) by lia.
  rewrite (read_int_in H _ T rest 4 4) by lia.
  rewrite (read_int_in H _ T rest 8 4) by lia.
  rewrite (read_int_in H _ T rest 12 4) by lia.
  rewrite (read_int_in H _ T rest 16 4) by lia.
  rewrite (read_int_in H _ T rest 20 4) by lia.
  rewrite (read_int_in H _ T rest 24 8) by lia.
  rewrite (read_int_in H _ T rest 32 8) by lia.
  rewrite E1, E2, E3, E4, E5, E6, E7, E8.
  cbn [fileHeader_of h_nameOffset h_nameLength h_dataOffset h_dataSize
       h_startLine h_reserved h_fileSize h_timeStamp].
  unfold u32_of_size.
  rewrite !decode_encode_4 by (try apply u32_range; lia).
  rewrite !decode_encode_8 by lia.
  reflexivity.
Qed.

Lemma filter_startLine0_cons (f : File) (fs : list File) :
  filter (fun f => (startLine f =? 0)%Z) (f :: fs) =
  (if (startLine f =? 0)%Z then [f] else []) ++
  filter (fun f => (startLine f =? 0)%Z) fs.
Proof. cbn [filter]. destruct (startLine f =? 0)%Z; reflexivity. Qed.

(** [processChunk] on a memory that holds a chunk's table and names. *)
Lemma processChunk_loop_table (c : Chunk) (rest : Memory) :
  Forall File_fields (files c) ->
  (Z.of_nat (fileTable_prefix c) < 2 ^ 32)%Z ->
  forall (todo done : list File) (result : list FileInfo),
    files c = done ++ todo ->
    processChunk_loop (length todo) (length done)
      (map Some (flat_map encode_DataChunkFileHeader (chunk_table c) ++
                 names_of (files c)) ++ rest) result =
    Some (result ++
          map FileInfo_of (filter (fun f => (startLine f =? 0)%Z) todo)).
Proof.
  intros Hfields Hsmall.
  set (mem := map Some (flat_map encode_DataChunkFileHeader (chunk_table c) ++
                        names_of (files c)) ++ rest).
  induction todo as [|f todo IH]; intros done result Hsplit;
    cbn [length processChunk_loop].
  - cbn. rewrite app_nil_r. reflexivity.
  - set (hs := sizeof_DataChunkFileHeader * length (files c)).
    set (no := hs + list_sum_by (fun f => String.length (name f)) done).
    set (do := hs + getChunkNameTotalSize c + sizes done).
    assert (Ff : File_fields f).
    { rewrite Forall_forall in Hfields. apply Hfields. rewrite Hsplit.
      apply in_or_app. right. left. reflexivity. }
    assert (Etable :
      flat_map encode_DataChunkFileHeader (chunk_table c) =
      flat_map encode_DataChunkFileHeader
        (fileTable done hs (hs + getChunkNameTotalSize c)) ++
      encode_DataChunkFileHeader (fileHeader_of f no do) ++
      flat_map encode_DataChunkFileHeader
        (fileTable todo (no + String.length (name f))
           (do + Blob_size (contents f)))).
    { unfold chunk_table. cbn zeta. fold hs. rewrite Hsplit, fileTable_app.
      rewrite flat_map_app. cbn [fileTable flat_map]. reflexivity. }
    assert (Enames :
      names_of (files c) =
      names_of done ++ list_byte_of_string (name f) ++ names_of todo).
    { rewrite Hsplit, names_of_app. unfold names_of at 2. cbn [flat_map].
      reflexivity. }
    assert (Lprefix :
      fileTable_prefix c =
      hs + (list_sum_by (fun f => String.length (name f)) done +
            (String.length (name f) +
             list_sum_by (fun f => String.length (name f)) todo))).
    { unfold fileTable_prefix, getChunkNameTotalSize. fold hs.
      rewrite Hsplit, list_sum_by_app, list_sum_by_cons. reflexivity. }
    assert (Rentry :
      read_DataChunkFileHeader mem (length done) = Some (fileHeader_of f no do)).
    { unfold mem. rewrite Etable, <- !app_assoc.
      apply read_fileHeader_of; [|exact Ff].
      rewrite length_table, length_fileTable.
      unfold sizeof_DataChunkFileHeader. lia. }
    assert (Rname :
      read_bytes mem no (String.length (name f)) =
      Some (list_byte_of_string (name f))).
    { unfold mem.
      rewrite Enames, (app_assoc _ (names_of done)).
      rewrite (map_app Some (_ ++ names_of done)).
      rewrite (map_app Some (list_byte_of_string (name f))), <- !app_assoc.
      rewrite <- (length_list_byte_of_string (name f)).
      replace no with
        (length (flat_map encode_DataChunkFileHeader (chunk_table c) ++
                 names_of done)).
      - apply read_bytes_at.
      - rewrite length_app, length_table, length_names_of.
        unfold chunk_table. cbn zeta. rewrite length_fileTable. reflexivity. }
    rewrite Rentry.
    cbn [fileHeader_of h_startLine h_nameOffset h_nameLength h_timeStamp
         h_fileSize].
    rewrite filter_startLine0_cons.
    specialize (IH (done ++ [f])).
    rewrite length_app in IH. cbn [length] in IH.
    replace (length done + 1) with (S (length done)) in IH by lia.
    destruct (startLine f =? 0)%Z.
    + unfold u32_of_size. rewrite !u32_small by lia.
      rewrite !Nat2Z.id, Rname, string_of_list_byte_of_string.
      rewrite IH by (rewrite Hsplit, <- app_assoc; reflexivity).
      cbn [map app]. rewrite <- app_assoc. reflexivity.
    + rewrite IH by (rewrite Hsplit, <- app_assoc; reflexivity).
      reflexivity.
Qed.

(** ** Scanning a pack *)




Section ReaderProps.

Variable kDataFileHeaderMagic : list byte.
Variable LZ4_decompress : list byte -> list byte.





End ReaderProps.

(** ** Reading a file in blocks *)



(** ** The class [Builder] *)






Section BuilderClassProps.

Variable kChunkSize : nat.
Variable LZ4_compressHC : list byte -> list byte.
Variable ngram : byte -> byte -> byte -> byte -> Z.
Variable bloomFilterBits : nat -> Z -> Z -> list nat.
Variable readFileUTF8 : string -> option (Z * Z * list byte).

Local Abbreviation run_b :=
  (run kChunkSize LZ4_compressHC ngram bloomFilterBits readFileUTF8).



Hypothesis kChunkSize_pos : 0 < kChunkSize.
Hypothesis kChunkSize_int : (Z.of_nat kChunkSize < 2 ^ 31)%Z.


End BuilderClassProps.

(** ** The status line of the watcher *)

Lemma length_substring (s : string) :
  forall n m, n + m <= String.length s ->
    String.length (substring n m s) = m.
Proof.
  induction s as [|a s IH]; intros n m H; cbn [String.length] in H.
  - assert (m = 0) by lia. subst. destruct n; reflexivity.
  - destruct n as [|n]; cbn [substring].
    + destruct m as [|m]; [reflexivity|].
      cbn [String.length]. rewrite IH by lia. reflexivity.
    + apply IH. lia.
Qed.

Lemma substring_split (s : string) :
  forall n, n <= String.length s ->
    s = String.append (substring 0 n s) (substring n (String.length s - n) s).
Proof.
  induction s as [|a s IH]; intros n H; cbn [String.length] in *.
  - assert (n = 0) by lia. subst. reflexivity.
  - destruct n as [|n].
    + cbn [substring String.append Nat.sub]. f_equal.
      specialize (IH 0 ltac:(lia)). rewrite Nat.sub_0_r in IH.
      destruct s; cbn in IH |- *; [reflexivity|].
      cbn [substring String.append] in IH. exact IH.
    + cbn [substring String.append Nat.sub]. f_equal. apply IH. lia.
Qed.

Lemma length_append (s1 s2 : string) :
  String.length (String.append s1 s2) = String.length s1 + String.length s2.
Proof. induction s1 as [|a s1 IH]; cbn; [reflexivity|]. rewrite IH. reflexivity. Qed.

(** ** The changes file *)

Lemma line_split (b1 b2 r1 r2 : list byte) :
  Forall (fun c => is_newline c = false) b1 ->
  Forall (fun c => is_newline c = false) b2 ->
  (b1 ++ [newline]) ++ r1 = (b2 ++ [newline]) ++ r2 ->
  b1 = b2 /\ r1 = r2.
Proof.
  intros H1. revert b2. induction H1 as [|c b1 Hc _ IH]; intros b2 H2 E.
  - destruct H2 as [|d b2 Hd _]; cbn in E.
    + injection E as E. auto.
    + injection E as E _. subst d. discriminate.
  - destruct H2 as [|d b2 Hd H2]; cbn in E.
    + injection E as E _. subst c. discriminate.
    + injection E as -> E. destruct (IH b2 H2 E) as [-> ->]. auto.
Qed.

Lemma list_byte_of_string_inj (s1 s2 : string) :
  list_byte_of_string s1 = list_byte_of_string s2 -> s1 = s2.
Proof.
  intros E. rewrite <- (string_of_list_byte_of_string s1), E.
  apply string_of_list_byte_of_string.
Qed.


(** ** Witnesses and counterexamples of the builder's claims *)

(** C10 at chunks of 8 bytes, on the queue of [fileA] and [fileB]. *)
Lemma flush_drains_witness :
  exists fuel b',
    flush 8 LZ4_stored ngram_concat bloom_bits_sample fuel sample_state = Some b' /\
    pendingSize b' = 0 /\
    Emitted 8 LZ4_stored ngram_concat bloom_bits_sample sample_state b'.
Proof.
  apply (flush_drains 8 LZ4_stored ngram_concat bloom_bits_sample).
  - lia.
  - reflexivity.
  - split; [reflexivity|].
    repeat constructor; unfold File_wf, Blob_wf; cbn; lia.
Defined.

(** C6 (as amended) at chunks of 8 bytes, on the calls of [sample_ops_AB]. *)
Lemma chunks_within_budget_witness :
  (exists fuel b,
     run 8 LZ4_stored ngram_concat bloom_bits_sample no_files fuel sample_ops_AB
       BuilderImpl_new = Some b) /\
  (forall fuel b,
     run 8 LZ4_stored ngram_concat bloom_bits_sample no_files fuel sample_ops_AB
       BuilderImpl_new = Some b ->
     exists cs : list Chunk,
       outData b = map (emit LZ4_stored ngram_concat bloom_bits_sample) cs /\
       Forall (WithinBudget 8) cs).
Proof.
  apply (chunks_within_budget 8 LZ4_stored ngram_concat bloom_bits_sample no_files).
  - lia.
  - reflexivity.
Defined.

(** C6, as stated, fails: with chunks of 1024 bytes, a file of 16 lines of 64
    bytes is written as one chunk whose payload (table, name and body) has
    1069 bytes, and whose first line has 64. *)
Lemma payload_exceeds_budget :
  option_map outData (run_sample 1024 4 sample_ops_1k) = Some [emit_sample chunk_1k] /\
  ~ budget_as_stated 1024 chunk_1k.
Proof.
  split; [vm_compute; reflexivity|].
  intros [H|(f & E & H)].
  - apply Nat.leb_le in H. vm_compute in H. discriminate.
  - injection E as <-. apply Nat.ltb_lt in H. vm_compute in H. discriminate.
Qed.

Lemma single_written (o : option BuilderImpl) (h : DataChunkHeader) :
  option_map (fun b => map w_header (outData b)) o = Some [h] ->
  exists b w, o = Some b /\ outData b = [w] /\ w_header w = h.
Proof.
  destruct o as [b|]; [|discriminate]. cbn [option_map].
  intros [= E]. exists b.
  destruct (outData b) as [|w [|w' l]]; try discriminate.
  exists w. injection E as ->. auto.
Qed.

(** C9, as stated, fails: with chunks of 65536 bytes, a file of 51199 bytes
    is written as one chunk whose [uncompressed_size] is 51244, so that
    [uncompressed_size / 50 = 1024], and whose header has [index_size = 0]
    and a hash count of 0. *)
Lemma index_omitted_above_threshold :
  exists b w,
    run_sample kChunkSize_64k 4 sample_ops_51199 = Some b /\
    outData b = [w] /\
    w_header w = mkChunkHeader 1 51244 51244 0 0 0 0 /\
    ~ bloom_sizing_as_stated w.
Proof.
  destruct (single_written (run_sample kChunkSize_64k 4 sample_ops_51199)
              (mkChunkHeader 1 51244 51244 0 0 0 0))
    as (b & w & Eb & Ew & Eh); [vm_compute; reflexivity|].
  exists b, w. split_and; [exact Eb|exact Ew|exact Eh|].
  unfold bloom_sizing_as_stated. rewrite Eh.
  cbn [uncompressedSize indexSize indexHashIterations].
  intros [_ H]. specialize (H ltac:(vm_compute; discriminate)). lia.
Qed.

(** C8, as stated, fails: with chunks of 65536 bytes, a file of 51200 bytes
    with 3150 distinct ngrams is written as one chunk with an index of 1024
    bytes, that is [m = 8192], and a hash count of 1, whereas
    round(ln 2 * 8192 / 3150) = round(1.80...) = 2. *)
Lemma hash_count_not_rounded :
  exists b w,
    run_sample kChunkSize_64k 4 sample_ops_3150 = Some b /\
    outData b = [w] /\
    w_header w = mkChunkHeader 1 51245 51245 1024 1 0 0 /\
    length (fold_left ngrams_insert (file_ngrams ngram_concat body_3150) [])
      = 3150 /\
    indexHashIterations (w_header w) <> spec_hash_count 1024 3150.
Proof.
  destruct (single_written (run_sample kChunkSize_64k 4 sample_ops_3150)
              (mkChunkHeader 1 51245 51245 1024 1 0 0))
    as (b & w & Eb & Ew & Eh); [vm_compute; reflexivity|].
  exists b, w. split_and; [exact Eb|exact Ew|exact Eh| |].
  - apply Nat.eqb_eq. vm_compute. reflexivity.
  - rewrite Eh, spec_hash_count_1024_3150. cbn. discriminate.
Qed.

(** ** Instances of the startup diff *)

(** X1 on the lists current = {a, b, c} and pack = {a, b}, where [b] has a new
    time stamp and [c] is new. *)
Lemma getChanges_diff_witness :
  getChanges
    [mkFileInfo "a"%string 1 10; mkFileInfo "b"%string 3 20; mkFileInfo "c"%string 4 5]
    [mkFileInfo "a"%string 1 10; mkFileInfo "b"%string 2 20] =
  Some (startup_diff
    [mkFileInfo "a"%string 1 10; mkFileInfo "b"%string 3 20; mkFileInfo "c"%string 4 5]
    [mkFileInfo "a"%string 1 10; mkFileInfo "b"%string 2 20]).
Proof.
  apply getChanges_diff.
  - repeat constructor.
  - repeat constructor.
  - repeat constructor;
      (exists (mkFileInfo "c"%string 4 5); split; [cbn; tauto|reflexivity]).
Defined.

(** X2 on the lists current = {a, b} and pack = {a, c}. *)
Lemma getChanges_past_the_end_witness :
  getChanges
    [mkFileInfo "a"%string 1 10; mkFileInfo "b"%string 2 20]
    [mkFileInfo "a"%string 1 10; mkFileInfo "c"%string 3 30] = None.
Proof.
  apply (getChanges_past_the_end _ _ (mkFileInfo "c"%string 3 30)).
  - cbn; tauto.
  - repeat constructor.
Defined.

(** ** The line scan and the hash count, for all inputs *)

(** X3. On a window of fewer than 2^31 bytes, [skipByLines] returns the
    position just behind the last newline of the window (0 when it has none)
    and the number of newlines in the window. *)
Theorem skipByLines_last_newline (data : list byte) (dataSize : nat) :
  (Z.of_nat dataSize < 2 ^ 31)%Z ->
  fst (skipByLines data dataSize) = lineEnd (firstn dataSize data) /\
  snd (skipByLines data dataSize) =
    Z.of_nat (count_newlines (firstn dataSize data)).
Proof.
  intros H. rewrite (skipByLines_spec data dataSize H). split; reflexivity.
Qed.

(** X3 on the window of the first four bytes of a five-byte buffer. *)
Lemma skipByLines_last_newline_witness :
  fst (skipByLines [x61; newline; x62; newline; x63] 4) =
    lineEnd (firstn 4 [x61; newline; x62; newline; x63]) /\
  snd (skipByLines [x61; newline; x62; newline; x63] 4) =
    Z.of_nat (count_newlines (firstn 4 [x61; newline; x62; newline; x63])).
Proof.
  apply (skipByLines_last_newline [x61; newline; x62; newline; x63] 4).
  cbn. lia.
Defined.

(** X4. Whatever the index size and the item count, the hash count computed by
    [getIndexHashIterations] lies between 1 and 16. *)
Theorem getIndexHashIterations_between_1_and_16 (indexSize itemCount : Z) :
  (1 <= getIndexHashIterations indexSize itemCount <= 16)%Z.
Proof. exact (getIndexHashIterations_range indexSize itemCount). Qed.

(** ** The claims the code does not meet *)

Lemma emit_fileTableSize (LZ4_compressHC : list byte -> list byte)
    (ngram : byte -> byte -> byte -> byte -> Z)
    (bloomFilterBits : nat -> Z -> Z -> list nat) (c : Chunk) :
  fileTableSize (w_header (emit LZ4_compressHC ngram bloomFilterBits c)) = 0%Z.
Proof. reflexivity. Qed.

(** C1. [writeChunk] never assigns [header.fileTableSize]: for the pack of
    one file [a.txt] holding [hello] and a newline, the one chunk written has
    [file_table_size = 0], while the file table and the names take the first
    45 bytes of its payload. *)
Theorem fileTableSize_left_zero :
  option_map outData (run_sample 8 4 sample_ops) = Some [emit_sample sample_chunk] /\
  fileTableSize (w_header (emit_sample sample_chunk)) = 0%Z /\
  fileTable_prefix sample_chunk = 45.
Proof. split_and; vm_compute; reflexivity. Qed.

(** C2. Scanning the pack written for that file reads bytes that the partial
    decompression, asked for [file_table_size = 0] bytes, has not produced;
    asked for the 45 bytes of table and names, the same chunk yields the
    triple recorded at append time. *)
Theorem scan_of_written_pack :
  option_map
    (fun b => getDataFileList magic_sample LZ4_stored
                (Some (pack_bytes magic_sample b)))
    (run_sample 8 4 sample_ops) = Some Scan_undetermined /\
  processChunk []
    (decompressPartial LZ4_stored 51 (w_cdata (emit_sample sample_chunk))
       (fileTable_prefix sample_chunk)) 1 =
  Some (map FileInfo_of (files sample_chunk)).
Proof. split; vm_compute; reflexivity. Qed.

(** C3. [getChanges] reads [files[fileIt]] with [fileIt = files.size()] as
    soon as the pack lists a path behind the last current path, and on an
    empty current list. *)
Theorem getChanges_reads_past_the_end :
  getChanges [mkFileInfo "a"%string 1 10] [mkFileInfo "b"%string 2 20] = None /\
  getChanges [] [mkFileInfo "a"%string 1 10] = None.
Proof. split; vm_compute; reflexivity. Qed.

(** C5. For the sorted lists current = {a} and pack = {a, b}, where the
    diff should be empty, [getChanges] reads past the end of the current
    list; the specification's own scenario is computed as stated. *)
Theorem getChanges_deleted_path :
  getChanges [mkFileInfo "a"%string 1 10]
    [mkFileInfo "a"%string 1 10; mkFileInfo "b"%string 2 20] = None /\
  getChanges [mkFileInfo "a"%string 1 10; mkFileInfo "b"%string 3 20; mkFileInfo "c"%string 4 5]
    [mkFileInfo "a"%string 1 10; mkFileInfo "b"%string 2 20] = Some ["b"; "c"]%string.
Proof. split; vm_compute; reflexivity. Qed.

(** C4. Whatever the (positive) chunk size, appending one empty file and
    flushing writes no chunk: the file stays in the pending queue. *)
Theorem empty_file_not_written (k fuel : nat) (path : string) (t s : Z)
    (LZ4_compressHC : list byte -> list byte)
    (ngram : byte -> byte -> byte -> byte -> Z)
    (bloomFilterBits : nat -> Z -> Z -> list nat)
    (readFileUTF8 : string -> option (Z * Z * list byte)) :
  run (S k) LZ4_compressHC ngram bloomFilterBits readFileUTF8 fuel
    [Op_appendFilePart path 0 [] t s; Op_flush] BuilderImpl_new =
  Some {| pendingFiles :=
            [{| name := path; contents := Blob_of_vector [];
                startLine := 0; fileSize := u64 s; timeStamp := u64 t |}];
          pendingSize := 0;
          outData := [];
          statistics := mkStatistics 0 0 0 |}.
Proof.
  cbn [run run_op]. unfold appendFilePart.
  cbn [pendingFiles pendingSize outData statistics BuilderImpl_new app length
       Nat.add].
  change (u32 0) with 0%Z.
  destruct fuel; cbn [flushIfNeeded flush pendingSize Nat.mul Nat.add
                      Nat.leb Nat.ltb]; reflexivity.
Qed.

(** C7. With chunks of 8 bytes, a file [A] of 9 bytes without a newline
    followed by a file [B]: the first cut takes [A] whole and leaves an empty
    rest with [start_line = 1], which the second chunk carries; the byte
    before that fragment is not a newline and no newline precedes it. *)
Theorem empty_rest_counts_a_line :
  flushChunk_loop 8 Chunk_empty [fileA; fileB] = (chunkA, [fileA_rest; fileB]) /\
  option_map outData (run_sample 8 4 sample_ops_AB) =
    Some [emit_sample chunkA; emit_sample chunkB] /\
  files chunkB = [fileA_rest; fileB] /\
  startLine fileA_rest = 1%Z /\
  nth_error (storage (contents fileA_rest)) (offset (contents fileA_rest) - 1)
    = Some x69 /\
  count_newlines (firstn (offset (contents fileA_rest))
                    (storage (contents fileA_rest))) = 0.
Proof. split_and; vm_compute; reflexivity. Qed.

(** ** Where the builder cuts *)

(** X8. [skipOneLine] returns the position just behind the first newline among
    the first [dataSize] bytes, and [dataSize] when there is none. *)
Theorem skipOneLine_first_line (data : list byte) (dataSize : nat) :
  skipOneLine data dataSize =
  match first_newline (firstn dataSize data) with
  | Some k => k + 1
  | None => dataSize
  end.
Proof.
  unfold skipOneLine. rewrite skipOneLine_loop_first.
  destruct (first_newline (firstn dataSize data)); reflexivity.
Qed.

(** X9. When the first [remainingSize] bytes of a file hold a newline,
    [appendChunkFilePrefix] cuts the file just behind the last of them: the
    prefix goes to the chunk with the file's start line, and the rest keeps
    the other bytes with the start line advanced by the newlines of the
    prefix (modulo 2^32). *)
Theorem appendChunkFilePrefix_on_line (chunk : Chunk) (file : File)
    (remainingSize : nat) :
  File_wf file ->
  remainingSize < Blob_size (contents file) ->
  (Z.of_nat remainingSize < 2 ^ 31)%Z ->
  let data := Blob_data (contents file) in
  let cut := lineEnd (firstn remainingSize data) in
  0 < cut ->
  exists prefix rest,
    appendChunkFilePrefix chunk file remainingSize =
      ({| files := files chunk ++ [prefix];
          totalSize := totalSize chunk + cut |}, rest) /\
    cut <= remainingSize /\
    nth_error data (cut - 1) = Some newline /\
    Blob_data (contents prefix) = firstn cut data /\
    Blob_data (contents rest) = skipn cut data /\
    name prefix = name file /\ name rest = name file /\
    startLine prefix = startLine file /\
    startLine rest =
      u32 (startLine file + Z.of_nat (count_newlines (firstn cut data))).
Proof.
  intros Hf Hr Hint data cut Hcut.
  assert (Hle : cut <= remainingSize).
  { unfold cut. pose proof (lineEnd_le (firstn remainingSize data)).
    pose proof (firstn_le_length remainingSize data). lia. }
  assert (Hs : cut <= Blob_size (contents file)) by lia.
  unfold appendChunkFilePrefix.
  rewrite skipByLines_spec by exact Hint. cbn [fst snd].
  fold data. fold cut.
  assert (E : (0 <? cut) = true) by (apply Nat.ltb_lt; exact Hcut).
  rewrite E. cbn [orb].
  pose proof (splitPrefix_spec file cut Hf Hs) as S.
  pose proof (splitPrefix_rest_data file cut Hf Hs) as R.
  destruct (splitPrefix file cut) as [prefix rest] eqn:Esp.
  cbn [fst snd] in R. destruct S as (_ & _ & _ & _ & Dp).
  exists prefix, (File_addLines rest
                    (Z.of_nat (count_newlines (firstn remainingSize data)))).
  assert (Hnames : name prefix = name file /\ name rest = name file /\
                   startLine prefix = startLine file /\
                   startLine rest = startLine file).
  { unfold splitPrefix in Esp. injection Esp as <- <-. cbn. auto. }
  destruct Hnames as (N1 & N2 & N3 & N4).
  split_and; auto.
  - pose proof (lineEnd_last (firstn remainingSize data) Hcut) as L.
    fold cut in L. rewrite nth_error_firstn in L.
    destruct (cut - 1 <? remainingSize) eqn:El; [exact L|discriminate].
  - cbn [File_addLines startLine]. rewrite N4. f_equal. f_equal. f_equal.
    pose proof (lineEnd_count (firstn remainingSize data)) as C.
    fold cut in C. rewrite firstn_firstn, Nat.min_l in C by exact Hle.
    symmetry. exact C.
Qed.

(** ** What enters the index *)

(** X10. The set [prepareChunkIndex] collects holds every key once, and holds
    exactly the keys of the windows of four bytes in a row of one fragment
    that hold no newline. *)
Theorem chunk_ngrams_windows (ngram : byte -> byte -> byte -> byte -> Z)
    (chunk : Chunk) :
  NoDup (chunk_ngrams ngram chunk) /\
  forall v : Z,
    In v (chunk_ngrams ngram chunk) <->
    exists f a b c d,
      In f (files chunk) /\ window (Blob_data (contents f)) a b c d /\
      no_newline a b c d /\ v = ngram a b c d.
Proof.
  unfold chunk_ngrams. split.
  - apply (fold_files_ngrams ngram (files chunk) [] 0%Z). constructor.
  - intros v.
    rewrite (proj1 (fold_files_ngrams ngram (files chunk) [] v)). split.
    + intros [[]|(f & Hf & H)]. apply file_ngrams_In in H.
      destruct H as (a & b & c & d & H). exists f, a, b, c, d. tauto.
    + intros (f & a & b & c & d & Hf & W & N & E). right. exists f.
      split; [exact Hf|]. apply file_ngrams_In. exists a, b, c, d. auto.
Qed.

(** ** The startup diff *)

(** X11. Whatever the two lists, a diff that [getChanges] returns lists paths of
    the current files only, each at most as often as it occurs there and in
    their order. *)
Theorem getChanges_subseq (files packFiles : list FileInfo) (r : list string) :
  getChanges files packFiles = Some r -> subseq r (map fi_path files).
Proof.
  intros E. apply getChanges_loop_subseq in E.
  destruct E as (r' & -> & S). exact S.
Qed.

(** X12. When the pack lists the current files as they are, sorted by path, the
    diff is empty. *)
Theorem getChanges_unchanged (files : list FileInfo) :
  sorted_by_path files -> getChanges files files = Some [].
Proof.
  intros Hs. unfold getChanges.
  rewrite (getChanges_loop_spec files files 0 []); auto.
  - cbn [app skipn]. rewrite startup_diff_self. reflexivity.
  - cbn [skipn]. apply Forall_forall. intros pf Hpf. exists pf.
    split; [exact Hpf|]. unfold String.ltb.
    rewrite string_compare_refl. reflexivity.
Qed.

(** ** The payload and its scan *)

(** X13. The payload of a chunk is its file table, then the names, then the
    bodies, each in the order of the chunk's fragments; the entry of a
    fragment holds the offsets of its name and of its body in the payload. *)
Theorem prepareChunkData_layout (c : Chunk) :
  Forall File_wf (files c) ->
  prepareChunkData c =
  flat_map encode_DataChunkFileHeader (chunk_table c) ++
  names_of (files c) ++ bodies_of (files c).
Proof.
  intros Hwf. unfold prepareChunkData, chunk_table. cbn zeta.
  unfold getChunkNameTotalSize, getChunkDataTotalSize. fold (sizes (files c)).
  rewrite !repeat_app.
  pose proof (prepareChunkData_loop_layout (files c) 0
                (sizeof_DataChunkFileHeader * length (files c))
                (sizeof_DataChunkFileHeader * length (files c) +
                 list_sum_by (fun f => String.length (name f)) (files c))
                [] [] [] Hwf eq_refl) as L.
  cbn [app length] in L. rewrite <- app_assoc. apply L; lia.
Qed.

(** X14. A memory whose first bytes are the table and the names of a chunk's
    payload is enough for [processChunk]: it appends, for every fragment with
    start line 0 and in the chunk's order, the name, the time stamp and the
    size that the builder stored. *)
Theorem processChunk_reads_table (c : Chunk) (mem : Memory)
    (result : list FileInfo) :
  Forall File_wf (files c) ->
  Forall File_fields (files c) ->
  (Z.of_nat (fileTable_prefix c) < 2 ^ 32)%Z ->
  firstn (fileTable_prefix c) mem =
    map Some (firstn (fileTable_prefix c) (prepareChunkData c)) ->
  processChunk result mem (length (files c)) = Some (result ++ chunk_entries c).
Proof.
  intros Hwf Hfields Hsmall Hmem.
  rewrite (prepareChunkData_prefix c Hwf) in Hmem.
  rewrite <- (firstn_skipn (fileTable_prefix c) mem), Hmem.
  unfold processChunk.
  exact (processChunk_loop_table c _ Hfields Hsmall (files c) [] result eq_refl).
Qed.



(** ** Written records scan back *)

(** X17. Every sequence of calls runs to its end, and with a decoder that
    inverts the codec, every record the builder has written, decompressed in
    full and scanned by [processChunk] with the header's file count, gives
    the name, the time stamp and the size of the chunk's fragments with start
    line 0, provided the chunk's table and names take less than 2^32 bytes. *)
Theorem written_records_scan (kChunkSize : nat)
    (LZ4_compressHC LZ4_decompress : list byte -> list byte)
    (ngram : byte -> byte -> byte -> byte -> Z)
    (bloomFilterBits : nat -> Z -> Z -> list nat)
    (readFileUTF8 : string -> option (Z * Z * list byte))
    (ops : list BuilderOp) :
  0 < kChunkSize -> (Z.of_nat kChunkSize < 2 ^ 31)%Z ->
  (forall data, LZ4_decompress (LZ4_compressHC data) = data) ->
  (exists fuel b,
     run kChunkSize LZ4_compressHC ngram bloomFilterBits readFileUTF8 fuel ops
       BuilderImpl_new = Some b) /\
  (forall fuel b,
     run kChunkSize LZ4_compressHC ngram bloomFilterBits readFileUTF8 fuel ops
       BuilderImpl_new = Some b ->
     exists cs : list Chunk,
       outData b = map (emit LZ4_compressHC ngram bloomFilterBits) cs /\
       Forall
         (fun c =>
            (Z.of_nat (fileTable_prefix c) < 2 ^ 32)%Z ->
            let w := emit LZ4_compressHC ngram bloomFilterBits c in
            processChunk [] (map Some (LZ4_decompress (w_cdata w)))
              (Z.to_nat (fileCount (w_header w))) =
            Some (chunk_entries c))
         cs).
Proof.
  intros Hpos Hint Hcodec.
  destruct (BuilderImpl_new_inv kChunkSize LZ4_compressHC ngram bloomFilterBits)
    as [Hi Ho].
  split.
  { exact (run_terminates kChunkSize LZ4_compressHC ngram bloomFilterBits
             readFileUTF8 Hpos Hint ops _ Hi Ho). }
  intros fuel b E.
  destruct (run_trace kChunkSize LZ4_compressHC ngram bloomFilterBits
              readFileUTF8 Hpos Hint fuel ops [] [] _ b Hi
              (BuilderImpl_new_trace LZ4_compressHC ngram bloomFilterBits) E)
    as (_ & cs & To & _ & _ & Tw & Tf).
  exists cs. split; [exact To|].
  apply Forall_app in Tf. destruct Tf as [Tf _].
  clear To E. induction cs as [|c cs IH]; [constructor|].
  cbn [flat_map] in Tw, Tf.
  apply Forall_app in Tw. destruct Tw as [Wc Wcs].
  apply Forall_app in Tf. destruct Tf as [Fc Fcs].
  constructor; [|apply IH; assumption].
  intros Hsmall. cbn zeta. unfold emit.
  cbn [w_cdata w_header writeChunk_header fileCount compressData].
  unfold compressData. rewrite Hcodec.
  assert (Hn : Z.to_nat (u32_of_size (length (files c))) = length (files c)).
  { unfold u32_of_size. rewrite u32_small, Nat2Z.id; [reflexivity|].
    unfold fileTable_prefix, sizeof_DataChunkFileHeader in Hsmall. lia. }
  rewrite Hn.
  rewrite <- (firstn_skipn (fileTable_prefix c) (prepareChunkData c)), map_app.
  rewrite (prepareChunkData_prefix c Wc).
  unfold processChunk.
  exact (processChunk_loop_table c _ Fc Hsmall (files c) [] [] eq_refl).
Qed.

(** ** Input and messages *)



(** X20. The path on the watcher's status line has at most 40 characters: a path
    of up to 40 characters is shown as it is, a longer one as three dots and
    its last 37 characters. *)
Theorem watch_printStatistics_last (fileCount : nat) (last : string) :
  let shown := snd (Watch.printStatistics fileCount last) in
  String.length shown <= 40 /\
  (String.length last <= 40 -> shown = last) /\
  (40 < String.length last ->
   exists head tail,
     last = String.append head tail /\ String.length tail = 37 /\
     shown = String.append "..." tail).
Proof.
  cbn zeta. unfold Watch.printStatistics. cbn [snd].
  destruct (40 <? String.length last) eqn:E.
  - apply Nat.ltb_lt in E.
    set (n := String.length last - 37).
    assert (Ht : String.length (substring n (String.length last - n) last) = 37).
    { rewrite length_substring; unfold n; lia. }
    split_and.
    + rewrite length_append, Ht. cbn. lia.
    + lia.
    + intros _. exists (substring 0 n last),
        (substring n (String.length last - n) last).
      split_and; auto. apply substring_split. unfold n. lia.
  - apply Nat.ltb_ge in E. split_and; auto. lia.
Qed.

(** X21. Two lists of paths without newlines that [writeChanges] writes as the
    same bytes are the same list: the changes file determines the set it was
    written from. *)
Theorem writeChanges_contents_injective (files1 files2 : list string) :
  Forall newline_free files1 -> Forall newline_free files2 ->
  Watch.writeChanges_contents files1 = Watch.writeChanges_contents files2 ->
  files1 = files2.
Proof.
  intros H1. revert files2.
  induction H1 as [|f1 files1 Hf1 _ IH]; intros files2 H2 E;
    destruct H2 as [|f2 files2 Hf2 H2]; cbn [Watch.writeChanges_contents flat_map] in E.
  - reflexivity.
  - destruct (list_byte_of_string f2); discriminate.
  - destruct (list_byte_of_string f1); discriminate.
  - apply line_split in E; [|assumption..]. destruct E as [Ef Er].
    apply list_byte_of_string_inj in Ef. subst f2.
    f_equal. apply IH; assumption.
Qed.

(** ** Instances *)

(** X5 at chunks of 4 bytes, on a file of three lines. *)
Lemma builder_keeps_bytes_witness :
  (exists fuel b, run_sample 4 fuel sample_ops_lines = Some b) /\
  (forall fuel b,
     run_sample 4 fuel sample_ops_lines = Some b ->
     pendingSize b = length (tagged (pendingFiles b)) /\
     exists cs : list Chunk,
       outData b = map emit_sample cs /\
       tagged (flat_map files cs) ++ tagged (pendingFiles b) =
       tagged (appended no_files sample_ops_lines)).
Proof.
  apply (builder_keeps_bytes 4 LZ4_stored ngram_concat bloom_bits_sample
           no_files).
  - lia.
  - reflexivity.
Defined.

(** X6 at chunks of 4 bytes, on a file of three lines. *)
Lemma statistics_of_written_witness :
  (exists fuel b, run_sample 4 fuel sample_ops_lines = Some b) /\
  (forall fuel b,
     run_sample 4 fuel sample_ops_lines = Some b ->
     exists cs : list Chunk,
       outData b = map emit_sample cs /\
       stat_fileCount (statistics b) = count_startLine0 (flat_map files cs) /\
       stat_fileSize (statistics b) =
         u64 (Z.of_nat
                (list_sum (map (fun c => length (prepareChunkData c)) cs))) /\
       stat_resultSize (statistics b) =
         u64 (Z.of_nat
                (list_sum (map (fun w => length (w_cdata w)) (outData b))))).
Proof.
  apply (statistics_of_written 4 LZ4_stored ngram_concat bloom_bits_sample
           no_files).
  - lia.
  - reflexivity.
Defined.

(** X7 at chunks of 4 bytes, on the first call of a builder. *)
Lemma appendFilePart_bounds_pending_witness :
  exists fuel b',
    appendFilePart 4 LZ4_stored ngram_concat bloom_bits_sample fuel "L"%string
      0 body_lines 3 9 BuilderImpl_new = Some b' /\
    BuilderInv b' /\ pendingSize b' < 4 * 2.
Proof.
  apply (appendFilePart_bounds_pending 4 LZ4_stored ngram_concat
           bloom_bits_sample ltac:(lia) ltac:(reflexivity)).
  split; [reflexivity|constructor].
Defined.

(** X9 on a file of three lines and a window of four bytes. *)
Lemma appendChunkFilePrefix_on_line_witness :
  exists prefix rest,
    appendChunkFilePrefix Chunk_empty fileL 4 =
      ({| files := files Chunk_empty ++ [prefix];
          totalSize := totalSize Chunk_empty + 3 |}, rest) /\
    3 <= 4 /\
    nth_error (Blob_data (contents fileL)) (3 - 1) = Some newline /\
    Blob_data (contents prefix) = firstn 3 (Blob_data (contents fileL)) /\
    Blob_data (contents rest) = skipn 3 (Blob_data (contents fileL)) /\
    name prefix = name fileL /\ name rest = name fileL /\
    startLine prefix = startLine fileL /\
    startLine rest =
      u32 (startLine fileL +
           Z.of_nat (count_newlines (firstn 3 (Blob_data (contents fileL))))).
Proof.
  apply (appendChunkFilePrefix_on_line Chunk_empty fileL 4).
  - unfold File_wf, Blob_wf. cbn. lia.
  - cbn. lia.
  - reflexivity.
  - cbn. lia.
Defined.

(** X11 on the lists current = {a, b, c} and pack = {a, b}. *)
Lemma getChanges_subseq_witness :
  subseq ["b"; "c"]%string (map fi_path sample_files).
Proof.
  apply (getChanges_subseq sample_files sample_packFiles).
  vm_compute. reflexivity.
Defined.

(** X12 on the list {a, b, c}. *)
Lemma getChanges_unchanged_witness :
  getChanges sample_files sample_files = Some [].
Proof.
  apply getChanges_unchanged. repeat constructor.
Defined.

(** X13 on a chunk of an empty fragment and a file of one line. *)
Lemma prepareChunkData_layout_witness :
  prepareChunkData chunkB =
  flat_map encode_DataChunkFileHeader (chunk_table chunkB) ++
  names_of (files chunkB) ++ bodies_of (files chunkB).
Proof.
  apply prepareChunkData_layout.
  repeat constructor; unfold File_wf, Blob_wf; cbn; lia.
Defined.

(** X14 on the memory that a partial decompression of [chunkB]'s payload
    leaves when it is asked for the table and the names. *)
Lemma processChunk_reads_table_witness :
  processChunk []
    (decompressPartial LZ4_stored (length (prepareChunkData chunkB))
       (prepareChunkData chunkB) (fileTable_prefix chunkB))
    (length (files chunkB)) =
  Some ([] ++ chunk_entries chunkB).
Proof.
  apply processChunk_reads_table.
  - repeat constructor; unfold File_wf, Blob_wf; cbn; lia.
  - repeat constructor; cbn; lia.
  - reflexivity.
  - vm_compute. reflexivity.
Defined.



(** X17 at chunks of 4 bytes, on a file of three lines, stored uncompressed. *)
Lemma written_records_scan_witness :
  (exists fuel b, run_sample 4 fuel sample_ops_lines = Some b) /\
  (forall fuel b,
     run_sample 4 fuel sample_ops_lines = Some b ->
     exists cs : list Chunk,
       outData b = map emit_sample cs /\
       Forall
         (fun c =>
            (Z.of_nat (fileTable_prefix c) < 2 ^ 32)%Z ->
            let w := emit_sample c in
            processChunk [] (map Some (LZ4_stored (w_cdata w)))
              (Z.to_nat (fileCount (w_header w))) =
            Some (chunk_entries c))
         cs).
Proof.
  apply (written_records_scan 4 LZ4_stored LZ4_stored ngram_concat
           bloom_bits_sample no_files).
  - lia.
  - reflexivity.
  - reflexivity.
Defined.


(** X21 on the diff of the specification's scenario. *)
Lemma writeChanges_contents_injective_witness :
  ["b"; "c"]%string = ["b"; "c"]%string.
Proof.
  apply writeChanges_contents_injective.
  - repeat constructor.
  - repeat constructor.
  - reflexivity.
Defined.

(** ** The build from end to end *)


(** X23. [Builder::printStatistics] prints at most one line, and a second
    call that directly follows prints nothing: the line is repeated only
    after the compressed total has changed. *)
Theorem Builder_printStatistics_once (b : Builder) :
  (builder_output (Builder_printStatistics b) = builder_output b \/
   exists line, builder_output (Builder_printStatistics b) =
                builder_output b ++ [line]) /\
  Builder_printStatistics (Builder_printStatistics b) =
  Builder_printStatistics b.
Proof.
  split.
  - unfold Builder_printStatistics.
    destruct ((builder_fileCount b =? 0)%Z ||
              (builder_lastResultSize b =?
               stat_resultSize (statistics (builder_impl b)))%Z);
      [left|right; eexists]; reflexivity.
  - assert (Hid : forall x : Builder,
              ((builder_fileCount x =? 0)%Z ||
               (builder_lastResultSize x =?
                stat_resultSize (statistics (builder_impl x)))%Z) = true ->
              Builder_printStatistics x = x).
    { intros x Hx. unfold Builder_printStatistics. rewrite Hx. reflexivity. }
    apply Hid. unfold Builder_printStatistics.
    destruct ((builder_fileCount b =? 0)%Z ||
              (builder_lastResultSize b =?
               stat_resultSize (statistics (builder_impl b)))%Z) eqn:E.
    + exact E.
    + cbn [builder_impl builder_fileCount builder_lastResultSize].
      rewrite Z.eqb_refl. apply orb_true_r.
Qed.


(** ** A window without a newline *)

(** X24. When the first [remainingSize] bytes of a file hold no newline,
    [appendChunkFilePrefix] takes nothing for a chunk that already has a
    file; for an empty chunk it takes the whole first line, through its
    newline, or the whole file when it has no newline, which is more than
    [remainingSize] bytes, and the rest starts one line further, also when no
    newline was found. *)
Theorem appendChunkFilePrefix_no_newline (chunk : Chunk) (file : File)
    (remainingSize : nat) :
  File_wf file ->
  remainingSize < Blob_size (contents file) ->
  (Z.of_nat remainingSize < 2 ^ 31)%Z ->
  let data := Blob_data (contents file) in
  count_newlines (firstn remainingSize data) = 0 ->
  (files chunk <> [] ->
   appendChunkFilePrefix chunk file remainingSize = (chunk, file)) /\
  (files chunk = [] ->
   let line := skipOneLine data (Blob_size (contents file)) in
   exists prefix rest,
     appendChunkFilePrefix chunk file remainingSize =
       ({| files := [prefix]; totalSize := totalSize chunk + line |}, rest) /\
     remainingSize < line /\
     Blob_data (contents prefix) = firstn line data /\
     Blob_data (contents rest) = skipn line data /\
     startLine prefix = startLine file /\
     startLine rest = u32 (startLine file + 1)).
Proof.
  intros Hf Hr Hint data Hnone.
  assert (HL : lineEnd (firstn remainingSize data) = 0)
    by (apply lineEnd_zero; exact Hnone).
  unfold appendChunkFilePrefix.
  rewrite skipByLines_spec by exact Hint. cbn [fst snd].
  fold data. rewrite HL. cbn [Nat.ltb Nat.leb orb].
  split.
  - intros Hne. destruct (files chunk); [contradiction|reflexivity].
  - intros He. rewrite He. cbn zeta.
    set (line := skipOneLine data (Blob_size (contents file))).
    assert (Hs : line <= Blob_size (contents file)) by apply skipOneLine_le.
    pose proof (splitPrefix_spec file line Hf Hs) as S.
    pose proof (splitPrefix_rest_data file line Hf Hs) as R.
    destruct (splitPrefix file line) as [prefix rest] eqn:Esp.
    cbn [fst snd] in R. destruct S as (_ & _ & _ & _ & Dp).
    assert (Hstart : startLine prefix = startLine file /\
                     startLine rest = startLine file).
    { unfold splitPrefix in Esp. injection Esp as <- <-. cbn. auto. }
    destruct Hstart as [S1 S2].
    exists prefix, (File_addLines rest 1). cbn [app].
    split_and; auto.
    + apply skipOneLine_gt; assumption.
    + cbn [File_addLines startLine]. rewrite S2. reflexivity.
Qed.

(** X24 on a file of nine bytes without a newline and a window of eight. *)
Lemma appendChunkFilePrefix_no_newline_witness :
  (files Chunk_empty <> [] ->
   appendChunkFilePrefix Chunk_empty fileA 8 = (Chunk_empty, fileA)) /\
  (files Chunk_empty = [] ->
   exists prefix rest,
     appendChunkFilePrefix Chunk_empty fileA 8 =
       ({| files := [prefix]; totalSize := totalSize Chunk_empty + 9 |}, rest) /\
     8 < 9 /\
     Blob_data (contents prefix) = firstn 9 (Blob_data (contents fileA)) /\
     Blob_data (contents rest) = skipn 9 (Blob_data (contents fileA)) /\
     startLine prefix = startLine fileA /\
     startLine rest = u32 (startLine fileA + 1)).
Proof.
  apply (appendChunkFilePrefix_no_newline Chunk_empty fileA 8).
  - unfold File_wf, Blob_wf. cbn. lia.
  - cbn. lia.
  - reflexivity.
  - reflexivity.
Defined.
